(** * Chalawa: AES-256-GCM transit encryption and Diffie-Hellman key agreement

    Shallow embedding of the two implementations shipped in the repository:
    the Node.js/TypeScript backend ([Module Backend]: encryption.ts,
    decryption.ts, dh-encryption.ts, diffie-hellman.ts) and the Dart/Flutter
    frontend ([Module Frontend]: encryption.dart, decryption.dart,
    dh_encryption.dart, diffie_hellman.dart).

    Conventions.
    - A string is modelled by the list of the bytes of its UTF-8 encoding
      ([text]); [utf8.encode], [Buffer.from(s)] and [utf8.decode] are therefore
      the identity on the model.
    - A [Buffer] / [Uint8List] is a list of bytes ([bytes]).
    - A thrown exception is a value [Err e] of the [result] type.
    - The bytes that a cipher decrypted are taken as the text they encode.
      This is what [utf8.decode] of Dart and the ['utf-8'] output of Node's
      decipher deliver on well-formed UTF-8 without a byte-order mark
      ([utf8_valid], [has_bom]); on other bytes Dart throws or drops the
      mark and Node substitutes U+FFFD, which the model does not follow, so
      a statement about the decryption of arbitrary bytes carries these two
      conditions.
    - The platform primitives (SHA-2, the AES-256-GCM keystream and tag, the
      secure random generator, the clock) are parameters: class [Crypto],
      type [rng], argument [now]. *)

From Stdlib Require Import Ascii String ZArith NArith Lia Bool PeanoNat.
From Stdlib Require Import DecimalString DecimalN Zify ZifyN ZifyNat ZifyBool.
From Stdlib Require Import List.
Import ListNotations.

#[local] Open Scope string_scope.
#[local] Open Scope list_scope.

(** ** Bytes, strings, results *)

Definition byte := ascii.
Definition bytes := list ascii.
Definition text := list ascii.

Coercion list_ascii_of_string : string >-> list.

(** The tagged error kinds: what the thrown exception reports. In Dart every
    exception is re-thrown wrapped in [Exception('... failed: $e')]; the kind
    recorded here is the one of the wrapped cause. *)
Inductive error : Type :=
| FormatError          (* 'Invalid encrypted text format': not three parts *)
| DecodeError          (* FormatException of base64.decode / int.parse / BigInt.parse *)
| AuthenticationError  (* GCM tag mismatch *)
| CipherError          (* key, IV or tag of a length the cipher refuses *)
| JsonError            (* SyntaxError of JSON.parse, FormatException of jsonDecode *)
| RangeError           (* substring out of range, negative exponent *)
| InvalidKey           (* public key refused by DiffieHellman.computeSecret *)
| EncodingError.       (* hash.update(s, 'hex') on a string of odd length *)

Inductive result (A : Type) : Type :=
| Ok (a : A)
| Err (e : error).
Arguments Ok {A} a.
Arguments Err {A} e.

Definition bind {A B : Type} (r : result A) (k : A -> result B) : result B :=
  match r with
  | Ok a => k a
  | Err e => Err e
  end.

Notation "'do' x <- r ; k" := (bind r (fun x => k))
  (at level 10, x name, r at level 100, k at level 200).
Notation "'do' ' p <- r ; k" := (bind r (fun x => let 'p := x in k))
  (at level 10, p pattern, r at level 100, k at level 200).

Definition of_option {A : Type} (e : error) (o : option A) : result A :=
  match o with
  | Some a => Ok a
  | None => Err e
  end.

Definition code (c : ascii) : N := N_of_ascii c.
Definition chr (n : N) : ascii := ascii_of_N n.

Definition bytes_eqb (a b : bytes) : bool :=
  if list_eq_dec ascii_dec a b then true else false.

(** [String.prototype.substring(0, n)] of JavaScript: clamps to the length. *)
Definition js_substring0 (n : nat) (s : text) : text := firstn n s.

(** [String.substring(0, n)] of Dart: a RangeError when [n] exceeds the length. *)
Definition dart_substring0 (n : nat) (s : text) : result text :=
  if (n <=? length s)%nat then Ok (firstn n s) else Err RangeError.

(** ** Splitting on ':' 
    [s.split(":")] of JavaScript and [s.split(':')] of Dart: the maximal
    colon-free pieces, in order; always at least one piece. *)
Fixpoint split_colon_aux (cur : text) (s : text) : list text :=
  match s with
  | [] => [rev cur]
  | c :: r =>
      if Ascii.eqb c ":" then rev cur :: split_colon_aux [] r
      else split_colon_aux (c :: cur) r
  end.

Definition split_colon (s : text) : list text := split_colon_aux [] s.

Definition count_colons (s : text) : nat :=
  length (filter (fun c => Ascii.eqb c ":") s).

(** ** Hexadecimal *)

(** Lowercase digit of a value below 16 ([digest('hex')], [Digest.toString],
    [toRadixString(16)], [Buffer.toString('hex')]). *)
Definition hexDigit (d : N) : ascii :=
  if (d <? 10)%N then chr (48 + d) else chr (87 + d).

(** Value of a hexadecimal digit of either case. *)
Definition hexValue (c : ascii) : option N :=
  let n := code c in
  if ((48 <=? n) && (n <=? 57))%N then Some (n - 48)%N
  else if ((97 <=? n) && (n <=? 102))%N then Some (n - 87)%N
  else if ((65 <=? n) && (n <=? 70))%N then Some (n - 55)%N
  else None.

Definition is_hex (c : ascii) : bool :=
  match hexValue c with Some _ => true | None => false end.

Definition hex_of_byte (b : ascii) : text :=
  [hexDigit (code b / 16); hexDigit (code b mod 16)].

(** Lowercase hexadecimal text of a buffer, two digits per byte. *)
Definition hex_of_bytes (bs : bytes) : text := flat_map hex_of_byte bs.

(** Big-endian value of a buffer. *)
Definition N_of_bytes_from (acc : N) (bs : bytes) : N :=
  fold_left (fun acc b => (acc * 256 + code b)%N) bs acc.

Definition N_of_bytes (bs : bytes) : N := N_of_bytes_from 0 bs.

Definition Z_of_bytes (bs : bytes) : Z := Z.of_N (N_of_bytes bs).

(** Digits of [n] in base 16, most significant first, in front of [acc]. *)
Fixpoint hex_digits (fuel : nat) (n : N) (acc : text) : text :=
  match fuel with
  | O => acc
  | S f =>
      if (n =? 0)%N then acc
      else hex_digits f (n / 16)%N (hexDigit (n mod 16) :: acc)
  end.

Definition hex_of_pos (p : positive) : text :=
  hex_digits (Pos.size_nat p) (Npos p) [].

(** [BigInt.toRadixString(16)]. *)
Definition toRadixString16 (v : Z) : text :=
  match v with
  | Z0 => "0"
  | Zpos p => hex_of_pos p
  | Zneg p => "-"%char :: hex_of_pos p
  end.

(** Value of a non-empty run of hexadecimal digits. *)
Fixpoint hex_value_aux (acc : N) (s : text) : option N :=
  match s with
  | [] => Some acc
  | c :: r =>
      match hexValue c with
      | Some d => hex_value_aux (acc * 16 + d)%N r
      | None => None
      end
  end.

Definition hex_value (s : text) : option N :=
  match s with
  | [] => None
  | _ => hex_value_aux 0%N s
  end.

(** ASCII white space, which [int.parse] and [BigInt.parse] trim at both ends
    (the non-ASCII white space they also trim is outside the model). *)
Definition is_space (c : ascii) : bool :=
  let n := code c in (((9 <=? n) && (n <=? 13)) || (n =? 32))%N.

Fixpoint skip_space (s : text) : text :=
  match s with
  | c :: r => if is_space c then skip_space r else s
  | [] => []
  end.

Definition trim (s : text) : text := rev (skip_space (rev (skip_space s))).

(** [int.parse(s, radix: 16)] and [BigInt.parse(s, radix: 16)]: optional
    surrounding white space, an optional sign, then hexadecimal digits of
    either case; [None] is the FormatException. *)
Definition parse_radix16 (s : text) : option Z :=
  match trim s with
  | c :: r =>
      if Ascii.eqb c "-" then option_map (fun n => (- Z.of_N n)%Z) (hex_value r)
      else if Ascii.eqb c "+" then option_map Z.of_N (hex_value r)
      else option_map Z.of_N (hex_value (c :: r))
  | [] => None
  end.

(** Storing an [int] into a [Uint8List] keeps its low eight bits. *)
Definition uint8_of_Z (v : Z) : ascii := chr (Z.to_N (v mod 256)).

Fixpoint parse_hex_pairs (s : text) : result bytes :=
  match s with
  | a :: b :: r =>
      do v <- of_option DecodeError (parse_radix16 [a; b]);
      do rest <- parse_hex_pairs r;
      Ok (uint8_of_Z v :: rest)
  | _ => Ok []
  end.

(** [Buffer.from(s, 'hex')] and [hash.update(s, 'hex')] of Node.js: decodes
    pairs of digits and stops, without an error, at the first pair that is not
    hexadecimal; a trailing single character is dropped. *)
Fixpoint node_hex_decode (s : text) : bytes :=
  match s with
  | a :: b :: r =>
      match hexValue a, hexValue b with
      | Some h, Some l => chr (16 * h + l) :: node_hex_decode r
      | _, _ => []
      end
  | _ => []
  end.

(** [s.length] of a JavaScript string, in UTF-16 code units, read off the
    UTF-8 bytes of the string: a continuation byte adds nothing, the first
    byte of a four-byte sequence stands for a surrogate pair. *)
Definition utf16_units (c : ascii) : nat :=
  let n := code c in
  if (n <? 128)%N then 1%nat
  else if (n <? 192)%N then 0%nat
  else if (n <? 240)%N then 1%nat
  else 2%nat.

Definition js_length (s : text) : nat := list_sum (map utf16_units s).

(** [hash.update(s, 'hex')] of Node.js: a TypeError for a string of odd
    length; otherwise the bytes of the same lenient decoder as
    [Buffer.from(s, 'hex')]. *)
Definition hash_update_hex (s : text) : result bytes :=
  if Nat.odd (js_length s) then Err EncodingError else Ok (node_hex_decode s).

(** ** Base64 (standard alphabet, '=' padding) *)

Definition b64char (n : N) : ascii :=
  if (n <? 26)%N then chr (65 + n)
  else if (n <? 52)%N then chr (71 + n)
  else if (n <? 62)%N then chr (n - 4)
  else if (n =? 62)%N then "+"%char
  else "/"%char.

(** Both decoders also accept the URL-safe characters '-' and '_'. *)
Definition b64value (c : ascii) : option N :=
  let n := code c in
  if ((65 <=? n) && (n <=? 90))%N then Some (n - 65)%N
  else if ((97 <=? n) && (n <=? 122))%N then Some (n - 71)%N
  else if ((48 <=? n) && (n <=? 57))%N then Some (n + 4)%N
  else if ((n =? 43) || (n =? 45))%N then Some 62%N
  else if ((n =? 47) || (n =? 95))%N then Some 63%N
  else None.

Definition is_b64char (c : ascii) : bool :=
  match b64value c with Some _ => true | None => false end.

Definition enc3 (a b c : ascii) : text :=
  [ b64char (code a / 4);
    b64char ((code a mod 4) * 16 + code b / 16);
    b64char ((code b mod 16) * 4 + code c / 64);
    b64char (code c mod 64) ].

Definition enc2 (a b : ascii) : text :=
  [ b64char (code a / 4);
    b64char ((code a mod 4) * 16 + code b / 16);
    b64char ((code b mod 16) * 4);
    "="%char ].

Definition enc1 (a : ascii) : text :=
  [ b64char (code a / 4); b64char ((code a mod 4) * 16); "="%char; "="%char ].

(** [base64.encode] of Dart, [Buffer.toString('base64')] of Node.js. *)
Fixpoint b64encode (bs : bytes) : text :=
  match bs with
  | a :: b :: c :: r => enc3 a b c ++ b64encode r
  | [a; b] => enc2 a b
  | [a] => enc1 a
  | [] => []
  end.

Definition dec3 (s1 s2 s3 s4 : N) : bytes :=
  [ chr (s1 * 4 + s2 / 16);
    chr ((s2 mod 16) * 16 + s3 / 4);
    chr ((s3 mod 4) * 64 + s4) ].

(** [base64.decode] of Dart: whole groups of four characters; padding only in
    the last group and only over zero bits; anything else is a
    FormatException ([None]). *)
Fixpoint b64decode_strict (s : text) : option bytes :=
  match s with
  | [] => Some []
  | c1 :: c2 :: c3 :: c4 :: r =>
      match b64value c1, b64value c2, b64value c3, b64value c4 with
      | Some s1, Some s2, Some s3, Some s4 =>
          option_map (app (dec3 s1 s2 s3 s4)) (b64decode_strict r)
      | Some s1, Some s2, Some s3, None =>
          if Ascii.eqb c4 "=" && (s3 mod 4 =? 0)%N
             && match r with [] => true | _ => false end
          then Some [chr (s1 * 4 + s2 / 16); chr ((s2 mod 16) * 16 + s3 / 4)]
          else None
      | Some s1, Some s2, None, None =>
          if Ascii.eqb c3 "=" && Ascii.eqb c4 "=" && (s2 mod 16 =? 0)%N
             && match r with [] => true | _ => false end
          then Some [chr (s1 * 4 + s2 / 16)]
          else None
      | _, _, _, _ => None
      end
  | _ => None
  end.

(** The sextets of the legal characters before the first '='. *)
Fixpoint b64_sextets (s : text) : list N :=
  match s with
  | [] => []
  | c :: r =>
      match b64value c with
      | Some v => v :: b64_sextets r
      | None => if Ascii.eqb c "=" then [] else b64_sextets r
      end
  end.

Fixpoint b64_join (l : list N) : bytes :=
  match l with
  | s1 :: s2 :: s3 :: s4 :: r => dec3 s1 s2 s3 s4 ++ b64_join r
  | [s1; s2; s3] => [chr (s1 * 4 + s2 / 16); chr ((s2 mod 16) * 16 + s3 / 4)]
  | [s1; s2] => [chr (s1 * 4 + s2 / 16)]
  | _ => []
  end.

(** [Buffer.from(s, 'base64')] of Node.js: never fails; characters outside the
    alphabet are skipped, decoding stops at the first '=', left-over bits are
    dropped. *)
Definition b64decode_lenient (s : text) : bytes := b64_join (b64_sextets s).

(** [StringDecoder('base64')] behind [cipher.update(_, _, 'base64')] and
    [cipher.final('base64')]: [write] emits the whole three-byte groups and
    keeps the remainder, [end] emits the remainder with its padding. *)
Definition b64_whole (bs : bytes) : nat := (length bs / 3 * 3)%nat.
Definition b64_write (bs : bytes) : text := b64encode (firstn (b64_whole bs) bs).
Definition b64_end (bs : bytes) : text := b64encode (skipn (b64_whole bs) bs).

(** ** UTF-8 *)

(** Well-formed UTF-8 (The Unicode Standard, table 3-7): no stray or missing
    continuation byte, no overlong form, no surrogate, nothing above
    U+10FFFF. [need] continuation bytes are still due, the next of them
    between [lo] and [hi]. *)
Fixpoint utf8_valid_from (need : nat) (lo hi : N) (s : bytes) : bool :=
  match s with
  | [] => (need =? 0)%nat
  | b :: r =>
      let n := code b in
      match need with
      | O =>
          if (n <? 128)%N then utf8_valid_from 0 128 191 r
          else if ((194 <=? n) && (n <=? 223))%N then utf8_valid_from 1 128 191 r
          else if (n =? 224)%N then utf8_valid_from 2 160 191 r
          else if (n =? 237)%N then utf8_valid_from 2 128 159 r
          else if ((225 <=? n) && (n <=? 239))%N then utf8_valid_from 2 128 191 r
          else if (n =? 240)%N then utf8_valid_from 3 144 191 r
          else if ((241 <=? n) && (n <=? 243))%N then utf8_valid_from 3 128 191 r
          else if (n =? 244)%N then utf8_valid_from 3 128 143 r
          else false
      | S k =>
          if ((lo <=? n) && (n <=? hi))%N then utf8_valid_from k 128 191 r
          else false
      end
  end.

Definition utf8_valid (s : bytes) : bool := utf8_valid_from 0 128 191 s.

(** A leading byte-order mark, EF BB BF. *)
Definition has_bom (s : bytes) : bool :=
  match s with
  | a :: b :: c :: _ => ((code a =? 239) && (code b =? 187) && (code c =? 191))%N
  | _ => false
  end.

(** ** JSON *)

Definition dquote : ascii := chr 34.
Definition bslash : ascii := chr 92.

(** [jsonEncode(String)] of Dart and [JSON.stringify(string)] of JavaScript:
    quotes, with the quote, the backslash and the control characters escaped. *)
Definition json_escape (c : ascii) : text :=
  let n := code c in
  if (n =? 34)%N then [bslash; dquote]
  else if (n =? 92)%N then [bslash; bslash]
  else if (n =? 8)%N then [bslash; "b"%char]
  else if (n =? 9)%N then [bslash; "t"%char]
  else if (n =? 10)%N then [bslash; "n"%char]
  else if (n =? 12)%N then [bslash; "f"%char]
  else if (n =? 13)%N then [bslash; "r"%char]
  else if (n <? 32)%N then
    [bslash; "u"%char; "0"%char; "0"%char; hexDigit (n / 16); hexDigit (n mod 16)]
  else [c].

Definition jsonEncode (s : text) : text :=
  dquote :: flat_map json_escape s ++ [dquote].

(** The parse tree that [JSON.parse] / [jsonDecode] returns; a number keeps
    its lexeme; an object holds one member for each key, in the order in
    which the keys first occur, with the value that the text gives last.
    This is the order of Dart's map; a JavaScript object has the same
    members and lists those whose keys are array indices first. *)
#[warnings="-register-all"]
Inductive json : Type :=
| JNull
| JBool (b : bool)
| JNumber (lexeme : text)
| JString (s : text)
| JArray (items : list json)
| JObject (members : list (text * json)).

(** UTF-8 bytes of a code point. *)
Definition utf8_of_codepoint (cp : N) : bytes :=
  if (cp <? 128)%N then [chr cp]
  else if (cp <? 2048)%N then [chr (192 + cp / 64); chr (128 + cp mod 64)]
  else if (cp <? 65536)%N then
    [chr (224 + cp / 4096); chr (128 + (cp / 64) mod 64); chr (128 + cp mod 64)]
  else
    [chr (240 + cp / 262144); chr (128 + (cp / 4096) mod 64);
     chr (128 + (cp / 64) mod 64); chr (128 + cp mod 64)].

Definition hex4 (h1 h2 h3 h4 : ascii) : option N := hex_value [h1; h2; h3; h4].

Definition is_high_surrogate (cp : N) : bool := ((55296 <=? cp) && (cp <=? 56319))%N.
Definition is_low_surrogate (cp : N) : bool := ((56320 <=? cp) && (cp <=? 57343))%N.

(** A surrogate that is not part of a pair has no UTF-8 encoding; it is
    recorded as U+FFFD, as encoding the resulting string would. *)
Definition replacement : bytes := utf8_of_codepoint 65533.

Definition json_simple_escape (e : ascii) : option ascii :=
  let m := code e in
  if (m =? 34)%N then Some dquote
  else if (m =? 92)%N then Some bslash
  else if (m =? 47)%N then Some "/"%char
  else if (m =? 98)%N then Some (chr 8)
  else if (m =? 102)%N then Some (chr 12)
  else if (m =? 110)%N then Some (chr 10)
  else if (m =? 114)%N then Some (chr 13)
  else if (m =? 116)%N then Some (chr 9)
  else None.

Definition prepend {A : Type} (p : list A) (o : option (list A * text))
  : option (list A * text) :=
  match o with
  | Some (t, rest) => Some (p ++ t, rest)
  | None => None
  end.

(** The characters of a string literal after its opening quote: the decoded
    string and the input that follows the closing quote. *)
Fixpoint json_string_body (s : text) : option (text * text) :=
  match s with
  | [] => None
  | c :: r =>
      let n := code c in
      if (n =? 34)%N then Some ([], r)
      else if (n =? 92)%N then
        match r with
        | [] => None
        | e :: r1 =>
            if (code e =? 117)%N then
              match r1 with
              | h1 :: h2 :: h3 :: h4 :: r2 =>
                  match hex4 h1 h2 h3 h4 with
                  | None => None
                  | Some hi =>
                      if is_high_surrogate hi then
                        match r2 with
                        | b :: u :: l1 :: l2 :: l3 :: l4 :: r3 =>
                            match hex4 l1 l2 l3 l4 with
                            | Some lo =>
                                if ((code b =? 92) && (code u =? 117))%N
                                   && is_low_surrogate lo
                                then prepend
                                       (utf8_of_codepoint
                                          (65536 + (hi - 55296) * 1024 + (lo - 56320)))
                                       (json_string_body r3)
                                else prepend replacement (json_string_body r2)
                            | None => prepend replacement (json_string_body r2)
                            end
                        | _ => prepend replacement (json_string_body r2)
                        end
                      else if is_low_surrogate hi then
                        prepend replacement (json_string_body r2)
                      else prepend (utf8_of_codepoint hi) (json_string_body r2)
                  end
              | _ => None
              end
            else
              match json_simple_escape e with
              | Some ch => prepend [ch] (json_string_body r1)
              | None => None
              end
        end
      else if (n <? 32)%N then None
      else prepend [c] (json_string_body r)
  end.

Definition is_json_ws (c : ascii) : bool :=
  let n := code c in ((n =? 32) || (n =? 9) || (n =? 10) || (n =? 13))%N.

Fixpoint skip_ws (s : text) : text :=
  match s with
  | c :: r => if is_json_ws c then skip_ws r else s
  | [] => []
  end.

Definition is_digit (c : ascii) : bool := ((48 <=? code c) && (code c <=? 57))%N.

Fixpoint take_digits (s : text) : text * text :=
  match s with
  | c :: r =>
      if is_digit c then let (d, rest) := take_digits r in (c :: d, rest)
      else ([], s)
  | [] => ([], [])
  end.

(** Lexeme of a number: an optional minus sign; 0, or a non-zero digit and
    further digits; optionally a point and digits; optionally e or E, a sign
    and digits. *)
Definition lex_number (s : text) : option (text * text) :=
  let (sign, s1) :=
    match s with
    | c :: r => if Ascii.eqb c "-" then ([c], r) else ([], s)
    | [] => ([], s)
    end in
  match s1 with
  | [] => None
  | c :: r =>
      if negb (is_digit c) then None
      else
        let (int, s2) :=
          if Ascii.eqb c "0" then ([c], r)
          else let (d, rest) := take_digits r in (c :: d, rest) in
        let frac :=
          match s2 with
          | p :: r2 =>
              if Ascii.eqb p "." then
                let (d, rest) := take_digits r2 in
                match d with [] => None | _ => Some (p :: d, rest) end
              else Some ([], s2)
          | [] => Some ([], s2)
          end in
        match frac with
        | None => None
        | Some (fr, s3) =>
            let exp :=
              match s3 with
              | e :: r3 =>
                  if Ascii.eqb e "e" || Ascii.eqb e "E" then
                    let (sg, r4) :=
                      match r3 with
                      | g :: r5 =>
                          if Ascii.eqb g "+" || Ascii.eqb g "-" then ([g], r5)
                          else ([], r3)
                      | [] => ([], r3)
                      end in
                    let (d, rest) := take_digits r4 in
                    match d with [] => None | _ => Some (e :: sg ++ d, rest) end
                  else Some ([], s3)
              | [] => Some ([], s3)
              end in
            match exp with
            | None => None
            | Some (ex, s4) => Some (sign ++ int ++ fr ++ ex, s4)
            end
        end
  end.

(** Assignment to the key [k] of an object under construction: a key that is
    already there keeps its place and takes the new value. *)
Fixpoint set_member {A : Type} (k : text) (v : A) (l : list (text * A))
  : list (text * A) :=
  match l with
  | [] => [(k, v)]
  | (k', v') :: r =>
      if bytes_eqb k k' then (k, v) :: r else (k', v') :: set_member k v r
  end.

Definition last_wins {A : Type} (l : list (text * A)) : list (text * A) :=
  fold_left (fun acc kv => set_member (fst kv) (snd kv) acc) l [].

Fixpoint strip_prefix (p s : text) : option text :=
  match p, s with
  | [], _ => Some s
  | a :: p', b :: s' => if Ascii.eqb a b then strip_prefix p' s' else None
  | _ :: _, [] => None
  end.

(** Recursive descent over the JSON grammar. An opening bracket costs two
    units of fuel and an element or member one, and each of them takes at
    least one character of the input, so twice the length of the input is
    never exhausted. *)
Fixpoint parse_value (fuel : nat) (s : text) : option (json * text) :=
  match fuel with
  | O => None
  | S f =>
      match skip_ws s with
      | [] => None
      | c :: r =>
          let n := code c in
          if (n =? 34)%N then
            match json_string_body r with
            | Some (t, rest) => Some (JString t, rest)
            | None => None
            end
          else if (n =? 91)%N then
            match skip_ws r with
            | c1 :: r1 =>
                if (code c1 =? 93)%N then Some (JArray [], r1)
                else
                  match parse_elements f r with
                  | Some (l, rest) => Some (JArray l, rest)
                  | None => None
                  end
            | [] => None
            end
          else if (n =? 123)%N then
            match skip_ws r with
            | c1 :: r1 =>
                if (code c1 =? 125)%N then Some (JObject [], r1)
                else
                  match parse_members f r with
                  | Some (l, rest) => Some (JObject (last_wins l), rest)
                  | None => None
                  end
            | [] => None
            end
          else if (n =? 116)%N then
            option_map (pair (JBool true)) (strip_prefix "true" (c :: r))
          else if (n =? 102)%N then
            option_map (pair (JBool false)) (strip_prefix "false" (c :: r))
          else if (n =? 110)%N then
            option_map (pair JNull) (strip_prefix "null" (c :: r))
          else
            match lex_number (c :: r) with
            | Some (lx, rest) => Some (JNumber lx, rest)
            | None => None
            end
      end
  end
with parse_elements (fuel : nat) (s : text) : option (list json * text) :=
  match fuel with
  | O => None
  | S f =>
      match parse_value f s with
      | None => None
      | Some (v, rest) =>
          match skip_ws rest with
          | c :: r =>
              if (code c =? 44)%N then
                match parse_elements f r with
                | Some (l, rest') => Some (v :: l, rest')
                | None => None
                end
              else if (code c =? 93)%N then Some ([v], r)
              else None
          | [] => None
          end
      end
  end
with parse_members (fuel : nat) (s : text) : option (list (text * json) * text) :=
  match fuel with
  | O => None
  | S f =>
      match skip_ws s with
      | q :: r0 =>
          if negb (code q =? 34)%N then None
          else
            match json_string_body r0 with
            | None => None
            | Some (k, r1) =>
                match skip_ws r1 with
                | col :: r2 =>
                    if negb (code col =? 58)%N then None
                    else
                      match parse_value f r2 with
                      | None => None
                      | Some (v, rest) =>
                          match skip_ws rest with
                          | c :: r =>
                              if (code c =? 44)%N then
                                match parse_members f r with
                                | Some (l, rest') => Some ((k, v) :: l, rest')
                                | None => None
                                end
                              else if (code c =? 125)%N then Some ([(k, v)], r)
                              else None
                          | [] => None
                          end
                      end
                | [] => None
                end
            end
      | [] => None
      end
  end.

(** [JSON.parse(s)] of JavaScript, [jsonDecode(s)] of Dart. *)
Definition jsonDecode (s : text) : result json :=
  match parse_value (2 * length s + 2) s with
  | Some (v, rest) =>
      match skip_ws rest with
      | [] => Ok v
      | _ => Err JsonError
      end
  | None => Err JsonError
  end.

(** ** Platform primitives *)

(** The hash functions and the two halves of AES-256-GCM with an empty
    associated-data string: the counter-mode keystream (byte [i] of the
    stream for a key and an IV) and the 128-bit GHASH tag of a ciphertext.
    Only the lengths of their outputs matter to the code. *)
Class Crypto : Type := {
  sha256 : bytes -> bytes;
  sha512 : bytes -> bytes;
  aes_ctr : bytes -> bytes -> nat -> ascii;
  gcm_mac : bytes -> bytes -> bytes -> bytes;
  sha256_length : forall m, length (sha256 m) = 32%nat;
  sha512_length : forall m, length (sha512 m) = 64%nat;
  gcm_mac_length : forall k iv c, length (gcm_mac k iv c) = 16%nat
}.

(** The secure random generator ([randomBytes], [Random.secure]): byte [i] is
    the [i]-th byte it delivers. *)
Definition rng := nat -> ascii.

Definition randomBytes (r : rng) (from n : nat) : bytes := map r (seq from n).

Definition xor_byte (a b : ascii) : ascii :=
  match a, b with
  | Ascii a0 a1 a2 a3 a4 a5 a6 a7, Ascii b0 b1 b2 b3 b4 b5 b6 b7 =>
      Ascii (xorb a0 b0) (xorb a1 b1) (xorb a2 b2) (xorb a3 b3)
            (xorb a4 b4) (xorb a5 b5) (xorb a6 b6) (xorb a7 b7)
  end.

Fixpoint xor_stream (ks : nat -> ascii) (i : nat) (d : bytes) : bytes :=
  match d with
  | [] => []
  | b :: r => xor_byte b (ks i) :: xor_stream ks (S i) r
  end.

Section GCM.
Context `{Crypto}.

(** Counter-mode encryption, which is its own inverse. *)
Definition gcm_ctr (key iv data : bytes) : bytes :=
  xor_stream (aes_ctr key iv) 0 data.

(** [createCipheriv('aes-256-gcm', key, iv)] / [cipher.init]: a 256-bit key
    and a non-empty IV. *)
Definition gcm_init (key iv : bytes) : result unit :=
  if negb (length key =? 32)%nat then Err CipherError
  else match iv with [] => Err CipherError | _ => Ok tt end.

(** Encryption: the ciphertext and its tag. *)
Definition gcm_encrypt (key iv pt : bytes) : result (bytes * bytes) :=
  do _ <- gcm_init key iv;
  let ct := gcm_ctr key iv pt in
  Ok (ct, gcm_mac key iv ct).

(** Node.js: [setAuthTag] accepts tags of 4, 8 and 12 to 16 bytes, [update]
    decrypts, and [final] throws unless the tag is the leading part of the
    tag of the ciphertext. *)
Definition node_tag_length_ok (n : nat) : bool :=
  ((n =? 4) || (n =? 8) || ((12 <=? n) && (n <=? 16)))%nat.

Definition node_gcm_decrypt (key iv tag ct : bytes) : result bytes :=
  do _ <- gcm_init key iv;
  if negb (node_tag_length_ok (length tag)) then Err CipherError
  else
    let decrypted := gcm_ctr key iv ct in
    if bytes_eqb tag (firstn (length tag) (gcm_mac key iv ct))
    then Ok decrypted
    else Err AuthenticationError.

(** pointycastle: [GCMBlockCipher.process] appends the 16-byte tag when it
    encrypts, and when it decrypts takes the last 16 bytes of its input as
    the tag. *)
Definition pc_gcm_process_encrypt (key iv pt : bytes) : result bytes :=
  do '(ct, tag) <- gcm_encrypt key iv pt;
  Ok (ct ++ tag).

Definition pc_gcm_process_decrypt (key iv data : bytes) : result bytes :=
  do _ <- gcm_init key iv;
  if (length data <? 16)%nat then Err CipherError
  else
    let ct := firstn (length data - 16) data in
    let tag := skipn (length data - 16) data in
    if bytes_eqb tag (gcm_mac key iv ct)
    then Ok (gcm_ctr key iv ct)
    else Err AuthenticationError.
End GCM.

(** ** Big integers *)

Fixpoint modpow_pos (b : Z) (e : positive) (m : Z) : Z :=
  match e with
  | xH => b mod m
  | xO e' => let r := modpow_pos b e' m in (r * r) mod m
  | xI e' => let r := modpow_pos b e' m in ((r * r) mod m * b) mod m
  end%Z.

(** [BigInt.modPow]: an ArgumentError for a negative exponent or a modulus
    that is not positive. *)
Definition modPow (b e m : Z) : result Z :=
  if (m <=? 0)%Z then Err RangeError
  else
    match e with
    | Z0 => Ok (1 mod m)%Z
    | Zpos p => Ok (modpow_pos b p m)
    | Zneg _ => Err RangeError
    end.

(** Decimal text of an integer ([Date.now().toString()],
    [millisecondsSinceEpoch.toString()]). *)
Definition decimal (z : Z) : text :=
  list_ascii_of_string (NilZero.string_of_int (Z.to_int z)).

(** Big-endian bytes of a natural number, without leading zero bytes
    (what a [Buffer] returned by Node's DiffieHellman holds). *)
Fixpoint be_bytes_aux (fuel : nat) (n : N) (acc : bytes) : bytes :=
  match fuel with
  | O => acc
  | S f =>
      if (n =? 0)%N then acc
      else be_bytes_aux f (n / 256)%N (chr (n mod 256) :: acc)
  end.

Definition be_bytes (n : N) : bytes := be_bytes_aux (N.to_nat (N.size n)) n [].

Definition pad_left (len : nat) (bs : bytes) : bytes :=
  repeat (chr 0) (len - length bs) ++ bs.

(** ** The fixed group *)

Definition PRIME_2048 : text :=
  "FFFFFFFFFFFFFFFFC90FDAA22168C234C4C6628B80DC1CD1" ++
  "29024E088A67CC74020BBEA63B139B22514A08798E3404DD" ++
  "EF9519B3CD3A431B302B0A6DF25F14374FE1356D6D51C245" ++
  "E485B576625E7EC6F44C42E9A637ED6B0BFF5CB6F406B7ED" ++
  "EE386BFB5A899FA5AE9F24117C4B1FE649286651ECE45B3D" ++
  "C2007CB8A163BF0598DA48361C55D39A69163FA8FD24CF5F" ++
  "83655D23DCA3AD961C62F356208552BB9ED529077096966D" ++
  "670C354E4ABC9804F1746C08CA18217C32905E462E36CE3B" ++
  "E39E772C180E86039B2783A2EC07A28FB5C55DF06F4C52C9" ++
  "DE2BCBF6955817183995497CEA956AE515D2261898FA0510" ++
  "15728E5A8AACAA68FFFFFFFFFFFFFFFF".

Definition GENERATOR : Z := 2.

(** The value of the constant, computed once. *)
Definition prime : Z :=
  Eval vm_compute in
    match parse_radix16 PRIME_2048 with Some p => p | None => 0%Z end.

(** ** Data types of the API (types.ts, types.dart) *)

Record EncryptionInput := { plainText : text; password : text }.
Record DecryptionInput := { encryptedText : text; dec_password : text }.
Record DHKeyPair := { privateKey : text; publicKey : text }.
Record DHSharedSecretInput := {
  ss_privateKey : text;
  ss_otherPublicKey : text;
  ss_password : option text
}.
Record DHEncryptionInput := { dh_plainText : text; sharedSecret : text }.
Record DHDecryptionInput := { dh_encryptedText : text; dh_sharedSecret : text }.

(** ** The Node.js / TypeScript backend *)

Module Backend.
Section WithCrypto.
Context `{Crypto}.

(** [if (password)]: an absent or empty password is falsy. *)
Definition truthy (p : option text) : bool :=
  match p with
  | Some (_ :: _) => true
  | _ => false
  end.

(** encryption.ts, [encrypt]. The plaintext goes into the cipher as it is;
    [update] and [final] deliver the base64 text of the ciphertext in two
    pieces. *)
Definition encrypt (r : rng) (input : EncryptionInput) : result text :=
  let iv := randomBytes r 0 16 in
  let genHash := hex_of_bytes (sha512 (password input)) in
  let key := js_substring0 32 genHash in
  do '(ct, authTag) <- gcm_encrypt key iv (plainText input);
  let encrypted := b64_write ct in
  let encrypted := encrypted ++ b64_end ct in
  Ok (encrypted ++ ":" ++ b64encode iv ++ ":" ++ b64encode authTag).

(** decryption.ts, [decrypt]. The ['utf-8'] output of the decipher is the
    decrypted bytes themselves when they are well-formed UTF-8. *)
Definition decrypt (input : DecryptionInput) : result json :=
  let genHash := hex_of_bytes (sha512 (dec_password input)) in
  let key := js_substring0 32 genHash in
  let result := split_colon (encryptedText input) in
  if negb (length result =? 3)%nat then Err FormatError
  else
    let iv := b64decode_lenient (nth 1 result []) in
    let authTag := b64decode_lenient (nth 2 result []) in
    do decrypted <-
      node_gcm_decrypt key iv authTag (b64decode_lenient (nth 0 result []));
    jsonDecode decrypted.

(** dh-encryption.ts, [dhEncrypt]. [hash.update(sharedSecret, 'hex')]
    throws on a secret of odd length. *)
Definition dhEncrypt (r : rng) (input : DHEncryptionInput) : result text :=
  let iv := randomBytes r 0 16 in
  do dataKey <- hash_update_hex (sharedSecret input);
  let genHash := hex_of_bytes (sha512 dataKey) in
  let key := js_substring0 32 genHash in
  do '(ct, authTag) <- gcm_encrypt key iv (dh_plainText input);
  let encrypted := b64_write ct in
  let encrypted := encrypted ++ b64_end ct in
  Ok (encrypted ++ ":" ++ b64encode iv ++ ":" ++ b64encode authTag).

(** dh-encryption.ts, [dhDecrypt]: the number of parts is tested before the
    secret is hashed. *)
Definition dhDecrypt (input : DHDecryptionInput) : result json :=
  let result := split_colon (dh_encryptedText input) in
  if negb (length result =? 3)%nat then Err FormatError
  else
    do dataKey <- hash_update_hex (dh_sharedSecret input);
    let genHash := hex_of_bytes (sha512 dataKey) in
    let key := js_substring0 32 genHash in
    let iv := b64decode_lenient (nth 1 result []) in
    let authTag := b64decode_lenient (nth 2 result []) in
    do decrypted <-
      node_gcm_decrypt key iv authTag (b64decode_lenient (nth 0 result []));
    jsonDecode decrypted.

(** [createDiffieHellman(PRIME_2048, 'hex', GENERATOR)]: the modulus. *)
Definition dh_prime : Z := Z_of_bytes (node_hex_decode PRIME_2048).

(** [DiffieHellman.computeSecret] of Node.js, which the repository calls
    and does not contain: OpenSSL refuses a public key outside [2, p - 2]
    and the secret is left-padded to the size of the modulus. This is what
    the library does for a public value that is a power of the generator
    and a shared value other than 1. OpenSSL knows this prime with the
    order of its subgroup, and also refuses a public value outside the
    subgroup and a shared value of 1; the definition does not have these
    two refusals, so what is stated of the secret it returns is stated for
    powers of the generator and shared values other than 1. *)
Definition dh_computeSecret (priv : Z) (other : bytes) : result bytes :=
  let pub := Z_of_bytes other in
  if ((pub <=? 1) || (dh_prime - 1 <=? pub))%Z then Err InvalidKey
  else
    do s <- modPow pub priv dh_prime;
    Ok (pad_left 256 (be_bytes (Z.to_N s))).

(** diffie-hellman.ts, [generateDHKeyPair]. [libPrivate] is the private
    exponent that [dh.generateKeys()] draws inside OpenSSL, [now] is
    [Date.now()]. *)
Definition generateDHKeyPair (libPrivate : N) (now : Z) (pw : option text)
  : result DHKeyPair :=
  let privateKey := be_bytes libPrivate in
  do pub <- modPow GENERATOR (Z.of_N libPrivate) dh_prime;
  let publicKey := be_bytes (Z.to_N pub) in
  if truthy pw then
    let password := match pw with Some p => p | None => [] end in
    let passwordHash := sha256 (password ++ decimal now) in
    let enhancedPrivateKey := sha256 (privateKey ++ passwordHash) in
    do epub <- modPow GENERATOR (Z_of_bytes enhancedPrivateKey) dh_prime;
    Ok {| privateKey := hex_of_bytes enhancedPrivateKey;
          publicKey := hex_of_bytes (be_bytes (Z.to_N epub)) |}
  else
    Ok {| privateKey := hex_of_bytes privateKey;
          publicKey := hex_of_bytes publicKey |}.

(** diffie-hellman.ts, [computeSharedSecret]. *)
Definition computeSharedSecret (input : DHSharedSecretInput) : result text :=
  let priv := Z_of_bytes (node_hex_decode (ss_privateKey input)) in
  do sharedSecret <-
    dh_computeSecret priv (node_hex_decode (ss_otherPublicKey input));
  if truthy (ss_password input) then
    let password := match ss_password input with Some p => p | None => [] end in
    Ok (hex_of_bytes (sha512 (sharedSecret ++ password)))
  else Ok (hex_of_bytes (sha256 sharedSecret)).

(** diffie-hellman.ts, [validatePublicKey]: [Buffer.from] does not throw,
    so the [catch] branch is never taken. *)
Definition validatePublicKey (publicKey : text) : bool :=
  let keyBuffer := node_hex_decode publicKey in
  ((100 <? length keyBuffer) && (length keyBuffer <? 1000))%nat.
End WithCrypto.
End Backend.

(** ** The Dart / Flutter frontend *)

Module Frontend.
Section WithCrypto.
Context `{Crypto}.

(** [list.sublist(from, to)] with its RangeError. *)
Definition sublist (from to : Z) (l : bytes) : result bytes :=
  if ((0 <=? from) && (from <=? to) && (to <=? Z.of_nat (length l)))%Z
  then Ok (firstn (Z.to_nat to - Z.to_nat from) (skipn (Z.to_nat from) l))
  else Err RangeError.

(** [_hexToBytes]: an odd-length text gets a leading zero; every pair goes
    through [int.parse(_, radix: 16)] into a [Uint8List]. *)
Definition _hexToBytes (hex : text) : result bytes :=
  let hex := if Nat.odd (length hex) then "0"%char :: hex else hex in
  parse_hex_pairs hex.

Definition _hexToBigInt (hex : text) : result Z :=
  of_option DecodeError (parse_radix16 hex).

Definition _bigIntToHex (value : Z) : text := toRadixString16 value.

(** [_generateRandomBigInt(bitLength)], drawing from position [pos] of the
    generator. *)
Definition _generateRandomBigInt (r : rng) (pos bitLength : nat) : result Z :=
  let bytes := ((bitLength + 7) / 8)%nat in
  let randomBytes := randomBytes r pos bytes in
  of_option DecodeError (parse_radix16 (hex_of_bytes randomBytes)).

(** lib/src/encryption.dart, [encrypt]. *)
Definition encrypt (r : rng) (input : EncryptionInput) : result text :=
  let iv := randomBytes r 0 16 in
  let hash := sha512 (password input) in
  let keyString := hex_of_bytes hash in
  do key <- dart_substring0 32 keyString;
  let jsonPlainText := jsonEncode (plainText input) in
  let plainTextBytes := jsonPlainText in
  do encryptedBytes <- pc_gcm_process_encrypt key iv plainTextBytes;
  let n := Z.of_nat (length encryptedBytes) in
  do encryptedData <- sublist 0 (n - 16) encryptedBytes;
  do authTag <- sublist (n - 16) n encryptedBytes;
  Ok (b64encode encryptedData ++ ":" ++ b64encode iv ++ ":" ++ b64encode authTag).

(** lib/src/decryption.dart, [decrypt]. [utf8.decode] hands the decrypted
    bytes on as the text they encode when they are well-formed UTF-8
    without a byte-order mark. *)
Definition decrypt (input : DecryptionInput) : result json :=
  let parts := split_colon (encryptedText input) in
  if negb (length parts =? 3)%nat then Err FormatError
  else
    do encryptedData <- of_option DecodeError (b64decode_strict (nth 0 parts []));
    do iv <- of_option DecodeError (b64decode_strict (nth 1 parts []));
    do authTag <- of_option DecodeError (b64decode_strict (nth 2 parts []));
    let hash := sha512 (dec_password input) in
    let keyString := hex_of_bytes hash in
    do key <- dart_substring0 32 keyString;
    let combinedData := encryptedData ++ authTag in
    do decryptedBytes <- pc_gcm_process_decrypt key iv combinedData;
    jsonDecode decryptedBytes.

(** lib/src/dh_encryption.dart, [dhEncrypt]. *)
Definition dhEncrypt (r : rng) (input : DHEncryptionInput) : result text :=
  let iv := randomBytes r 0 16 in
  do sharedSecretBytes <- _hexToBytes (sharedSecret input);
  let hash := sha512 sharedSecretBytes in
  let keyString := hex_of_bytes hash in
  do key <- dart_substring0 32 keyString;
  let jsonPlainText := jsonEncode (dh_plainText input) in
  let plainTextBytes := jsonPlainText in
  do encryptedBytes <- pc_gcm_process_encrypt key iv plainTextBytes;
  let n := Z.of_nat (length encryptedBytes) in
  do encryptedData <- sublist 0 (n - 16) encryptedBytes;
  do authTag <- sublist (n - 16) n encryptedBytes;
  Ok (b64encode encryptedData ++ ":" ++ b64encode iv ++ ":" ++ b64encode authTag).

(** lib/src/dh_encryption.dart, [dhDecrypt]; [utf8.decode] as in
    [decrypt]. *)
Definition dhDecrypt (input : DHDecryptionInput) : result json :=
  let parts := split_colon (dh_encryptedText input) in
  if negb (length parts =? 3)%nat then Err FormatError
  else
    do encryptedData <- of_option DecodeError (b64decode_strict (nth 0 parts []));
    do iv <- of_option DecodeError (b64decode_strict (nth 1 parts []));
    do authTag <- of_option DecodeError (b64decode_strict (nth 2 parts []));
    do sharedSecretBytes <- _hexToBytes (dh_sharedSecret input);
    let hash := sha512 sharedSecretBytes in
    let keyString := hex_of_bytes hash in
    do key <- dart_substring0 32 keyString;
    let combinedData := encryptedData ++ authTag in
    do decryptedBytes <- pc_gcm_process_decrypt key iv combinedData;
    jsonDecode decryptedBytes.

(** The [do ... while] of [generateDHKeyPair]: attempt [k] draws the next
    256 bytes of the generator, those from position [256 * k]; a candidate
    is kept when it is above 1 and below the prime. [None]: the loop is
    still running when the fuel is spent. *)
Fixpoint sample_private (fuel : nat) (r : rng) (k : nat) (prime : Z)
  : option (result Z) :=
  match fuel with
  | O => None
  | S f =>
      match _generateRandomBigInt r (256 * k) 2048 with
      | Err e => Some (Err e)
      | Ok privateKey =>
          if ((privateKey >=? prime) || (privateKey <=? 1))%Z
          then sample_private f r (S k) prime
          else Some (Ok privateKey)
      end
  end.

(** lib/src/diffie_hellman.dart, [generateDHKeyPair]; [now] is
    [DateTime.now().millisecondsSinceEpoch], [pw] is [input?.password]. *)
Definition generateDHKeyPair (fuel : nat) (r : rng) (now : Z) (pw : option text)
  : option (result DHKeyPair) :=
  match _hexToBigInt PRIME_2048 with
  | Err e => Some (Err e)
  | Ok prime =>
      let generator := GENERATOR in
      match sample_private fuel r 0 prime with
      | None => None
      | Some sampled => Some (
          do privateKey <- sampled;
          do publicKey <- modPow generator privateKey prime;
          match pw with
          | Some password =>
              let passwordHash := sha256 (password ++ decimal now) in
              do privateKeyBytes <- _hexToBytes (_bigIntToHex privateKey);
              let combined := privateKeyBytes ++ passwordHash in
              let enhancedHash := sha256 combined in
              do digits <- dart_substring0 64 (hex_of_bytes enhancedHash);
              do enhancedPrivateKey <- of_option DecodeError (parse_radix16 digits);
              let validPrivateKey := (enhancedPrivateKey mod (prime - 1) + 1)%Z in
              do enhancedPublicKey <- modPow generator validPrivateKey prime;
              Ok {| privateKey := _bigIntToHex validPrivateKey;
                    publicKey := _bigIntToHex enhancedPublicKey |}
          | None =>
              Ok {| privateKey := _bigIntToHex privateKey;
                    publicKey := _bigIntToHex publicKey |}
          end)
      end
  end.

(** lib/src/diffie_hellman.dart, [computeSharedSecret]. *)
Definition computeSharedSecret (input : DHSharedSecretInput) : result text :=
  do prime <- _hexToBigInt PRIME_2048;
  do privateKey <- _hexToBigInt (ss_privateKey input);
  do otherPublicKey <- _hexToBigInt (ss_otherPublicKey input);
  do sharedSecret <- modPow otherPublicKey privateKey prime;
  do sharedSecretBytes <- _hexToBytes (_bigIntToHex sharedSecret);
  match ss_password input with
  | Some password =>
      let combined := sharedSecretBytes ++ password in
      Ok (hex_of_bytes (sha512 combined))
  | None => Ok (hex_of_bytes (sha256 sharedSecretBytes))
  end.

(** lib/src/diffie_hellman.dart, [validatePublicKey]. *)
Definition validatePublicKey (publicKey : text) : bool :=
  match _hexToBytes publicKey with
  | Ok keyBytes => ((100 <? length keyBytes) && (length keyBytes <? 1000))%nat
  | Err _ => false
  end.
End WithCrypto.
End Frontend.

(** ** Vocabulary of the specification *)

Section Spec.
Context `{Crypto}.

(** KeyDerivation.deriveKey in the words of the specification: hash the
    secret material with SHA-512, write the digest as lowercase
    hexadecimal text, keep the first 32 characters, use their UTF-8
    bytes as the key. *)
Definition deriveKey (secretMaterial : bytes) : bytes :=
  firstn 32 (hex_of_bytes (sha512 secretMaterial)).

(** The wire format [ciphertext:iv:authTag]. *)
Definition wire (ct iv tag : bytes) : text :=
  b64encode ct ++ ":" ++ b64encode iv ++ ":" ++ b64encode tag.

(** AEADCodec of the backend: what [encrypt] / [dhEncrypt] and [decrypt] /
    [dhDecrypt] of the TypeScript files do once the key is fixed. *)
Definition node_seal (key : bytes) (r : rng) (pt : text) : result text :=
  let iv := randomBytes r 0 16 in
  do '(ct, tag) <- gcm_encrypt key iv pt;
  Ok (wire ct iv tag).

Definition node_open (key : bytes) (c : text) : result json :=
  match split_colon c with
  | [s0; s1; s2] =>
      do pt <- node_gcm_decrypt key (b64decode_lenient s1) (b64decode_lenient s2)
                 (b64decode_lenient s0);
      jsonDecode pt
  | _ => Err FormatError
  end.

(** AEADCodec of the frontend, likewise for the Dart files. *)
Definition dart_seal (key : bytes) (r : rng) (pt : text) : result text :=
  let iv := randomBytes r 0 16 in
  do '(ct, tag) <- gcm_encrypt key iv (jsonEncode pt);
  Ok (wire ct iv tag).

Definition dart_open (key : bytes) (c : text) : result json :=
  match split_colon c with
  | [s0; s1; s2] =>
      do ct <- of_option DecodeError (b64decode_strict s0);
      do iv <- of_option DecodeError (b64decode_strict s1);
      do tag <- of_option DecodeError (b64decode_strict s2);
      do pt <- pc_gcm_process_decrypt key iv (ct ++ tag);
      jsonDecode pt
  | _ => Err FormatError
  end.
End Spec.

(** Bit [i] of a buffer, counted from the low bit of the first byte, flipped. *)
Definition flip_in_byte (j : nat) (b : ascii) : ascii :=
  xor_byte b (chr (2 ^ N.of_nat j)).

Fixpoint flip_bit (i : nat) (bs : bytes) : bytes :=
  match bs with
  | [] => []
  | b :: r =>
      if (i <? 8)%nat then flip_in_byte i b :: r
      else b :: flip_bit (i - 8) r
  end.

(** A CipherText whose auth-tag segment carries the tag with bit [i] flipped. *)
Definition tamper_tag (i : nat) (c : text) : text :=
  match split_colon c with
  | [s0; s1; s2] =>
      s0 ++ ":" ++ s1 ++ ":" ++ b64encode (flip_bit i (b64decode_lenient s2))
  | _ => c
  end.

(** A CipherText with bit [j] of the text of its auth-tag segment flipped:
    the characters of the segment, not the tag they encode. *)
Definition tamper_tag_text (j : nat) (c : text) : text :=
  match split_colon c with
  | [s0; s1; s2] => s0 ++ ":" ++ s1 ++ ":" ++ flip_bit j s2
  | _ => c
  end.

(** ** Stand-ins for the primitives

    Functions with the output lengths of SHA-256, SHA-512 and the GCM tag,
    used only to run the embedding on concrete inputs. Every theorem is
    proved for an arbitrary instance of [Crypto]. *)
Definition checksum (bs : bytes) : N :=
  fold_left (fun acc b => ((acc * 131 + code b + 7) mod 65521)%N) bs 1%N.

Definition expand (n : nat) (seed : N) : bytes :=
  map (fun i => chr ((seed * (N.of_nat i + 3) + N.of_nat i * 89) mod 256)%N) (seq 0 n).

Lemma expand_length (n : nat) (seed : N) : length (expand n seed) = n.
Proof. unfold expand. now rewrite length_map, length_seq. Qed.

#[local] Instance sample_crypto : Crypto := {|
  sha256 m := expand 32 (checksum m);
  sha512 m := expand 64 (checksum m);
  aes_ctr key iv i := chr ((checksum (key ++ iv) + N.of_nat i * 101) mod 256)%N;
  gcm_mac key iv c := expand 16 (checksum (key ++ iv ++ c));
  sha256_length m := expand_length 32 _;
  sha512_length m := expand_length 64 _;
  gcm_mac_length k iv c := expand_length 16 _
|}.

(** A generator that delivers the bytes of [s] in turn, then zeros. *)
Definition rng_of (s : bytes) : rng := fun i => nth i s (chr 0).

(** Attempt [k] of the sampling loop of the frontend, and the test that ends
    the loop. *)
Definition candidate (r : rng) (k : nat) : Z :=
  Z_of_bytes (randomBytes r (256 * k) 256).

Definition accepted (x : Z) : bool := negb ((x >=? prime) || (x <=? 1))%Z.

(** Attempt [k] is the first one the loop accepts. *)
Definition first_accepted (r : rng) (k : nat) : bool :=
  forallb (fun j => negb (accepted (candidate r j))) (seq 0 k)
  && accepted (candidate r k).

(** An ASCII character that [int.parse] accepts nowhere in a pair of
    characters: neither a hexadecimal digit, nor a sign, nor white space. *)
Definition is_foreign (c : ascii) : bool :=
  (code c <? 128)%N
  && negb (is_hex c || is_space c || Ascii.eqb c "-" || Ascii.eqb c "+").

(** 101 well-formed pairs followed by a pair that is not hexadecimal. *)
Definition hex_then_junk : text := concat (repeat ("ab" : text) 101) ++ "zz".

(** A text of pairs, each a [+] and one of the characters of [ds]. *)
Definition signed_pairs (ds : text) : text :=
  flat_map (fun x => ["+"%char; x]) ds.

(** 101 pairs [+a]. *)
Definition signed_hex : text := signed_pairs (repeat "a"%char 101).


(** The shape of a CipherText [c] that carries the ciphertext [ct], the IV
    [iv] and the tag [tag]: two colons, three segments, each the standard
    base64 text of its part, a 16-byte IV and a 16-byte tag. *)
Definition is_ciphertext (c : text) (ct iv tag : bytes) : Prop :=
  count_colons c = 2%nat
  /\ exists s0 s1 s2,
      split_colon c = [s0; s1; s2]
      /\ s0 = b64encode ct /\ s1 = b64encode iv /\ s2 = b64encode tag
      /\ b64decode_strict s0 = Some ct
      /\ b64decode_strict s1 = Some iv
      /\ b64decode_strict s2 = Some tag
      /\ length iv = 16%nat /\ length tag = 16%nat
      /\ s1 <> [] /\ s2 <> [].

Definition first_segment_empty (c : text) : Prop :=
  exists rest, split_colon c = [] :: rest.



(** ** Auxiliary predicates of the proofs *)

Definition colon_free (s : text) : Prop :=
  Forall (fun c => Ascii.eqb c ":" = false) s.

(** [P] holds of every number below [bound]. *)
Definition all_below (bound : N) (P : N -> bool) : bool :=
  forallb P (map N.of_nat (seq 0 (N.to_nat bound))).

(** ** Concrete inputs *)

Definition sample_rng : rng := rng_of "0123456789abcdef".
Definition sample_password : text := "test-password-123".
Definition sample_text : text := "Hello World!".
Definition sample_now : Z := 1700000000000.

Definition rng_five : rng := rng_of (repeat (chr 0) 255 ++ [chr 5]).
Definition rng_seven : rng := rng_of (repeat (chr 0) 255 ++ [chr 7]).

(** ** Altered CipherTexts *)

(** A CipherText whose auth-tag segment carries only the first [n] bytes of
    the tag. *)
Definition truncate_tag (n : nat) (c : text) : text :=
  match split_colon c with
  | [s0; s1; s2] =>
      s0 ++ ":" ++ s1 ++ ":" ++ b64encode (firstn n (b64decode_lenient s2))
  | _ => c
  end.

(** A CipherText with the boundary between its first and its third segment
    moved: the ciphertext segment keeps the first [n] bytes, the rest goes in
    front of the tag. *)
Definition move_boundary (n : nat) (c : text) : text :=
  match split_colon c with
  | [s0; s1; s2] =>
      b64encode (firstn n (b64decode_lenient s0)) ++ ":" ++ s1 ++ ":"
      ++ b64encode (skipn n (b64decode_lenient s0) ++ b64decode_lenient s2)
  | _ => c
  end.

Definition newline : ascii := chr 10.

(** ** Byte strings of big integers *)

(** The bytes that [_hexToBytes(_bigIntToHex(v))] delivers for [v >= 0]:
    the big-endian bytes of [v] without leading zero bytes, and the single
    byte 0 for 0, whose text ["0"] gets a leading zero. *)
Definition magnitude_bytes (v : Z) : bytes :=
  match v with
  | Z0 => [chr 0]
  | _ => be_bytes (Z.to_N v)
  end.

(** A text of ASCII characters only: on such a text the UTF-8 bytes of the
    model are the UTF-16 code units that Dart's [int.parse] and
    [BigInt.parse] see. *)
Definition all_ascii (s : text) : bool := forallb (fun c => (code c <? 128)%N) s.

(** * Properties of the codecs *)

#[local] Ltac Zify.zify_post_hook ::= Z.div_mod_to_equations.

Ltac all_bytes c := destruct c as [[] [] [] [] [] [] [] []].

Lemma chr_code (c : ascii) : chr (code c) = c.
Proof. apply ascii_N_embedding. Qed.

Lemma code_chr (n : N) : (n < 256)%N -> code (chr n) = n.
Proof. apply N_ascii_embedding. Qed.

Lemma code_lt (c : ascii) : (code c < 256)%N.
Proof. apply N_ascii_bounded. Qed.

Lemma bytes_eqb_refl (a : bytes) : bytes_eqb a a = true.
Proof. unfold bytes_eqb. destruct (list_eq_dec ascii_dec a a); congruence. Qed.

Lemma bytes_eqb_neq (a b : bytes) : a <> b -> bytes_eqb a b = false.
Proof. unfold bytes_eqb. destruct (list_eq_dec ascii_dec a b); congruence. Qed.

(** ** Splitting *)

Lemma split_colon_aux_free (cur s : text) :
  colon_free s -> split_colon_aux cur s = [rev cur ++ s].
Proof.
  revert cur. induction s as [|c s IH]; intros cur Hs; simpl.
  - now rewrite app_nil_r.
  - inversion Hs as [|? ? Hc Hs']; subst. rewrite Hc, IH by assumption.
    simpl. now rewrite <- app_assoc.
Qed.

Lemma split_colon_aux_app (cur s1 s2 : text) :
  colon_free s1 ->
  split_colon_aux cur (s1 ++ ":"%char :: s2) = (rev cur ++ s1) :: split_colon s2.
Proof.
  revert cur. induction s1 as [|c s IH]; intros cur Hs; simpl.
  - now rewrite app_nil_r.
  - inversion Hs as [|? ? Hc Hs']; subst. rewrite Hc, IH by assumption.
    simpl. now rewrite <- app_assoc.
Qed.

Lemma split_colon_free (s : text) : colon_free s -> split_colon s = [s].
Proof. intros Hs. unfold split_colon. now rewrite split_colon_aux_free. Qed.

Lemma split_colon_app (s1 s2 : text) :
  colon_free s1 -> split_colon (s1 ++ ":"%char :: s2) = s1 :: split_colon s2.
Proof. intros Hs. unfold split_colon at 1. now rewrite split_colon_aux_app. Qed.

Lemma split_three (a b c : text) :
  colon_free a -> colon_free b -> colon_free c ->
  split_colon (a ++ ":" ++ b ++ ":" ++ c) = [a; b; c].
Proof.
  intros Ha Hb Hc. cbn [list_ascii_of_string app].
  rewrite split_colon_app, split_colon_app, split_colon_free; auto.
Qed.

Lemma split_colon_aux_length (cur s : text) :
  length (split_colon_aux cur s) = S (count_colons s).
Proof.
  revert cur. unfold count_colons.
  induction s as [|c s IH]; intros cur; simpl; [reflexivity|].
  destruct (Ascii.eqb c ":"); simpl; now rewrite IH.
Qed.

Lemma split_colon_length (s : text) :
  length (split_colon s) = S (count_colons s).
Proof. apply split_colon_aux_length. Qed.

(** ** Base64 *)

Lemma all_below_spec (bound : N) (P : N -> bool) :
  all_below bound P = true -> forall n, (n < bound)%N -> P n = true.
Proof.
  unfold all_below. rewrite forallb_forall. intros Hall n Hn.
  apply Hall. apply in_map_iff. exists (N.to_nat n). split; [lia|].
  apply in_seq. lia.
Qed.

Lemma b64value_char (n : N) : (n < 64)%N -> b64value (b64char n) = Some n.
Proof.
  intros Hn.
  assert (Hall : all_below 64
            (fun n => match b64value (b64char n) with
                      | Some m => (m =? n)%N
                      | None => false
                      end) = true) by (vm_compute; reflexivity).
  pose proof (all_below_spec _ _ Hall n Hn) as Hv. cbv beta in Hv.
  destruct (b64value (b64char n)); [|discriminate].
  apply N.eqb_eq in Hv. now subst.
Qed.

Lemma b64char_not_colon (n : N) : (n < 64)%N -> Ascii.eqb (b64char n) ":" = false.
Proof.
  intros Hn.
  assert (Hall : all_below 64 (fun n => negb (Ascii.eqb (b64char n) ":")) = true)
    by (vm_compute; reflexivity).
  pose proof (all_below_spec _ _ Hall n Hn) as Hv. cbv beta in Hv.
  now apply negb_true_iff in Hv.
Qed.

Lemma b64value_pad : b64value "=" = None.
Proof. reflexivity. Qed.

Ltac sextet_bound :=
  match goal with
  | |- (_ < 64)%N =>
      repeat match goal with
             | c : ascii |- _ =>
                 lazymatch goal with
                 | _ : (code c < 256)%N |- _ => fail
                 | _ => pose proof (code_lt c)
                 end
             end; lia
  end.

Lemma dec3_enc (a b c : ascii) :
  dec3 (code a / 4) ((code a mod 4) * 16 + code b / 16)
       ((code b mod 16) * 4 + code c / 64) (code c mod 64) = [a; b; c].
Proof.
  unfold dec3.
  pose proof (code_lt a). pose proof (code_lt b). pose proof (code_lt c).
  replace (code a / 4 * 4 + (code a mod 4 * 16 + code b / 16) / 16)%N
    with (code a) by lia.
  replace ((code a mod 4 * 16 + code b / 16) mod 16 * 16
           + (code b mod 16 * 4 + code c / 64) / 4)%N with (code b) by lia.
  replace ((code b mod 16 * 4 + code c / 64) mod 4 * 64 + code c mod 64)%N
    with (code c) by lia.
  now rewrite !chr_code.
Qed.

Lemma list_ind3 {A : Type} (P : list A -> Prop) :
  P [] -> (forall a, P [a]) -> (forall a b, P [a; b]) ->
  (forall a b c r, P r -> P (a :: b :: c :: r)) ->
  forall l, P l.
Proof.
  intros H0 H1 H2 H3.
  fix IH 1.
  intros [|a [|b [|c r]]]; [apply H0 | apply H1 | apply H2 | apply H3; apply IH].
Qed.

Lemma b64encode_colon_free (bs : bytes) : colon_free (b64encode bs).
Proof.
  induction bs as [|a|a b|a b c r IH] using list_ind3; unfold colon_free in *.
  - constructor.
  - cbn [b64encode enc1].
    repeat constructor; try reflexivity; apply b64char_not_colon; sextet_bound.
  - cbn [b64encode enc2].
    repeat constructor; try reflexivity; apply b64char_not_colon; sextet_bound.
  - cbn [b64encode enc3 app].
    repeat (constructor; [apply b64char_not_colon; sextet_bound|]). exact IH.
Qed.

Lemma b64decode_strict_encode (bs : bytes) :
  b64decode_strict (b64encode bs) = Some bs.
Proof.
  induction bs as [|a|a b|a b c r IH] using list_ind3.
  - reflexivity.
  - cbn [b64encode enc1 b64decode_strict].
    rewrite !b64value_char by sextet_bound. rewrite b64value_pad.
    pose proof (code_lt a).
    replace ((code a mod 4 * 16) mod 16 =? 0)%N with true
      by (symmetry; apply N.eqb_eq; lia).
    cbn [Ascii.eqb andb Bool.eqb]. simpl.
    replace (code a / 4 * 4 + code a mod 4 * 16 / 16)%N with (code a) by lia.
    now rewrite chr_code.
  - cbn [b64encode enc2 b64decode_strict].
    rewrite !b64value_char by sextet_bound. rewrite b64value_pad.
    pose proof (code_lt a). pose proof (code_lt b).
    replace ((code b mod 16 * 4) mod 4 =? 0)%N with true
      by (symmetry; apply N.eqb_eq; lia).
    simpl.
    replace (code a / 4 * 4 + (code a mod 4 * 16 + code b / 16) / 16)%N
      with (code a) by lia.
    replace ((code a mod 4 * 16 + code b / 16) mod 16 * 16 + code b mod 16 * 4 / 4)%N
      with (code b) by lia.
    now rewrite !chr_code.
  - cbn [b64encode enc3 app b64decode_strict].
    rewrite !b64value_char by sextet_bound.
    rewrite IH, dec3_enc. reflexivity.
Qed.

Lemma b64_sextets_enc3 (a b c : ascii) (rest : text) :
  b64_sextets (enc3 a b c ++ rest) =
  (code a / 4 :: (code a mod 4) * 16 + code b / 16
     :: (code b mod 16) * 4 + code c / 64 :: code c mod 64 :: b64_sextets rest)%N.
Proof.
  cbn [enc3 app b64_sextets]. now rewrite !b64value_char by sextet_bound.
Qed.

Lemma b64decode_lenient_encode (bs : bytes) :
  b64decode_lenient (b64encode bs) = bs.
Proof.
  unfold b64decode_lenient.
  induction bs as [|a|a b|a b c r IH] using list_ind3.
  - reflexivity.
  - cbn [b64encode enc1 b64_sextets].
    rewrite !b64value_char by sextet_bound. rewrite b64value_pad.
    simpl. pose proof (code_lt a).
    replace (code a / 4 * 4 + code a mod 4 * 16 / 16)%N with (code a) by lia.
    now rewrite chr_code.
  - cbn [b64encode enc2 b64_sextets].
    rewrite !b64value_char by sextet_bound. rewrite b64value_pad.
    simpl. pose proof (code_lt a). pose proof (code_lt b).
    replace (code a / 4 * 4 + (code a mod 4 * 16 + code b / 16) / 16)%N
      with (code a) by lia.
    replace ((code a mod 4 * 16 + code b / 16) mod 16 * 16 + code b mod 16 * 4 / 4)%N
      with (code b) by lia.
    now rewrite !chr_code.
  - cbn [b64encode]. rewrite b64_sextets_enc3. cbn [b64_join].
    now rewrite IH, dec3_enc.
Qed.

Lemma b64_write_end (bs : bytes) : b64_write bs ++ b64_end bs = b64encode bs.
Proof.
  unfold b64_write, b64_end, b64_whole.
  induction bs as [|a|a b|a b c r IH] using list_ind3; try reflexivity.
  replace (length (a :: b :: c :: r) / 3 * 3)%nat
    with (S (S (S (length r / 3 * 3)))).
  - cbn [firstn skipn b64encode]. now rewrite <- app_assoc, IH.
  - cbn [length].
    replace (S (S (S (length r)))) with (1 * 3 + length r)%nat by lia.
    rewrite Nat.div_add_l by lia. lia.
Qed.

(** ** Hexadecimal *)

Lemma hexValue_digit (d : N) : (d < 16)%N -> hexValue (hexDigit d) = Some d.
Proof.
  intros Hd.
  assert (Hall : all_below 16
            (fun n => match hexValue (hexDigit n) with
                      | Some m => (m =? n)%N
                      | None => false
                      end) = true) by (vm_compute; reflexivity).
  pose proof (all_below_spec _ _ Hall d Hd) as Hv. cbv beta in Hv.
  destruct (hexValue (hexDigit d)); [|discriminate].
  apply N.eqb_eq in Hv. now subst.
Qed.

Lemma is_hex_digit (d : N) : (d < 16)%N -> is_hex (hexDigit d) = true.
Proof. intros Hd. unfold is_hex. now rewrite hexValue_digit. Qed.

Lemma hexValue_lt (c : ascii) (d : N) : hexValue c = Some d -> (d < 16)%N.
Proof.
  unfold hexValue. cbv zeta. pose proof (code_lt c).
  repeat match goal with
         | |- context [if ?b then _ else _] => destruct b eqn:?
         end; intros [= <-]; lia.
Qed.

Lemma is_hex_plain (c : ascii) :
  is_hex c = true ->
  is_space c = false /\ Ascii.eqb c "-" = false /\ Ascii.eqb c "+" = false.
Proof.
  all_bytes c; intros Hc; try discriminate Hc; repeat split; reflexivity.
Qed.

Lemma hex_of_bytes_length (bs : bytes) :
  length (hex_of_bytes bs) = (2 * length bs)%nat.
Proof.
  induction bs as [|b bs IH]; [reflexivity|].
  cbn [hex_of_bytes flat_map hex_of_byte app length] in *.
  fold (hex_of_bytes bs). rewrite IH. lia.
Qed.

Lemma hex_of_bytes_is_hex (bs : bytes) : Forall (fun c => is_hex c = true) (hex_of_bytes bs).
Proof.
  induction bs as [|b bs IH]; [constructor|].
  pose proof (code_lt b).
  cbn [hex_of_bytes flat_map hex_of_byte app].
  repeat (constructor; [apply is_hex_digit; lia|]). exact IH.
Qed.

Lemma hex_value_aux_app (a : N) (s1 s2 : text) :
  hex_value_aux a (s1 ++ s2) =
  match hex_value_aux a s1 with
  | Some a' => hex_value_aux a' s2
  | None => None
  end.
Proof.
  revert a. induction s1 as [|c s1 IH]; intros a; simpl; [reflexivity|].
  destruct (hexValue c); [apply IH | reflexivity].
Qed.

Lemma hex_value_aux_bytes (a : N) (bs : bytes) :
  hex_value_aux a (hex_of_bytes bs) = Some (N_of_bytes_from a bs).
Proof.
  revert a. induction bs as [|b bs IH]; intros a; [reflexivity|].
  pose proof (code_lt b).
  cbn [hex_of_bytes flat_map hex_of_byte app hex_value_aux].
  rewrite !hexValue_digit by lia. fold (hex_of_bytes bs). rewrite IH.
  unfold N_of_bytes_from. cbn [fold_left]. f_equal. f_equal. lia.
Qed.

Lemma hex_digits_acc (fuel : nat) (n : N) (acc : text) :
  hex_digits fuel n acc = hex_digits fuel n [] ++ acc.
Proof.
  revert n acc. induction fuel as [|f IH]; intros n acc; simpl; [reflexivity|].
  destruct (n =? 0)%N; [reflexivity|].
  rewrite IH. rewrite (IH _ [_]). now rewrite <- app_assoc.
Qed.

Lemma hex_digits_is_hex (fuel : nat) (n : N) (acc : text) :
  Forall (fun c => is_hex c = true) acc ->
  Forall (fun c => is_hex c = true) (hex_digits fuel n acc).
Proof.
  revert n acc. induction fuel as [|f IH]; intros n acc Hacc; simpl; [assumption|].
  destruct (n =? 0)%N; [assumption|].
  apply IH. constructor; [|assumption]. apply is_hex_digit. lia.
Qed.

Lemma hex_digits_value (fuel : nat) (n : N) :
  (n < 2 ^ N.of_nat fuel)%N -> hex_value_aux 0 (hex_digits fuel n []) = Some n.
Proof.
  revert n. induction fuel as [|f IH]; intros n Hn.
  - simpl in *. f_equal. lia.
  - cbn [hex_digits]. destruct (n =? 0)%N eqn:Hz.
    + apply N.eqb_eq in Hz. now subst.
    + rewrite hex_digits_acc, hex_value_aux_app, IH.
      * cbn [hex_value_aux]. rewrite hexValue_digit by lia. f_equal. lia.
      * rewrite Nat2N.inj_succ, N.pow_succ_r' in Hn.
        apply N.Div0.div_lt_upper_bound.
        assert (0 < 2 ^ N.of_nat f)%N by (apply N.neq_0_lt_0, N.pow_nonzero; lia).
        lia.
Qed.

Lemma hex_digits_nonempty (fuel : nat) (n : N) :
  n <> 0%N -> hex_digits (S fuel) n [] <> [].
Proof.
  intros Hn. cbn [hex_digits].
  destruct (n =? 0)%N eqn:Hz; [apply N.eqb_eq in Hz; contradiction|].
  rewrite hex_digits_acc. now destruct (hex_digits fuel (n / 16) []).
Qed.

Lemma pos_lt_size (p : positive) : (Npos p < 2 ^ N.of_nat (Pos.size_nat p))%N.
Proof.
  induction p as [p IH|p IH|]; cbn [Pos.size_nat];
    rewrite ?Nat2N.inj_succ, ?N.pow_succ_r'; lia.
Qed.

Lemma hex_of_pos_value (p : positive) : hex_value (hex_of_pos p) = Some (Npos p).
Proof.
  unfold hex_value, hex_of_pos.
  destruct (hex_digits (Pos.size_nat p) (N.pos p) []) eqn:Hd.
  - exfalso. destruct (Pos.size_nat p) eqn:Hs; [destruct p; discriminate|].
    now apply (hex_digits_nonempty n (Npos p)).
  - rewrite <- Hd. apply hex_digits_value, pos_lt_size.
Qed.

Lemma hex_of_pos_is_hex (p : positive) : Forall (fun c => is_hex c = true) (hex_of_pos p).
Proof. apply hex_digits_is_hex. constructor. Qed.

Lemma skip_space_plain (s : text) :
  Forall (fun c => is_space c = false) s -> skip_space s = s.
Proof. intros [|c r Hc _]; simpl; [reflexivity | now rewrite Hc]. Qed.

Lemma trim_plain (s : text) : Forall (fun c => is_space c = false) s -> trim s = s.
Proof.
  intros Hs. unfold trim. rewrite (skip_space_plain s Hs).
  rewrite skip_space_plain by now apply Forall_rev.
  apply rev_involutive.
Qed.

Lemma hex_no_space (s : text) :
  Forall (fun c => is_hex c = true) s -> Forall (fun c => is_space c = false) s.
Proof. apply Forall_impl. intros c Hc. now apply is_hex_plain. Qed.

(** A non-empty run of hexadecimal digits parses to its value. *)
Lemma parse_radix16_hex (s : text) :
  Forall (fun c => is_hex c = true) s ->
  parse_radix16 s = option_map Z.of_N (hex_value s).
Proof.
  intros Hs. unfold parse_radix16. rewrite trim_plain by now apply hex_no_space.
  destruct s as [|c r]; [reflexivity|].
  inversion Hs as [|? ? Hc _]; subst.
  destruct (is_hex_plain c Hc) as (_ & Hm & Hp). now rewrite Hm, Hp.
Qed.

(** [BigInt.parse(v.toRadixString(16), radix: 16) == v]. *)
Lemma parse_toRadixString16 (v : Z) : parse_radix16 (toRadixString16 v) = Some v.
Proof.
  destruct v as [|p|p]; [reflexivity| |].
  - cbn [toRadixString16]. rewrite parse_radix16_hex by apply hex_of_pos_is_hex.
    now rewrite hex_of_pos_value.
  - cbn [toRadixString16]. unfold parse_radix16.
    rewrite trim_plain.
    + cbn. now rewrite hex_of_pos_value.
    + constructor; [reflexivity|]. apply hex_no_space, hex_of_pos_is_hex.
Qed.

Lemma parse_radix16_bytes (bs : bytes) :
  bs <> [] -> parse_radix16 (hex_of_bytes bs) = Some (Z_of_bytes bs).
Proof.
  intros Hne. rewrite parse_radix16_hex by apply hex_of_bytes_is_hex.
  unfold hex_value. destruct (hex_of_bytes bs) eqn:Hh.
  - destruct bs; [contradiction | discriminate].
  - rewrite <- Hh, hex_value_aux_bytes. reflexivity.
Qed.

Lemma list_ind2 {A : Type} (P : list A -> Prop) :
  P [] -> (forall a, P [a]) -> (forall a b r, P r -> P (a :: b :: r)) ->
  forall l, P l.
Proof.
  intros H0 H1 H2. fix IH 1.
  intros [|a [|b r]]; [apply H0 | apply H1 | apply H2; apply IH].
Qed.

Lemma parse_radix16_pair (a b : ascii) (ha hb : N) :
  hexValue a = Some ha -> hexValue b = Some hb ->
  parse_radix16 [a; b] = Some (Z.of_N (ha * 16 + hb)).
Proof.
  intros Ha Hb. rewrite parse_radix16_hex.
  - cbn. now rewrite Ha, Hb.
  - unfold is_hex. repeat constructor; [now rewrite Ha | now rewrite Hb].
Qed.

Lemma uint8_of_N (n : N) : (n < 256)%N -> uint8_of_Z (Z.of_N n) = chr n.
Proof.
  intros Hn. unfold uint8_of_Z. f_equal. rewrite Z.mod_small by lia. lia.
Qed.

(** An even-length run of hexadecimal digits decodes, pair by pair, to the
    big-endian bytes of its value. *)
Lemma parse_hex_pairs_hex (s : text) :
  Forall (fun c => is_hex c = true) s -> Nat.even (length s) = true ->
  exists bs, parse_hex_pairs s = Ok bs
             /\ (forall a, hex_value_aux a s = Some (N_of_bytes_from a bs))
             /\ length s = (2 * length bs)%nat.
Proof.
  induction s as [|a|a b r IH] using list_ind2; intros Hs Hev.
  - exists []. repeat split.
  - discriminate.
  - inversion Hs as [|? ? Ha Hs1]; subst. inversion Hs1 as [|? ? Hb Hr]; subst.
    destruct (IH Hr Hev) as (bs & Hp & Hv & Hl).
    unfold is_hex in Ha, Hb.
    destruct (hexValue a) as [ha|] eqn:Ea; [|discriminate].
    destruct (hexValue b) as [hb|] eqn:Eb; [|discriminate].
    pose proof (hexValue_lt _ _ Ea). pose proof (hexValue_lt _ _ Eb).
    exists (chr (ha * 16 + hb) :: bs). repeat split.
    + cbn [parse_hex_pairs]. rewrite (parse_radix16_pair _ _ _ _ Ea Eb).
      cbn [of_option bind]. rewrite Hp. cbn [bind].
      now rewrite uint8_of_N by lia.
    + intros acc. cbn [hex_value_aux]. rewrite Ea, Eb, Hv.
      unfold N_of_bytes_from. cbn [fold_left]. rewrite code_chr by lia.
      f_equal. f_equal. lia.
    + cbn [length]. lia.
Qed.

Lemma parse_hex_pairs_bytes (bs : bytes) : parse_hex_pairs (hex_of_bytes bs) = Ok bs.
Proof.
  induction bs as [|b bs IH]; [reflexivity|].
  pose proof (code_lt b).
  cbn [hex_of_bytes flat_map hex_of_byte app parse_hex_pairs].
  rewrite (parse_radix16_pair _ _ (code b / 16) (code b mod 16))
    by (apply hexValue_digit; lia).
  fold (hex_of_bytes bs). rewrite IH. cbn [of_option bind].
  rewrite uint8_of_N by lia.
  replace (code b / 16 * 16 + code b mod 16)%N with (code b) by lia.
  now rewrite chr_code.
Qed.

Lemma node_hex_decode_bytes (bs : bytes) : node_hex_decode (hex_of_bytes bs) = bs.
Proof.
  induction bs as [|b bs IH]; [reflexivity|].
  pose proof (code_lt b).
  cbn [hex_of_bytes flat_map hex_of_byte app node_hex_decode].
  rewrite !hexValue_digit by lia. fold (hex_of_bytes bs). rewrite IH.
  replace (16 * (code b / 16) + code b mod 16)%N with (code b) by lia.
  now rewrite chr_code.
Qed.

Lemma Forall_take {A : Type} (P : A -> Prop) (n : nat) (l : list A) :
  Forall P l -> Forall P (firstn n l).
Proof.
  intros Hl. revert n. induction Hl as [|a l Ha _ IH]; intros [|n]; simpl;
    constructor; auto.
Qed.

(** ** AES-256-GCM *)

Lemma xor_byte_involutive (a k : ascii) : xor_byte (xor_byte a k) k = a.
Proof.
  destruct a, k. cbn. f_equal;
    match goal with |- xorb (xorb ?x ?y) ?y = ?x => now destruct x, y end.
Qed.

Lemma xor_stream_involutive (ks : nat -> ascii) (i : nat) (d : bytes) :
  xor_stream ks i (xor_stream ks i d) = d.
Proof.
  revert i. induction d as [|b d IH]; intros i; simpl; [reflexivity|].
  now rewrite xor_byte_involutive, IH.
Qed.

Lemma xor_stream_length (ks : nat -> ascii) (i : nat) (d : bytes) :
  length (xor_stream ks i d) = length d.
Proof. revert i. induction d as [|b d IH]; intros i; simpl; auto. Qed.

Lemma randomBytes_length (r : rng) (from n : nat) : length (randomBytes r from n) = n.
Proof. unfold randomBytes. now rewrite length_map, length_seq. Qed.

Section GCMFacts.
Context `{Crypto}.

Lemma gcm_ctr_involutive (key iv d : bytes) : gcm_ctr key iv (gcm_ctr key iv d) = d.
Proof. apply xor_stream_involutive. Qed.

Lemma gcm_ctr_length (key iv d : bytes) : length (gcm_ctr key iv d) = length d.
Proof. apply xor_stream_length. Qed.

Lemma gcm_init_ok (key iv : bytes) :
  length key = 32%nat -> iv <> [] -> gcm_init key iv = Ok tt.
Proof.
  intros Hk Hiv. unfold gcm_init. rewrite Hk. simpl.
  destruct iv; [contradiction | reflexivity].
Qed.

Lemma deriveKey_length (m : bytes) : length (deriveKey m) = 32%nat.
Proof.
  unfold deriveKey. rewrite length_firstn, hex_of_bytes_length, sha512_length.
  reflexivity.
Qed.

Lemma deriveKey_is_hex (m : bytes) : Forall (fun c => is_hex c = true) (deriveKey m).
Proof. apply Forall_take, hex_of_bytes_is_hex. Qed.

Lemma js_substring_key (m : bytes) :
  js_substring0 32 (hex_of_bytes (sha512 m)) = deriveKey m.
Proof. reflexivity. Qed.

Lemma dart_substring_key (m : bytes) :
  dart_substring0 32 (hex_of_bytes (sha512 m)) = Ok (deriveKey m).
Proof.
  unfold dart_substring0. now rewrite hex_of_bytes_length, sha512_length.
Qed.

Lemma iv_nonempty (r : rng) : randomBytes r 0 16 <> [].
Proof. discriminate. Qed.

Lemma gcm_encrypt_ok (key iv pt : bytes) :
  length key = 32%nat -> iv <> [] ->
  gcm_encrypt key iv pt
  = Ok (gcm_ctr key iv pt, gcm_mac key iv (gcm_ctr key iv pt)).
Proof. intros Hk Hiv. unfold gcm_encrypt. now rewrite gcm_init_ok. Qed.

Lemma node_gcm_decrypt_ok (key iv ct : bytes) :
  length key = 32%nat -> iv <> [] ->
  node_gcm_decrypt key iv (gcm_mac key iv ct) ct = Ok (gcm_ctr key iv ct).
Proof.
  intros Hk Hiv. unfold node_gcm_decrypt. rewrite gcm_init_ok by assumption.
  cbn [bind]. rewrite gcm_mac_length. cbn [node_tag_length_ok Nat.eqb Nat.leb orb andb negb].
  rewrite <- (gcm_mac_length key iv ct) at 1. rewrite firstn_all.
  now rewrite bytes_eqb_refl.
Qed.

Lemma node_gcm_decrypt_bad_tag (key iv tag ct : bytes) :
  length key = 32%nat -> iv <> [] -> length tag = 16%nat ->
  tag <> gcm_mac key iv ct ->
  node_gcm_decrypt key iv tag ct = Err AuthenticationError.
Proof.
  intros Hk Hiv Hl Hne. unfold node_gcm_decrypt.
  rewrite gcm_init_ok by assumption. cbn [bind]. rewrite Hl.
  cbn [node_tag_length_ok Nat.eqb Nat.leb orb andb negb].
  rewrite <- (gcm_mac_length key iv ct) at 1. rewrite firstn_all.
  now rewrite bytes_eqb_neq.
Qed.

Lemma pc_split (ct tag : bytes) :
  length tag = 16%nat ->
  firstn (length (ct ++ tag) - 16) (ct ++ tag) = ct
  /\ skipn (length (ct ++ tag) - 16) (ct ++ tag) = tag.
Proof.
  intros Hl. rewrite length_app, Hl.
  replace (length ct + 16 - 16)%nat with (length ct) by lia.
  split.
  - rewrite firstn_app, Nat.sub_diag, firstn_all. cbn. apply app_nil_r.
  - rewrite skipn_app, Nat.sub_diag, skipn_all. reflexivity.
Qed.

Lemma pc_gcm_process_decrypt_ok (key iv ct : bytes) :
  length key = 32%nat -> iv <> [] ->
  pc_gcm_process_decrypt key iv (ct ++ gcm_mac key iv ct) = Ok (gcm_ctr key iv ct).
Proof.
  intros Hk Hiv. unfold pc_gcm_process_decrypt.
  rewrite gcm_init_ok by assumption. cbn [bind].
  destruct (pc_split ct (gcm_mac key iv ct) (gcm_mac_length _ _ _)) as [Hf Hs].
  rewrite Hf, Hs, bytes_eqb_refl.
  rewrite length_app, gcm_mac_length.
  destruct (length ct + 16 <? 16)%nat eqn:Hlt; [apply Nat.ltb_lt in Hlt; lia|].
  reflexivity.
Qed.

Lemma pc_gcm_process_decrypt_bad_tag (key iv ct tag : bytes) :
  length key = 32%nat -> iv <> [] -> length tag = 16%nat ->
  tag <> gcm_mac key iv ct ->
  pc_gcm_process_decrypt key iv (ct ++ tag) = Err AuthenticationError.
Proof.
  intros Hk Hiv Hl Hne. unfold pc_gcm_process_decrypt.
  rewrite gcm_init_ok by assumption. cbn [bind].
  destruct (pc_split ct tag Hl) as [Hf Hs].
  rewrite Hf, Hs, bytes_eqb_neq by assumption.
  rewrite length_app, Hl.
  destruct (length ct + 16 <? 16)%nat eqn:Hlt; [apply Nat.ltb_lt in Hlt; lia|].
  reflexivity.
Qed.

End GCMFacts.

(** ** JSON *)

Lemma json_string_body_escape (c : ascii) (tail : text) :
  json_string_body (json_escape c ++ tail) = prepend [c] (json_string_body tail).
Proof. all_bytes c; reflexivity. Qed.

Lemma json_string_body_encoded (s rest : text) :
  json_string_body (flat_map json_escape s ++ dquote :: rest) = Some (s, rest).
Proof.
  induction s as [|c s IH]; [reflexivity|].
  cbn [flat_map]. rewrite <- app_assoc, json_string_body_escape, IH. reflexivity.
Qed.

(** Parsing the JSON text of a string gives the string back. *)
Lemma jsonDecode_jsonEncode (s : text) : jsonDecode (jsonEncode s) = Ok (JString s).
Proof.
  unfold jsonDecode, jsonEncode.
  replace (2 * length (dquote :: flat_map json_escape s ++ [dquote]) + 2)%nat
    with (S (2 * length (dquote :: flat_map json_escape s ++ [dquote]) + 1)) by lia.
  cbn [parse_value]. change (skip_ws (dquote :: ?t)) with (dquote :: t).
  change (code dquote =? 34)%N with true. cbv iota.
  now rewrite json_string_body_encoded.
Qed.

Lemma jsonEncode_length (s : text) : (2 <= length (jsonEncode s))%nat.
Proof. unfold jsonEncode. cbn [length]. rewrite length_app. cbn [length]. lia. Qed.

(** ** Modular exponentiation *)

Lemma modpow_pos_spec (b : Z) (e : positive) (m : Z) :
  modpow_pos b e m = (b ^ Zpos e mod m)%Z.
Proof.
  induction e as [e IH|e IH|]; cbn [modpow_pos].
  - rewrite IH, Pos2Z.inj_xI, Z.pow_add_r, Z.pow_twice_r, Z.pow_1_r by lia.
    rewrite <- Zdiv.Zmult_mod. now rewrite Zdiv.Zmult_mod_idemp_l.
  - rewrite IH, Pos2Z.inj_xO, Z.pow_twice_r. now rewrite <- Zdiv.Zmult_mod.
  - now rewrite Z.pow_1_r.
Qed.

Lemma modPow_spec (b e m : Z) :
  (0 <= e)%Z -> (0 < m)%Z -> modPow b e m = Ok (b ^ e mod m)%Z.
Proof.
  intros He Hm. unfold modPow.
  destruct (m <=? 0)%Z eqn:Hle; [lia|].
  destruct e as [|p|p]; [reflexivity| |lia].
  now rewrite modpow_pos_spec.
Qed.

(** The Diffie-Hellman identity. *)
Lemma dh_agreement (g x y p : Z) :
  (0 <= x)%Z -> (0 <= y)%Z ->
  ((g ^ y mod p) ^ x mod p = (g ^ x mod p) ^ y mod p)%Z.
Proof.
  intros Hx Hy. rewrite !Z.mod_pow_l, <- !Z.pow_mul_r by assumption.
  f_equal. f_equal. lia.
Qed.

Lemma prime_parses : parse_radix16 PRIME_2048 = Some prime.
Proof. vm_compute. reflexivity. Qed.

Lemma prime_positive : (2 ^ 2047 < prime)%Z.
Proof. vm_compute. reflexivity. Qed.

Lemma node_prime : Backend.dh_prime = prime.
Proof. vm_compute. reflexivity. Qed.

(** ** Flipping a bit *)

Lemma flip_in_byte_neq (j : nat) (b : ascii) : (j < 8)%nat -> flip_in_byte j b <> b.
Proof.
  intros Hj.
  do 8 (destruct j as [|j]; [destruct b as [[] [] [] [] [] [] [] []]; discriminate|]).
  lia.
Qed.

Lemma flip_bit_length (i : nat) (bs : bytes) : length (flip_bit i bs) = length bs.
Proof.
  revert i. induction bs as [|b r IH]; intros i; simpl; [reflexivity|].
  destruct (i <? 8)%nat; simpl; auto.
Qed.

Lemma flip_bit_neq (i : nat) (bs : bytes) :
  (i < 8 * length bs)%nat -> flip_bit i bs <> bs.
Proof.
  revert i. induction bs as [|b r IH]; intros i Hi; simpl in *; [lia|].
  destruct (i <? 8)%nat eqn:Hlt.
  - apply Nat.ltb_lt in Hlt. intros [= Hb]. now apply (flip_in_byte_neq i b).
  - apply Nat.ltb_ge in Hlt. intros [= Hr]. apply (IH (i - 8)%nat); [lia | assumption].
Qed.

(** * The cipher operations *)

Lemma js_length_app (s t : text) : js_length (s ++ t) = (js_length s + js_length t)%nat.
Proof.
  unfold js_length. now rewrite map_app, list_sum_app.
Qed.

Lemma utf16_units_hex (c : ascii) : is_hex c = true -> utf16_units c = 1%nat.
Proof. all_bytes c; intros Hc; try discriminate Hc; reflexivity. Qed.

(** A run of hexadecimal digits has as many code units as bytes. *)
Lemma js_length_hex (s : text) :
  Forall (fun c => is_hex c = true) s -> js_length s = length s.
Proof.
  induction 1 as [|c s Hc _ IH]; [reflexivity|].
  change (c :: s) with ([c] ++ s). rewrite js_length_app, IH.
  unfold js_length. cbn [map list_sum app length].
  now rewrite (utf16_units_hex c Hc).
Qed.

Lemma js_length_hex_of_bytes (bs : bytes) :
  js_length (hex_of_bytes bs) = (2 * length bs)%nat.
Proof.
  rewrite js_length_hex by apply hex_of_bytes_is_hex. apply hex_of_bytes_length.
Qed.

Lemma hash_update_hex_even (s : text) :
  Nat.even (js_length s) = true -> hash_update_hex s = Ok (node_hex_decode s).
Proof.
  intros He. unfold hash_update_hex. now rewrite <- Nat.negb_even, He.
Qed.

Lemma hash_update_hex_odd (s : text) :
  Nat.odd (js_length s) = true -> hash_update_hex s = Err EncodingError.
Proof. intros Ho. unfold hash_update_hex. now rewrite Ho. Qed.

(** The hexadecimal text of a byte string is taken whole. *)
Lemma hash_update_hex_bytes (bs : bytes) : hash_update_hex (hex_of_bytes bs) = Ok bs.
Proof.
  rewrite hash_update_hex_even, node_hex_decode_bytes; [reflexivity|].
  rewrite js_length_hex_of_bytes, Nat.even_mul. reflexivity.
Qed.

Section Operations.
Context `{Crypto}.

Lemma wire_split (ct iv tag : bytes) :
  split_colon (wire ct iv tag) = [b64encode ct; b64encode iv; b64encode tag].
Proof. apply split_three; apply b64encode_colon_free. Qed.

Lemma wire_colons (ct iv tag : bytes) : count_colons (wire ct iv tag) = 2%nat.
Proof.
  pose proof (split_colon_length (wire ct iv tag)) as Hl.
  rewrite wire_split in Hl. cbn [length] in Hl. lia.
Qed.

Lemma sublist_front (ct tag : bytes) :
  length tag = 16%nat ->
  Frontend.sublist 0 (Z.of_nat (length (ct ++ tag)) - 16) (ct ++ tag) = Ok ct.
Proof.
  intros Hl. unfold Frontend.sublist. rewrite length_app, Hl.
  replace (Z.of_nat (length ct + 16) - 16)%Z with (Z.of_nat (length ct)) by lia.
  replace ((0 <=? 0) && (0 <=? Z.of_nat (length ct))
           && (Z.of_nat (length ct) <=? Z.of_nat (length ct + 16)))%Z
    with true by lia.
  rewrite Nat2Z.id. cbn [Z.to_nat skipn]. rewrite Nat.sub_0_r.
  rewrite firstn_app, Nat.sub_diag, firstn_all. cbn. now rewrite app_nil_r.
Qed.

Lemma sublist_back (ct tag : bytes) :
  length tag = 16%nat ->
  Frontend.sublist (Z.of_nat (length (ct ++ tag)) - 16)
    (Z.of_nat (length (ct ++ tag))) (ct ++ tag) = Ok tag.
Proof.
  intros Hl. unfold Frontend.sublist. rewrite length_app, Hl.
  replace (Z.of_nat (length ct + 16) - 16)%Z with (Z.of_nat (length ct)) by lia.
  replace ((0 <=? Z.of_nat (length ct))
           && (Z.of_nat (length ct) <=? Z.of_nat (length ct + 16))
           && (Z.of_nat (length ct + 16) <=? Z.of_nat (length ct + 16)))%Z
    with true by lia.
  rewrite !Nat2Z.id.
  replace (length ct + 16 - length ct)%nat with 16%nat by lia.
  rewrite skipn_app, Nat.sub_diag, skipn_all. cbn [skipn app].
  rewrite <- Hl. now rewrite firstn_all.
Qed.

(** What the two sealing procedures return. *)
Lemma node_seal_ok (key : bytes) (r : rng) (pt : text) :
  length key = 32%nat ->
  let iv := randomBytes r 0 16 in
  let ct := gcm_ctr key iv pt in
  node_seal key r pt = Ok (wire ct iv (gcm_mac key iv ct)).
Proof.
  intros Hk. unfold node_seal. cbv zeta.
  now rewrite gcm_encrypt_ok by (assumption || discriminate).
Qed.

Lemma dart_seal_ok (key : bytes) (r : rng) (pt : text) :
  length key = 32%nat ->
  let iv := randomBytes r 0 16 in
  let ct := gcm_ctr key iv (jsonEncode pt) in
  dart_seal key r pt = Ok (wire ct iv (gcm_mac key iv ct)).
Proof.
  intros Hk. unfold dart_seal. cbv zeta.
  now rewrite gcm_encrypt_ok by (assumption || discriminate).
Qed.

(** Opening a well-formed CipherText whose tag is the right one. *)
Lemma node_open_wire (key ct iv : bytes) :
  length key = 32%nat -> iv <> [] ->
  node_open key (wire ct iv (gcm_mac key iv ct)) = jsonDecode (gcm_ctr key iv ct).
Proof.
  intros Hk Hiv. unfold node_open. rewrite wire_split.
  rewrite !b64decode_lenient_encode, node_gcm_decrypt_ok by assumption.
  reflexivity.
Qed.

Lemma dart_open_wire (key ct iv : bytes) :
  length key = 32%nat -> iv <> [] ->
  dart_open key (wire ct iv (gcm_mac key iv ct)) = jsonDecode (gcm_ctr key iv ct).
Proof.
  intros Hk Hiv. unfold dart_open. rewrite wire_split.
  rewrite !b64decode_strict_encode. cbn [of_option bind].
  now rewrite pc_gcm_process_decrypt_ok by assumption.
Qed.

(** Opening a well-formed CipherText whose 16-byte tag is a wrong one. *)
Lemma node_open_bad_tag (key ct iv tag : bytes) :
  length key = 32%nat -> iv <> [] -> length tag = 16%nat ->
  tag <> gcm_mac key iv ct ->
  node_open key (wire ct iv tag) = Err AuthenticationError.
Proof.
  intros Hk Hiv Hl Hne. unfold node_open. rewrite wire_split.
  rewrite !b64decode_lenient_encode, node_gcm_decrypt_bad_tag by assumption.
  reflexivity.
Qed.

Lemma dart_open_bad_tag (key ct iv tag : bytes) :
  length key = 32%nat -> iv <> [] -> length tag = 16%nat ->
  tag <> gcm_mac key iv ct ->
  dart_open key (wire ct iv tag) = Err AuthenticationError.
Proof.
  intros Hk Hiv Hl Hne. unfold dart_open. rewrite wire_split.
  rewrite !b64decode_strict_encode. cbn [of_option bind].
  now rewrite pc_gcm_process_decrypt_bad_tag by assumption.
Qed.

Lemma open_not_three (key : bytes) (c : text) :
  length (split_colon c) <> 3%nat ->
  node_open key c = Err FormatError /\ dart_open key c = Err FormatError.
Proof.
  intros Hn. unfold node_open, dart_open.
  destruct (split_colon c) as [|s0 [|s1 [|s2 [|s3 l]]]]; cbn [length] in Hn;
    try (split; reflexivity).
  contradiction.
Qed.

(** Each operation of the source is the sealing or opening procedure under
    the key derived from its secret material. *)
Lemma backend_encrypt_seal (r : rng) (input : EncryptionInput) :
  Backend.encrypt r input
  = node_seal (deriveKey (password input)) r (plainText input).
Proof.
  unfold Backend.encrypt, node_seal. cbv zeta. rewrite js_substring_key.
  destruct (gcm_encrypt _ _ _) as [[ct tag]|e]; [|reflexivity].
  cbn [bind]. now rewrite b64_write_end.
Qed.

Lemma backend_dhEncrypt_seal (r : rng) (input : DHEncryptionInput) :
  Backend.dhEncrypt r input
  = (do m <- hash_update_hex (sharedSecret input);
     node_seal (deriveKey m) r (dh_plainText input)).
Proof.
  unfold Backend.dhEncrypt, node_seal. cbv zeta.
  destruct (hash_update_hex _) as [m|e]; [|reflexivity].
  cbn [bind]. rewrite js_substring_key.
  destruct (gcm_encrypt _ _ _) as [[ct tag]|e]; [|reflexivity].
  cbn [bind]. now rewrite b64_write_end.
Qed.

Lemma backend_decrypt_open (input : DecryptionInput) :
  Backend.decrypt input
  = node_open (deriveKey (dec_password input)) (encryptedText input).
Proof.
  unfold Backend.decrypt, node_open. cbv zeta. rewrite js_substring_key.
  destruct (split_colon _) as [|s0 [|s1 [|s2 [|s3 l]]]]; reflexivity.
Qed.

Lemma backend_dhDecrypt_open (input : DHDecryptionInput) (m : bytes) :
  hash_update_hex (dh_sharedSecret input) = Ok m ->
  Backend.dhDecrypt input = node_open (deriveKey m) (dh_encryptedText input).
Proof.
  intros Hm. unfold Backend.dhDecrypt, node_open. cbv zeta. rewrite Hm.
  cbn [bind]. rewrite js_substring_key.
  destruct (split_colon _) as [|s0 [|s1 [|s2 [|s3 l]]]]; reflexivity.
Qed.

(** The part count is tested before the secret is looked at. *)
Lemma backend_dhDecrypt_not_three (input : DHDecryptionInput) :
  length (split_colon (dh_encryptedText input)) <> 3%nat ->
  Backend.dhDecrypt input = Err FormatError.
Proof.
  intros Hn. unfold Backend.dhDecrypt. cbv zeta.
  destruct (length (split_colon _) =? 3)%nat eqn:E; [|reflexivity].
  apply Nat.eqb_eq in E. contradiction.
Qed.

Lemma dart_seal_body (key : bytes) (r : rng) (pt : text) :
  (do encryptedBytes <- pc_gcm_process_encrypt key (randomBytes r 0 16) (jsonEncode pt);
   do encryptedData <-
     Frontend.sublist 0 (Z.of_nat (length encryptedBytes) - 16) encryptedBytes;
   do authTag <-
     Frontend.sublist (Z.of_nat (length encryptedBytes) - 16)
       (Z.of_nat (length encryptedBytes)) encryptedBytes;
   Ok (b64encode encryptedData ++ ":" ++ b64encode (randomBytes r 0 16) ++ ":"
         ++ b64encode authTag))
  = dart_seal key r pt.
Proof.
  unfold dart_seal, pc_gcm_process_encrypt. cbv zeta.
  destruct (gcm_encrypt key (randomBytes r 0 16) (jsonEncode pt)) as [[ct tag]|e] eqn:He;
    [|reflexivity].
  cbn [bind].
  assert (Hl : length tag = 16%nat).
  { unfold gcm_encrypt in He. destruct (gcm_init _ _); [|discriminate].
    cbn [bind] in He. injection He as <- <-. apply gcm_mac_length. }
  now rewrite sublist_front, sublist_back by assumption.
Qed.

Lemma frontend_encrypt_seal (r : rng) (input : EncryptionInput) :
  Frontend.encrypt r input
  = dart_seal (deriveKey (password input)) r (plainText input).
Proof.
  unfold Frontend.encrypt. cbv zeta. rewrite dart_substring_key. cbn [bind].
  apply dart_seal_body.
Qed.

Lemma frontend_dhEncrypt_seal (r : rng) (input : DHEncryptionInput) :
  Frontend.dhEncrypt r input
  = (do m <- Frontend._hexToBytes (sharedSecret input);
     dart_seal (deriveKey m) r (dh_plainText input)).
Proof.
  unfold Frontend.dhEncrypt. cbv zeta.
  destruct (Frontend._hexToBytes _) as [m|e]; [|reflexivity].
  cbn [bind]. rewrite dart_substring_key. cbn [bind]. apply dart_seal_body.
Qed.

Lemma frontend_decrypt_open (input : DecryptionInput) :
  Frontend.decrypt input
  = dart_open (deriveKey (dec_password input)) (encryptedText input).
Proof.
  unfold Frontend.decrypt, dart_open. cbv zeta.
  destruct (split_colon _) as [|s0 [|s1 [|s2 [|s3 l]]]]; try reflexivity.
  cbn [length Nat.eqb negb nth].
  destruct (b64decode_strict s0); [|reflexivity].
  destruct (b64decode_strict s1); [|reflexivity].
  destruct (b64decode_strict s2); [|reflexivity].
  cbn [of_option bind]. now rewrite dart_substring_key.
Qed.

Lemma frontend_dhDecrypt_open (input : DHDecryptionInput) (m : bytes) :
  Frontend._hexToBytes (dh_sharedSecret input) = Ok m ->
  Frontend.dhDecrypt input = dart_open (deriveKey m) (dh_encryptedText input).
Proof.
  intros Hm. unfold Frontend.dhDecrypt, dart_open. cbv zeta.
  destruct (split_colon _) as [|s0 [|s1 [|s2 [|s3 l]]]]; try reflexivity.
  cbn [length Nat.eqb negb nth].
  destruct (b64decode_strict s0); [|reflexivity].
  destruct (b64decode_strict s1); [|reflexivity].
  destruct (b64decode_strict s2); [|reflexivity].
  cbn [of_option bind]. rewrite Hm. cbn [bind]. now rewrite dart_substring_key.
Qed.
End Operations.

(** * Properties of the cipher *)

Lemma b64encode_nil_iff (bs : bytes) : b64encode bs = [] <-> bs = [].
Proof.
  split; [|now intros ->].
  destruct bs as [|a [|b [|c r]]]; [reflexivity|discriminate..].
Qed.

Lemma length_zero_iff {A : Type} (l : list A) : length l = 0%nat <-> l = [].
Proof. destruct l; split; (reflexivity || discriminate). Qed.




Section CipherProperties.
Context `{Crypto}.

Lemma tamper_tag_wire (i : nat) (ct iv tag : bytes) :
  tamper_tag i (wire ct iv tag) = wire ct iv (flip_bit i tag).
Proof.
  unfold tamper_tag. rewrite wire_split, b64decode_lenient_encode. reflexivity.
Qed.

Lemma gcm_ctr_nil_iff (key iv pt : bytes) : gcm_ctr key iv pt = [] <-> pt = [].
Proof.
  split; intros Hn.
  - apply length_zero_iff. rewrite <- (gcm_ctr_length key iv pt), Hn. reflexivity.
  - now subst.
Qed.



(** C10: for every text whose split on ':' does not yield exactly three
    parts, each of the four decryption functions (decrypt and dhDecrypt, of
    the backend and of the frontend) raises FormatError; an error is the
    whole result, so nothing of the plaintext is returned. *)
Theorem C10_wrong_part_count_is_format_error (c W S : text) :
  length (split_colon c) <> 3%nat ->
  Backend.decrypt {| encryptedText := c; dec_password := W |} = Err FormatError
  /\ Backend.dhDecrypt {| dh_encryptedText := c; dh_sharedSecret := S |}
     = Err FormatError
  /\ Frontend.decrypt {| encryptedText := c; dec_password := W |} = Err FormatError
  /\ Frontend.dhDecrypt {| dh_encryptedText := c; dh_sharedSecret := S |}
     = Err FormatError.
Proof.
  intros Hn. repeat split.
  - rewrite backend_decrypt_open. now apply open_not_three.
  - now apply backend_dhDecrypt_not_three.
  - rewrite frontend_decrypt_open. now apply open_not_three.
  - unfold Frontend.dhDecrypt. cbv zeta.
    destruct (length (split_colon _) =? 3)%nat eqn:E; [|reflexivity].
    apply Nat.eqb_eq in E. contradiction.
Qed.


(** C1, as amended: in the frontend, decrypting what encrypt returned gives
    the plaintext back, for every plaintext, password and IV drawn. In the
    backend encrypt does not serialise, so decrypt returns [JSON.parse] of
    the plaintext: the value [v] when the caller passed [JSON.stringify(v)],
    as the backend's tests and README do. *)
Theorem C1_round_trip (r : rng) (P W : text) :
  (exists c,
      Frontend.encrypt r {| plainText := P; password := W |} = Ok c
      /\ Frontend.decrypt {| encryptedText := c; dec_password := W |}
         = Ok (JString P))
  /\ (exists c,
      Backend.encrypt r {| plainText := P; password := W |} = Ok c
      /\ Backend.decrypt {| encryptedText := c; dec_password := W |}
         = jsonDecode P)
  /\ (exists c,
      Backend.encrypt r {| plainText := jsonEncode P; password := W |} = Ok c
      /\ Backend.decrypt {| encryptedText := c; dec_password := W |}
         = Ok (JString P)).
Proof.
  pose proof (deriveKey_length W) as Hk.
  pose proof (iv_nonempty r) as Hiv.
  repeat split.
  - eexists. split.
    + rewrite frontend_encrypt_seal. apply dart_seal_ok, Hk.
    + rewrite frontend_decrypt_open. cbn [encryptedText dec_password].
      rewrite dart_open_wire by assumption.
      now rewrite gcm_ctr_involutive, jsonDecode_jsonEncode.
  - eexists. split.
    + rewrite backend_encrypt_seal. apply node_seal_ok, Hk.
    + rewrite backend_decrypt_open. cbn [encryptedText dec_password].
      rewrite node_open_wire by assumption.
      now rewrite gcm_ctr_involutive.
  - eexists. split.
    + rewrite backend_encrypt_seal. apply node_seal_ok, Hk.
    + rewrite backend_decrypt_open. cbn [encryptedText dec_password].
      rewrite node_open_wire by assumption. cbn [plainText password].
      now rewrite gcm_ctr_involutive, jsonDecode_jsonEncode.
Qed.

(** C6, as amended: the frontend's encrypt encrypts the JSON text of the
    plaintext, which parses back to the plaintext; the backend's encrypt
    encrypts the bytes of the plaintext as they are, so the encrypted stream
    is JSON only when the caller serialised it; decrypt, in both, parses the
    text it decrypted as JSON before it returns: on the authentic encryption
    of a text [T] (well-formed UTF-8 without a byte-order mark) under any
    IV it returns [jsonDecode T]. *)
Theorem C6_what_is_encrypted (r : rng) (P W : text) (b : ascii) (iv' : bytes) (T : text) :
  let key := deriveKey W in
  let iv := randomBytes r 0 16 in
  let ct' := gcm_ctr key (b :: iv') T in
  utf8_valid T = true -> has_bom T = false ->
  Frontend.encrypt r {| plainText := P; password := W |}
    = Ok (wire (gcm_ctr key iv (jsonEncode P)) iv
            (gcm_mac key iv (gcm_ctr key iv (jsonEncode P))))
  /\ jsonDecode (jsonEncode P) = Ok (JString P)
  /\ Backend.encrypt r {| plainText := P; password := W |}
    = Ok (wire (gcm_ctr key iv P) iv (gcm_mac key iv (gcm_ctr key iv P)))
  /\ Frontend.decrypt
       {| encryptedText := wire ct' (b :: iv') (gcm_mac key (b :: iv') ct');
          dec_password := W |}
    = jsonDecode T
  /\ Backend.decrypt
       {| encryptedText := wire ct' (b :: iv') (gcm_mac key (b :: iv') ct');
          dec_password := W |}
    = jsonDecode T.
Proof.
  cbv zeta. intros _ _. pose proof (deriveKey_length W) as Hk. repeat split.
  - rewrite frontend_encrypt_seal. apply dart_seal_ok, Hk.
  - apply jsonDecode_jsonEncode.
  - rewrite backend_encrypt_seal. apply node_seal_ok, Hk.
  - rewrite frontend_decrypt_open. cbn [encryptedText dec_password].
    rewrite dart_open_wire by (assumption || discriminate).
    now rewrite gcm_ctr_involutive.
  - rewrite backend_decrypt_open. cbn [encryptedText dec_password].
    rewrite node_open_wire by (assumption || discriminate).
    now rewrite gcm_ctr_involutive.
Qed.
End CipherProperties.

Lemma cons_eq_head {A : Type} (a b : A) (l l' : list A) :
  a :: l = b :: l' -> a = b.
Proof. now intros [= -> _]. Qed.

Lemma flip_bit_app (s t : bytes) (k : nat) :
  flip_bit (8 * length s + k) (s ++ t) = s ++ flip_bit k t.
Proof.
  induction s as [|a s IH]; [reflexivity|].
  cbn [length app flip_bit].
  replace (8 * S (length s) + k <? 8)%nat with false
    by (symmetry; apply Nat.ltb_ge; lia).
  replace (8 * S (length s) + k - 8)%nat with (8 * length s + k)%nat by lia.
  now rewrite IH.
Qed.

(** One of the low seven bits of ['='] flipped: neither [':'] nor ['=']. *)
Lemma flipped_pad (k : nat) :
  (k < 7)%nat ->
  Ascii.eqb (flip_in_byte k "=") ":" = false
  /\ Ascii.eqb (flip_in_byte k "=") "=" = false.
Proof.
  intros Hk. do 7 (destruct k as [|k]; [split; vm_compute; reflexivity|]). lia.
Qed.

(** What follows the first ['='] does not reach the lenient decoder. *)
Lemma b64_sextets_after_pad (s rest rest' : text) :
  b64_sextets (s ++ "="%char :: rest) = b64_sextets (s ++ "="%char :: rest').
Proof.
  induction s as [|a s IH]; cbn [app b64_sextets].
  - now rewrite b64value_pad.
  - destruct (b64value a); [now rewrite IH|].
    destruct (Ascii.eqb a "="); [reflexivity | exact IH].
Qed.

(** The text of 3n + 1 bytes ends with two padding characters, and the strict
    decoder refuses it once the second is another character. *)
Lemma b64encode_pad2 (bs : bytes) :
  (length bs mod 3 = 1)%nat ->
  exists s, b64encode bs = s ++ ["="%char; "="%char]
            /\ length s = (4 * (length bs / 3) + 2)%nat
            /\ (forall x, Ascii.eqb x "=" = false ->
                          b64decode_strict (s ++ ["="%char; x]) = None).
Proof.
  induction bs as [|a|a b|a b c r IH] using list_ind3; intros Hl.
  - discriminate Hl.
  - eexists [_; _]. split; [reflexivity|]. split; [reflexivity|].
    intros x Hx. pose proof (code_lt a).
    cbn [app b64decode_strict].
    rewrite !b64value_char by sextet_bound. rewrite b64value_pad.
    destruct (b64value x); [reflexivity|]. rewrite Hx.
    now rewrite andb_false_r.
  - discriminate Hl.
  - cbn [length] in Hl.
    replace (S (S (S (length r)))) with (length r + 1 * 3)%nat in Hl by lia.
    rewrite Nat.Div0.mod_add in Hl.
    destruct (IH Hl) as (s & Hs & Hls & Hbad).
    exists (enc3 a b c ++ s). split; [|split].
    + cbn [b64encode]. now rewrite Hs, app_assoc.
    + rewrite length_app, Hls. cbn [length enc3].
      replace (S (S (S (length r)))) with (1 * 3 + length r)%nat by lia.
      rewrite Nat.div_add_l by discriminate. lia.
    + intros x Hx. pose proof (code_lt a). pose proof (code_lt b).
      pose proof (code_lt c).
      rewrite <- app_assoc. cbn [enc3 app b64decode_strict].
      rewrite !b64value_char by sextet_bound.
      fold (app s ["="%char; x]). now rewrite (Hbad x Hx).
Qed.

Section CipherShape.
Context `{Crypto}.

Lemma wire_is_ciphertext (ct iv tag : bytes) :
  length iv = 16%nat -> length tag = 16%nat ->
  is_ciphertext (wire ct iv tag) ct iv tag.
Proof.
  intros Hiv Htag. split; [apply wire_colons|].
  exists (b64encode ct), (b64encode iv), (b64encode tag).
  rewrite wire_split, !b64decode_strict_encode.
  repeat split; try assumption.
  - rewrite b64encode_nil_iff. intros ->. discriminate.
  - rewrite b64encode_nil_iff. intros ->. discriminate.
Qed.

Lemma node_seal_shape (key : bytes) (r : rng) (pt : text) :
  length key = 32%nat ->
  exists c ct iv tag,
    node_seal key r pt = Ok c /\ is_ciphertext c ct iv tag
    /\ (first_segment_empty c <-> pt = []).
Proof.
  intros Hk. do 4 eexists. split; [apply node_seal_ok, Hk|]. split.
  - apply wire_is_ciphertext; [apply randomBytes_length | apply gcm_mac_length].
  - unfold first_segment_empty. rewrite wire_split. split.
    + intros [rest He]. apply cons_eq_head in He.
      apply b64encode_nil_iff, gcm_ctr_nil_iff in He. exact He.
    + intros ->. eexists. reflexivity.
Qed.

Lemma dart_seal_shape (key : bytes) (r : rng) (pt : text) :
  length key = 32%nat ->
  exists c ct iv tag,
    dart_seal key r pt = Ok c /\ is_ciphertext c ct iv tag
    /\ ~ first_segment_empty c.
Proof.
  intros Hk. do 4 eexists. split; [apply dart_seal_ok, Hk|]. split.
  - apply wire_is_ciphertext; [apply randomBytes_length | apply gcm_mac_length].
  - unfold first_segment_empty. rewrite wire_split.
    intros [rest He]. apply cons_eq_head in He.
    apply b64encode_nil_iff, gcm_ctr_nil_iff in He.
    pose proof (jsonEncode_length pt) as Hl. rewrite He in Hl. cbn in Hl. lia.
Qed.

(** C8, as amended: what encrypt and dhEncrypt return (the frontend's
    dhEncrypt for a secret that [_hexToBytes] decodes, the backend's for a
    secret of even length) has exactly two ':' and splits into three
    standard-base64 segments; the second decodes to the 16 bytes of the IV
    and the third to the 16 bytes of the tag, so both are non-empty. The
    first segment is never empty in the frontend, whose plaintext is wrapped
    in JSON quotes, and in the backend is empty exactly when the plaintext
    is empty. *)
Theorem C8_ciphertext_shape (r : rng) (P W S Sb : text) (m : bytes) :
  Frontend._hexToBytes S = Ok m ->
  Nat.even (js_length Sb) = true ->
  (exists c ct iv tag,
      Frontend.encrypt r {| plainText := P; password := W |} = Ok c
      /\ is_ciphertext c ct iv tag /\ ~ first_segment_empty c)
  /\ (exists c ct iv tag,
      Frontend.dhEncrypt r {| dh_plainText := P; sharedSecret := S |} = Ok c
      /\ is_ciphertext c ct iv tag /\ ~ first_segment_empty c)
  /\ (exists c ct iv tag,
      Backend.encrypt r {| plainText := P; password := W |} = Ok c
      /\ is_ciphertext c ct iv tag /\ (first_segment_empty c <-> P = []))
  /\ (exists c ct iv tag,
      Backend.dhEncrypt r {| dh_plainText := P; sharedSecret := Sb |} = Ok c
      /\ is_ciphertext c ct iv tag /\ (first_segment_empty c <-> P = [])).
Proof.
  intros Hm Hev. apply hash_update_hex_even in Hev. repeat split.
  - rewrite frontend_encrypt_seal. apply dart_seal_shape, deriveKey_length.
  - rewrite frontend_dhEncrypt_seal. cbn [sharedSecret dh_plainText].
    rewrite Hm. cbn [bind]. apply dart_seal_shape, deriveKey_length.
  - rewrite backend_encrypt_seal. apply node_seal_shape, deriveKey_length.
  - rewrite backend_dhEncrypt_seal. cbn [sharedSecret dh_plainText].
    rewrite Hev. cbn [bind]. apply node_seal_shape, deriveKey_length.
Qed.

Lemma tamper_tag_text_wire (ct iv tag : bytes) (s : text) (k : nat) :
  b64encode tag = s ++ ["="%char; "="%char] -> length s = 22%nat -> (k < 8)%nat ->
  tamper_tag_text (184 + k) (wire ct iv tag)
  = b64encode ct ++ ":" ++ b64encode iv ++ ":"
    ++ s ++ ["="%char; flip_in_byte k "="].
Proof.
  intros Hs Hl Hk. unfold tamper_tag_text. rewrite wire_split, Hs.
  replace (s ++ ["="%char; "="%char]) with ((s ++ ["="%char]) ++ ["="%char])
    by now rewrite <- app_assoc.
  replace (184 + k)%nat with (8 * length (s ++ ["="%char]) + k)%nat
    by (rewrite length_app, Hl; reflexivity).
  rewrite flip_bit_app. cbn [flip_bit].
  replace (k <? 8)%nat with true by (symmetry; apply Nat.ltb_lt; exact Hk).
  now rewrite <- app_assoc.
Qed.

Lemma node_tampered (key : bytes) (r : rng) (pt : text) (i : nat) :
  length key = 32%nat -> (i < 128)%nat ->
  exists c, node_seal key r pt = Ok c
            /\ node_open key (tamper_tag i c) = Err AuthenticationError.
Proof.
  intros Hk Hi. eexists. split; [apply node_seal_ok, Hk|].
  rewrite tamper_tag_wire. apply node_open_bad_tag.
  - assumption.
  - apply iv_nonempty.
  - now rewrite flip_bit_length, gcm_mac_length.
  - apply flip_bit_neq. rewrite gcm_mac_length. lia.
Qed.

Lemma dart_tampered (key : bytes) (r : rng) (pt : text) (i : nat) :
  length key = 32%nat -> (i < 128)%nat ->
  exists c, dart_seal key r pt = Ok c
            /\ dart_open key (tamper_tag i c) = Err AuthenticationError.
Proof.
  intros Hk Hi. eexists. split; [apply dart_seal_ok, Hk|].
  rewrite tamper_tag_wire. apply dart_open_bad_tag.
  - assumption.
  - apply iv_nonempty.
  - now rewrite flip_bit_length, gcm_mac_length.
  - apply flip_bit_neq. rewrite gcm_mac_length. lia.
Qed.

(** The text of a tag: 22 characters and the padding [==]. A flip in the
    second padding character lies behind the first one, where the backend's
    decoder has stopped reading. *)
Lemma node_text_tampered (key : bytes) (r : rng) (pt : text) (k : nat) :
  length key = 32%nat -> (k < 7)%nat ->
  exists c, node_seal key r pt = Ok c
            /\ tamper_tag_text (184 + k) c <> c
            /\ node_open key (tamper_tag_text (184 + k) c) = jsonDecode pt.
Proof.
  intros Hk Hlt. eexists. split; [apply node_seal_ok, Hk|].
  set (iv := randomBytes r 0 16). set (ct := gcm_ctr key iv pt).
  set (tag := gcm_mac key iv ct).
  destruct (b64encode_pad2 tag) as (s & Hs & Hl & _).
  { unfold tag. now rewrite gcm_mac_length. }
  unfold tag in Hl. rewrite gcm_mac_length in Hl. cbn in Hl. fold tag in Hl.
  destruct (flipped_pad k Hlt) as (Hc & He).
  pose proof (b64encode_colon_free tag) as Hfree. rewrite Hs in Hfree.
  apply Forall_app in Hfree. destruct Hfree as [Hfs _].
  rewrite (tamper_tag_text_wire _ _ _ s k) by (assumption || lia). split.
  - unfold wire. rewrite Hs. intros Heq.
    do 5 apply app_inv_head in Heq.
    apply (f_equal (fun l => nth 1 l "0"%char)) in Heq. cbn [nth] in Heq.
    rewrite Heq, Ascii.eqb_refl in He. discriminate He.
  - unfold node_open. rewrite split_three.
    + rewrite !b64decode_lenient_encode.
      unfold b64decode_lenient.
      rewrite (b64_sextets_after_pad s _ ["="%char]), <- Hs.
      fold (b64decode_lenient (b64encode tag)).
      rewrite b64decode_lenient_encode. unfold tag.
      rewrite node_gcm_decrypt_ok by (assumption || apply iv_nonempty).
      cbn [bind]. unfold ct. now rewrite gcm_ctr_involutive.
    + apply b64encode_colon_free.
    + apply b64encode_colon_free.
    + apply Forall_app. split; [exact Hfs|].
      constructor; [reflexivity|]. constructor; [exact Hc | constructor].
Qed.

Lemma dart_text_tampered (key : bytes) (r : rng) (pt : text) (k : nat) :
  length key = 32%nat -> (k < 7)%nat ->
  exists c, dart_seal key r pt = Ok c
            /\ dart_open key (tamper_tag_text (184 + k) c) = Err DecodeError.
Proof.
  intros Hk Hlt. eexists. split; [apply dart_seal_ok, Hk|].
  set (iv := randomBytes r 0 16). set (ct := gcm_ctr key iv (jsonEncode pt)).
  set (tag := gcm_mac key iv ct).
  destruct (b64encode_pad2 tag) as (s & Hs & Hl & Hbad).
  { unfold tag. now rewrite gcm_mac_length. }
  unfold tag in Hl. rewrite gcm_mac_length in Hl. cbn in Hl. fold tag in Hl.
  destruct (flipped_pad k Hlt) as (Hc & He).
  pose proof (b64encode_colon_free tag) as Hfree. rewrite Hs in Hfree.
  apply Forall_app in Hfree. destruct Hfree as [Hfs _].
  rewrite (tamper_tag_text_wire _ _ _ s k) by (assumption || lia).
  unfold dart_open. rewrite split_three.
  - rewrite !b64decode_strict_encode. cbn [of_option bind].
    now rewrite (Hbad _ He).
  - apply b64encode_colon_free.
  - apply b64encode_colon_free.
  - apply Forall_app. split; [exact Hfs|].
    constructor; [reflexivity|]. constructor; [exact Hc | constructor].
Qed.

(** C7, as amended: take what encrypt or dhEncrypt returned. With any one of
    the 128 bits of the tag that its auth-tag segment carries flipped,
    decrypt, or dhDecrypt, with the same secret raises AuthenticationError:
    it returns neither the original nor any other plaintext, in backend and
    frontend. A flip in the text of the segment is another matter: with one
    of the low seven bits of its last character (the second [=] of the
    padding, bits 184 to 190 of the 24 characters) flipped, the text is a
    different one, yet the backend returns the original plaintext, and the
    frontend fails where it decodes the segment, before any tag is
    compared. *)
Theorem C7_flipped_tag_bit_is_rejected
    (r : rng) (P W S Sb : text) (m : bytes) (i k : nat) :
  (i < 128)%nat -> (k < 7)%nat ->
  Frontend._hexToBytes S = Ok m ->
  Nat.even (js_length Sb) = true ->
  (exists c,
      Backend.encrypt r {| plainText := P; password := W |} = Ok c
      /\ Backend.decrypt {| encryptedText := tamper_tag i c; dec_password := W |}
         = Err AuthenticationError)
  /\ (exists c,
      Backend.dhEncrypt r {| dh_plainText := P; sharedSecret := Sb |} = Ok c
      /\ Backend.dhDecrypt
           {| dh_encryptedText := tamper_tag i c; dh_sharedSecret := Sb |}
         = Err AuthenticationError)
  /\ (exists c,
      Frontend.encrypt r {| plainText := P; password := W |} = Ok c
      /\ Frontend.decrypt {| encryptedText := tamper_tag i c; dec_password := W |}
         = Err AuthenticationError)
  /\ (exists c,
      Frontend.dhEncrypt r {| dh_plainText := P; sharedSecret := S |} = Ok c
      /\ Frontend.dhDecrypt
           {| dh_encryptedText := tamper_tag i c; dh_sharedSecret := S |}
         = Err AuthenticationError)
  /\ (exists c,
      Backend.encrypt r {| plainText := jsonEncode P; password := W |} = Ok c
      /\ tamper_tag_text (184 + k) c <> c
      /\ Backend.decrypt
           {| encryptedText := tamper_tag_text (184 + k) c; dec_password := W |}
         = Ok (JString P))
  /\ (exists c,
      Backend.dhEncrypt r {| dh_plainText := jsonEncode P; sharedSecret := Sb |}
        = Ok c
      /\ tamper_tag_text (184 + k) c <> c
      /\ Backend.dhDecrypt
           {| dh_encryptedText := tamper_tag_text (184 + k) c;
              dh_sharedSecret := Sb |}
         = Ok (JString P))
  /\ (exists c,
      Frontend.encrypt r {| plainText := P; password := W |} = Ok c
      /\ Frontend.decrypt
           {| encryptedText := tamper_tag_text (184 + k) c; dec_password := W |}
         = Err DecodeError)
  /\ (exists c,
      Frontend.dhEncrypt r {| dh_plainText := P; sharedSecret := S |} = Ok c
      /\ Frontend.dhDecrypt
           {| dh_encryptedText := tamper_tag_text (184 + k) c;
              dh_sharedSecret := S |}
         = Err DecodeError).
Proof.
  intros Hi Hlt Hm Hev. apply hash_update_hex_even in Hev.
  split; [|split; [|split; [|split; [|split; [|split; [|split]]]]]].
  - destruct (node_tampered (deriveKey W) r P i (deriveKey_length _) Hi)
      as (c & Hc & Ht).
    exists c. now rewrite backend_encrypt_seal, backend_decrypt_open.
  - destruct (node_tampered (deriveKey (node_hex_decode Sb)) r P i
                (deriveKey_length _) Hi) as (c & Hc & Ht).
    exists c. rewrite backend_dhEncrypt_seal. cbn [sharedSecret dh_plainText].
    rewrite Hev. cbn [bind]. split; [assumption|].
    now rewrite (backend_dhDecrypt_open _ (node_hex_decode Sb)).
  - destruct (dart_tampered (deriveKey W) r P i (deriveKey_length _) Hi)
      as (c & Hc & Ht).
    exists c. now rewrite frontend_encrypt_seal, frontend_decrypt_open.
  - destruct (dart_tampered (deriveKey m) r P i (deriveKey_length _) Hi)
      as (c & Hc & Ht).
    exists c. rewrite frontend_dhEncrypt_seal. cbn [sharedSecret dh_plainText].
    rewrite Hm. cbn [bind]. split; [assumption|].
    now rewrite (frontend_dhDecrypt_open _ m).
  - destruct (node_text_tampered (deriveKey W) r (jsonEncode P) k
                (deriveKey_length _) Hlt) as (c & Hc & Hne & Ht).
    exists c. rewrite backend_encrypt_seal, backend_decrypt_open.
    cbn [plainText password encryptedText dec_password].
    rewrite Ht, jsonDecode_jsonEncode. auto.
  - destruct (node_text_tampered (deriveKey (node_hex_decode Sb)) r (jsonEncode P)
                k (deriveKey_length _) Hlt) as (c & Hc & Hne & Ht).
    exists c. rewrite backend_dhEncrypt_seal. cbn [sharedSecret dh_plainText].
    rewrite Hev. cbn [bind].
    rewrite (backend_dhDecrypt_open _ (node_hex_decode Sb)) by assumption.
    cbn [dh_encryptedText]. rewrite Ht, jsonDecode_jsonEncode. auto.
  - destruct (dart_text_tampered (deriveKey W) r P k (deriveKey_length _) Hlt)
      as (c & Hc & Ht).
    exists c. now rewrite frontend_encrypt_seal, frontend_decrypt_open.
  - destruct (dart_text_tampered (deriveKey m) r P k (deriveKey_length _) Hlt)
      as (c & Hc & Ht).
    exists c. rewrite frontend_dhEncrypt_seal. cbn [sharedSecret dh_plainText].
    rewrite Hm. cbn [bind]. split; [assumption|].
    now rewrite (frontend_dhDecrypt_open _ m).
Qed.
End CipherShape.

(** * Diffie-Hellman *)

Lemma toRadixString16_nonneg (x : Z) :
  (0 <= x)%Z ->
  Forall (fun c => is_hex c = true) (toRadixString16 x)
  /\ hex_value_aux 0 (toRadixString16 x) = Some (Z.to_N x).
Proof.
  intros Hx. destruct x as [|p|p]; [| |lia].
  - split; [repeat constructor | reflexivity].
  - cbn [toRadixString16]. split; [apply hex_of_pos_is_hex|].
    pose proof (hex_of_pos_value p) as Hv. unfold hex_value in Hv.
    destruct (hex_of_pos p) eqn:E; [discriminate | exact Hv].
Qed.

Lemma Forall_lengths_even (s : text) :
  Nat.even (length (if Nat.odd (length s) then "0"%char :: s else s)) = true.
Proof.
  destruct (Nat.odd (length s)) eqn:Ho.
  - cbn [length]. rewrite Nat.even_succ. exact Ho.
  - rewrite <- Nat.negb_odd, Ho. reflexivity.
Qed.

#[local] Ltac Zify.zify_post_hook ::= idtac.
#[local] Opaque prime toRadixString16 Z.pow Z.modulo.

Lemma forallb_seq_succ (f : nat -> bool) (k0 k : nat) :
  forallb f (seq k0 (S k)) = f k0 && forallb f (seq (S k0) k).
Proof. reflexivity. Qed.

Section DH.
Context `{Crypto}.

(** [_hexToBytes(_bigIntToHex(x))] is a big-endian encoding of [x]. *)
Lemma hexToBytes_bigIntToHex (x : Z) :
  (0 <= x)%Z ->
  exists bs, Frontend._hexToBytes (Frontend._bigIntToHex x) = Ok bs
             /\ Z_of_bytes bs = x.
Proof.
  intros Hx. destruct (toRadixString16_nonneg x Hx) as [Hhex Hval].
  unfold Frontend._hexToBytes, Frontend._bigIntToHex.
  set (s := toRadixString16 x) in *.
  pose proof (Forall_lengths_even s) as Hev.
  set (s' := if Nat.odd (length s) then "0"%char :: s else s) in *.
  assert (Hhex' : Forall (fun c => is_hex c = true) s').
  { subst s'. destruct (Nat.odd (length s)); [constructor|]; auto. }
  assert (Hval' : hex_value_aux 0 s' = Some (Z.to_N x)).
  { subst s'. destruct (Nat.odd (length s)); assumption. }
  destruct (parse_hex_pairs_hex s' Hhex' Hev) as (bs & Hp & Hv & _).
  exists bs. split; [assumption|].
  specialize (Hv 0%N). rewrite Hval' in Hv. injection Hv as Hv.
  unfold Z_of_bytes, N_of_bytes. rewrite <- Hv. lia.
Qed.

Lemma hexToBigInt_prime : Frontend._hexToBigInt PRIME_2048 = Ok prime.
Proof. unfold Frontend._hexToBigInt. now rewrite prime_parses. Qed.

Lemma generateRandomBigInt_value (r : rng) (pos : nat) :
  Frontend._generateRandomBigInt r pos 2048
  = Ok (Z_of_bytes (randomBytes r pos 256)).
Proof.
  unfold Frontend._generateRandomBigInt.
  replace ((2048 + 7) / 8)%nat with 256%nat by (vm_compute; reflexivity).
  rewrite parse_radix16_bytes; [reflexivity|].
  intros Hn. apply (f_equal (@length ascii)) in Hn.
  rewrite randomBytes_length in Hn. discriminate.
Qed.

Lemma generateRandomBigInt_candidate (r : rng) (k : nat) :
  Frontend._generateRandomBigInt r (256 * k) 2048 = Ok (candidate r k).
Proof. apply generateRandomBigInt_value. Qed.

#[local] Opaque candidate.

Lemma accepted_range (x : Z) : accepted x = true <-> (1 < x < prime)%Z.
Proof. unfold accepted. lia. Qed.

(** One turn of the loop. *)
Lemma sample_private_step (f : nat) (r : rng) (k : nat) :
  Frontend.sample_private (S f) r k prime
  = if accepted (candidate r k) then Some (Ok (candidate r k))
    else Frontend.sample_private f r (S k) prime.
Proof.
  cbn [Frontend.sample_private]. rewrite generateRandomBigInt_candidate.
  generalize (candidate r k) as x. intros x. unfold accepted.
  destruct ((x >=? prime) || (x <=? 1))%Z; reflexivity.
Qed.

(** The loop returns its first accepted candidate as soon as the fuel
    reaches it. *)
Lemma sample_private_from (fuel : nat) (r : rng) (k0 k : nat) :
  (k < fuel)%nat ->
  forallb (fun j => negb (accepted (candidate r j))) (seq k0 k) = true ->
  accepted (candidate r (k0 + k)) = true ->
  Frontend.sample_private fuel r k0 prime
  = Some (Ok (candidate r (k0 + k))).
Proof.
  revert k0 k. induction fuel as [|f IH]; intros k0 k Hk Hrej Hacc; [lia|].
  rewrite sample_private_step. destruct k as [|k].
  - rewrite Nat.add_0_r in Hacc |- *. rewrite Hacc. reflexivity.
  - rewrite forallb_seq_succ in Hrej. apply andb_true_iff in Hrej as [Hr0 Hrej].
    apply negb_true_iff in Hr0. rewrite Hr0.
    rewrite <- Nat.add_succ_comm in Hacc |- *.
    apply IH; [lia | assumption | assumption].
Qed.

Lemma sample_private_first (fuel : nat) (r : rng) (k : nat) :
  (k < fuel)%nat -> first_accepted r k = true ->
  Frontend.sample_private fuel r 0 prime = Some (Ok (candidate r k)).
Proof.
  intros Hk Hfa. apply andb_true_iff in Hfa as [Hrej Hacc].
  apply (sample_private_from fuel r 0 k); assumption.
Qed.

(** Whatever the loop returns lies strictly between 1 and the prime. *)
Lemma sample_private_range (fuel : nat) (r : rng) (k : nat) (res : result Z) :
  Frontend.sample_private fuel r k prime = Some res ->
  exists x, res = Ok x /\ (1 < x < prime)%Z.
Proof.
  revert k. induction fuel as [|f IH]; intros k; [discriminate|].
  rewrite sample_private_step.
  destruct (accepted (candidate r k)) eqn:Hacc; [|apply IH].
  intros [= <-]. eexists. split; [reflexivity|]. now apply accepted_range.
Qed.

Lemma dart_substring_digest (m : bytes) :
  dart_substring0 64 (hex_of_bytes (sha256 m)) = Ok (hex_of_bytes (sha256 m)).
Proof.
  unfold dart_substring0. rewrite hex_of_bytes_length, sha256_length.
  change (64 <=? 2 * 32)%nat with true. cbv iota. f_equal.
  apply firstn_all2. rewrite hex_of_bytes_length, sha256_length. apply Nat.le_refl.
Qed.

(** Every key pair that [generateDHKeyPair] of the frontend returns, with or
    without a password, is a private exponent [x >= 1] and the public value
    [GENERATOR ^ x mod prime], both as hexadecimal text. *)
Lemma frontend_keypair_shape
    (fuel : nat) (r : rng) (now : Z) (pw : option text) (kp : DHKeyPair) :
  Frontend.generateDHKeyPair fuel r now pw = Some (Ok kp) ->
  exists x, (1 <= x)%Z
            /\ privateKey kp = Frontend._bigIntToHex x
            /\ publicKey kp = Frontend._bigIntToHex (GENERATOR ^ x mod prime)%Z.
Proof.
  unfold Frontend.generateDHKeyPair. rewrite hexToBigInt_prime.
  destruct (Frontend.sample_private fuel r 0 prime) as [res|] eqn:Hs; [|discriminate].
  destruct (sample_private_range _ _ _ _ Hs) as (x & -> & Hx).
  pose proof prime_positive as Hp.
  cbn [bind]. rewrite modPow_spec by lia. cbn [bind].
  destruct pw as [password|].
  - destruct (hexToBytes_bigIntToHex x) as (bs & Hbs & _); [lia|].
    rewrite Hbs. cbn [bind].
    rewrite dart_substring_digest. cbn [bind]. rewrite parse_radix16_bytes.
    + cbn [of_option bind].
      set (e := (Z_of_bytes _ mod (prime - 1) + 1)%Z).
      assert (He : (1 <= e)%Z).
      { subst e. pose proof (Z.mod_pos_bound
          (Z_of_bytes (sha256 (bs ++ sha256 (password ++ decimal now))))
          (prime - 1)). lia. }
      rewrite modPow_spec by lia. cbn [bind].
      intros [= <-]. exists e. repeat split. exact He.
    + intros Hn. apply (f_equal (@length ascii)) in Hn.
      rewrite sha256_length in Hn. discriminate.
  - intros [= <-]. exists x. repeat split. lia.
Qed.

(** What [computeSharedSecret] of the frontend returns on keys that parse. *)
Lemma frontend_computeSharedSecret_value
    (priv pub : text) (pw : option text) (x y : Z) :
  parse_radix16 priv = Some x -> parse_radix16 pub = Some y -> (0 <= x)%Z ->
  exists bs,
    Frontend._hexToBytes (Frontend._bigIntToHex (y ^ x mod prime)) = Ok bs
    /\ Z_of_bytes bs = (y ^ x mod prime)%Z
    /\ Frontend.computeSharedSecret
         {| ss_privateKey := priv; ss_otherPublicKey := pub; ss_password := pw |}
       = Ok (match pw with
             | Some password => hex_of_bytes (sha512 (bs ++ password))
             | None => hex_of_bytes (sha256 bs)
             end).
Proof.
  intros Hpriv Hpub Hx. pose proof prime_positive as Hp.
  destruct (hexToBytes_bigIntToHex (y ^ x mod prime)) as (bs & Hbs & Hv).
  { apply Z.mod_pos_bound. lia. }
  exists bs. repeat split; try assumption.
  unfold Frontend.computeSharedSecret. rewrite hexToBigInt_prime.
  cbn [bind ss_privateKey ss_otherPublicKey ss_password].
  unfold Frontend._hexToBigInt at 1 2. rewrite Hpriv, Hpub.
  cbn [of_option bind]. rewrite modPow_spec by lia. cbn [bind].
  rewrite Hbs. cbn [bind]. now destruct pw.
Qed.
End DH.

(** * Properties of the key agreement *)

Lemma N_of_bytes_from_bound (a : N) (bs : bytes) :
  (N_of_bytes_from a bs < (a + 1) * 256 ^ N.of_nat (length bs))%N.
Proof.
  revert a. induction bs as [|b bs IH]; intros a.
  - cbn. lia.
  - unfold N_of_bytes_from in *. cbn [fold_left length].
    rewrite Nat2N.inj_succ, N.pow_succ_r'.
    specialize (IH (a * 256 + code b)%N). pose proof (code_lt b).
    eapply N.lt_le_trans; [exact IH|].
    replace ((a + 1) * (256 * 256 ^ N.of_nat (length bs)))%N
      with (((a + 1) * 256) * 256 ^ N.of_nat (length bs))%N by ring.
    apply N.mul_le_mono_r. lia.
Qed.

Lemma Z_of_bytes_bound (bs : bytes) :
  (0 <= Z_of_bytes bs < 256 ^ Z.of_nat (length bs))%Z.
Proof.
  unfold Z_of_bytes, N_of_bytes.
  pose proof (N_of_bytes_from_bound 0 bs) as Hb. rewrite N.mul_1_l in Hb.
  split; [lia|].
  apply N2Z.inj_lt in Hb. rewrite N2Z.inj_pow in Hb.
  now rewrite nat_N_Z in Hb.
Qed.

Lemma N_of_bytes_from_app (a : N) (l1 l2 : bytes) :
  N_of_bytes_from a (l1 ++ l2) = N_of_bytes_from (N_of_bytes_from a l1) l2.
Proof. apply fold_left_app. Qed.

Lemma be_bytes_aux_acc (fuel : nat) (n : N) (acc : bytes) :
  be_bytes_aux fuel n acc = be_bytes_aux fuel n [] ++ acc.
Proof.
  revert n acc. induction fuel as [|f IH]; intros n acc; simpl; [reflexivity|].
  destruct (n =? 0)%N; [reflexivity|].
  rewrite IH. rewrite (IH _ [_]). now rewrite <- app_assoc.
Qed.

Lemma be_bytes_aux_value (fuel : nat) (n : N) :
  (n < 2 ^ N.of_nat fuel)%N -> N_of_bytes (be_bytes_aux fuel n []) = n.
Proof.
  revert n. induction fuel as [|f IH]; intros n Hn.
  - simpl in *. cbn. lia.
  - cbn [be_bytes_aux]. destruct (n =? 0)%N eqn:Hz.
    + apply N.eqb_eq in Hz. now subst.
    + rewrite be_bytes_aux_acc. unfold N_of_bytes in *.
      rewrite N_of_bytes_from_app, IH.
      * unfold N_of_bytes_from. cbn [fold_left].
        rewrite code_chr by (apply N.mod_lt; discriminate).
        rewrite (N.div_mod n 256) at 3 by discriminate. ring.
      * rewrite Nat2N.inj_succ, N.pow_succ_r' in Hn.
        apply N.Div0.div_lt_upper_bound.
        assert (0 < 2 ^ N.of_nat f)%N by (apply N.neq_0_lt_0, N.pow_nonzero; discriminate).
        lia.
Qed.

(** The big-endian bytes of a number denote that number. *)
Lemma Z_of_be_bytes (n : N) : Z_of_bytes (be_bytes n) = Z.of_N n.
Proof.
  unfold Z_of_bytes, be_bytes. f_equal. apply be_bytes_aux_value.
  rewrite N2Nat.id. apply N.size_gt.
Qed.

Lemma parse_hex_pairs_error (s : text) (e : error) :
  parse_hex_pairs s = Err e -> e = DecodeError.
Proof.
  induction s as [|a|a b r IH] using list_ind2; try discriminate.
  cbn [parse_hex_pairs].
  destruct (parse_radix16 [a; b]); cbn [of_option bind]; [|congruence].
  destruct (parse_hex_pairs r); cbn [bind]; [discriminate|].
  intros [= <-]. now apply IH.
Qed.

(** What Node's hexadecimal decoder makes of a run of digits: the value of
    the run when the number of digits is even, and the value without its
    last digit when it is odd. *)
Lemma node_hex_decode_value (s : text) (a n : N) :
  hex_value_aux a s = Some n ->
  N_of_bytes_from a (node_hex_decode s)
  = if Nat.even (length s) then n else (n / 16)%N.
Proof.
  revert a. induction s as [|c|c1 c2 r IH] using list_ind2; intros a Hv.
  - cbn in *. congruence.
  - cbn [hex_value_aux] in Hv. destruct (hexValue c) as [d|] eqn:Hc; [|discriminate].
    injection Hv as <-. pose proof (hexValue_lt _ _ Hc).
    cbn. apply N.div_unique with d; lia.
  - cbn [hex_value_aux] in Hv.
    destruct (hexValue c1) as [d1|] eqn:H1; [|discriminate].
    destruct (hexValue c2) as [d2|] eqn:H2; [|discriminate].
    pose proof (hexValue_lt _ _ H1). pose proof (hexValue_lt _ _ H2).
    cbn [node_hex_decode]. rewrite H1, H2.
    change (Nat.even (length (c1 :: c2 :: r))) with (Nat.even (length r)).
    rewrite <- (IH _ Hv). unfold N_of_bytes_from. cbn [fold_left].
    rewrite code_chr by lia. f_equal. lia.
Qed.


Section DHProperties.
Context `{Crypto}.

(** What [computeSharedSecret] of the backend returns for a public value
    that [computeSecret] accepts, and that it refuses the others. *)
Lemma backend_computeSharedSecret_value (priv pub : text) (pw : option text) :
  let x := Z_of_bytes (node_hex_decode priv) in
  let y := Z_of_bytes (node_hex_decode pub) in
  (1 < y < prime - 1)%Z ->
  Backend.computeSharedSecret
    {| ss_privateKey := priv; ss_otherPublicKey := pub; ss_password := pw |}
  = Ok (let padded := pad_left 256 (be_bytes (Z.to_N (y ^ x mod prime))) in
        match pw with
        | Some (c :: w) => hex_of_bytes (sha512 (padded ++ c :: w))
        | _ => hex_of_bytes (sha256 padded)
        end).
Proof.
  intros x y Hy. pose proof prime_positive as Hp.
  pose proof (Z_of_bytes_bound (node_hex_decode priv)) as Hx. fold x in Hx.
  unfold Backend.computeSharedSecret, Backend.dh_computeSecret.
  cbn [ss_privateKey ss_otherPublicKey ss_password].
  rewrite node_prime. fold x y.
  replace ((y <=? 1) || (prime - 1 <=? y))%Z with false by lia.
  rewrite modPow_spec by lia. cbn [bind].
  destruct pw as [[|c w]|]; reflexivity.
Qed.

Lemma backend_computeSharedSecret_refuses (priv pub : text) (pw : option text) :
  let y := Z_of_bytes (node_hex_decode pub) in
  (y <= 1 \/ prime - 1 <= y)%Z ->
  Backend.computeSharedSecret
    {| ss_privateKey := priv; ss_otherPublicKey := pub; ss_password := pw |}
  = Err InvalidKey.
Proof.
  intros y Hy. unfold Backend.computeSharedSecret, Backend.dh_computeSecret.
  cbn [ss_privateKey ss_otherPublicKey ss_password].
  rewrite node_prime. fold y.
  replace ((y <=? 1) || (prime - 1 <=? y))%Z with true by lia.
  reflexivity.
Qed.


(** The same agreement in the backend, for private keys held as the byte
    strings [pa] and [pb], as far as Node's [computeSecret] accepts the two
    public values: the secrets of the two sides are equal. *)
Lemma backend_shared_secret_agreement (pa pb : bytes) (pw : option text) :
  let A := (GENERATOR ^ Z_of_bytes pa mod prime)%Z in
  let B := (GENERATOR ^ Z_of_bytes pb mod prime)%Z in
  (1 < A < prime - 1)%Z -> (1 < B < prime - 1)%Z ->
  exists secret,
    Backend.computeSharedSecret
      {| ss_privateKey := hex_of_bytes pa;
         ss_otherPublicKey := hex_of_bytes (be_bytes (Z.to_N B));
         ss_password := pw |} = Ok secret
    /\ Backend.computeSharedSecret
         {| ss_privateKey := hex_of_bytes pb;
            ss_otherPublicKey := hex_of_bytes (be_bytes (Z.to_N A));
            ss_password := pw |} = Ok secret.
Proof.
  intros A B HA HB.
  assert (Hag : (B ^ Z_of_bytes pa mod prime = A ^ Z_of_bytes pb mod prime)%Z)
    by (apply dh_agreement; apply Z_of_bytes_bound).
  clearbody A B.
  unfold Backend.computeSharedSecret, Backend.dh_computeSecret.
  cbn [ss_privateKey ss_otherPublicKey ss_password].
  rewrite node_prime, !node_hex_decode_bytes, !Z_of_be_bytes, !Z2N.id by lia.
  replace ((B <=? 1) || (prime - 1 <=? B))%Z with false by lia.
  replace ((A <=? 1) || (prime - 1 <=? A))%Z with false by lia.
  pose proof (Z_of_bytes_bound pa). pose proof (Z_of_bytes_bound pb).
  rewrite !modPow_spec by lia. cbn [bind]. rewrite Hag.
  destruct (Backend.truthy pw); eexists; split; reflexivity.
Qed.

(** C4, as amended: the two implementations differ. [computeSharedSecret]
    of the frontend does not validate the range of the other public key:
    for every private key text that parses to a non-negative integer and
    every public key text that parses to an integer -- 0, 1, the prime and
    larger values included -- it returns the digest of the bytes of
    [otherPublicKey ^ privateKey mod prime], with the password appended when
    there is one. [computeSharedSecret] of the backend raises InvalidKey for
    every public key whose decoded value is at most 1 or at least
    [prime - 1]: for every value that is not strictly between 1 and the
    prime, and for [prime - 1] as well. For a public value strictly between
    1 and [prime - 1] that is a power of the generator, as every honest
    public key is, and a shared value other than 1, it returns the digest of
    the shared value left-padded to 256 bytes. *)
Theorem C4_no_range_validation
    (priv pub : text) (pw : option text) (x y : Z) :
  parse_radix16 priv = Some x -> parse_radix16 pub = Some y -> (0 <= x)%Z ->
  (exists bs,
      Z_of_bytes bs = (y ^ x mod prime)%Z
      /\ Frontend.computeSharedSecret
           {| ss_privateKey := priv; ss_otherPublicKey := pub; ss_password := pw |}
         = Ok (match pw with
               | Some password => hex_of_bytes (sha512 (bs ++ password))
               | None => hex_of_bytes (sha256 bs)
               end))
  /\ (forall (privB pubB : text) (pwB : option text),
        let v := Z_of_bytes (node_hex_decode pubB) in
        (v <= 1 \/ prime - 1 <= v)%Z ->
        Backend.computeSharedSecret
          {| ss_privateKey := privB; ss_otherPublicKey := pubB;
             ss_password := pwB |}
        = Err InvalidKey)
  /\ (forall (privB pubB : text) (pwB : option text) (k : Z),
        let e := Z_of_bytes (node_hex_decode privB) in
        let v := Z_of_bytes (node_hex_decode pubB) in
        let s := (v ^ e mod prime)%Z in
        (0 <= k)%Z -> v = (GENERATOR ^ k mod prime)%Z ->
        (1 < v < prime - 1)%Z -> s <> 1%Z ->
        Backend.computeSharedSecret
          {| ss_privateKey := privB; ss_otherPublicKey := pubB;
             ss_password := pwB |}
        = Ok (let padded := pad_left 256 (be_bytes (Z.to_N s)) in
              match pwB with
              | Some (c :: w) => hex_of_bytes (sha512 (padded ++ c :: w))
              | _ => hex_of_bytes (sha256 padded)
              end)).
Proof.
  intros Hpriv Hpub Hx. split; [|split].
  - destruct (frontend_computeSharedSecret_value priv pub pw x y Hpriv Hpub Hx)
      as (bs & _ & Hv & Hs).
    exists bs. split; assumption.
  - intros privB pubB pwB v Hv.
    now apply backend_computeSharedSecret_refuses.
  - intros privB pubB pwB k e v s _ _ Hv _.
    now apply backend_computeSharedSecret_value.
Qed.

Lemma backend_enhanced_pair (x : N) (now : Z) (c : ascii) (pw : text) :
  let passwordHash := sha256 ((c :: pw) ++ decimal now) in
  let digest := sha256 (be_bytes x ++ passwordHash) in
  Backend.generateDHKeyPair x now (Some (c :: pw))
  = Ok {| privateKey := hex_of_bytes digest;
          publicKey :=
            hex_of_bytes
              (be_bytes (Z.to_N (GENERATOR ^ Z_of_bytes digest mod prime))) |}.
Proof.
  cbv zeta. unfold Backend.generateDHKeyPair.
  rewrite node_prime. pose proof prime_positive as Hp.
  rewrite modPow_spec by lia. cbn [bind Backend.truthy].
  rewrite modPow_spec; [reflexivity | apply Z_of_bytes_bound | lia].
Qed.

Lemma sha256_nonempty (m : bytes) : sha256 m <> [].
Proof.
  intros Hn. apply (f_equal (@length ascii)) in Hn.
  rewrite sha256_length in Hn. discriminate.
Qed.

Lemma digest_not_incremented (m : bytes) :
  Z_of_bytes (sha256 m) <> (Z_of_bytes (sha256 m) mod (prime - 1) + 1)%Z.
Proof.
  pose proof (Z_of_bytes_bound (sha256 m)) as Hb. rewrite sha256_length in Hb.
  pose proof prime_positive as Hp.
  assert (256 ^ Z.of_nat 32 < 2 ^ 2047)%Z by (vm_compute; reflexivity).
  rewrite Z.mod_small by lia. lia.
Qed.

(** C5, as amended: in the frontend, once the sampling loop has accepted a
    candidate [x], password-enhanced [generateDHKeyPair] returns the private
    key [SHA256(privateKeyBytes || passwordHash) mod (prime - 1) + 1], where
    [privateKeyBytes] are the big-endian bytes of [x] and [passwordHash] is
    SHA-256 of the password followed by the decimal clock reading, and the
    public key [generator ^ enhancedPrivateKey mod prime]. In the backend,
    for a password that is not empty, the private key returned is the digest
    [SHA256(privateKeyBytes || passwordHash)] itself, neither reduced nor
    incremented, and the public key is [generator ^ digest mod prime]. *)
Theorem C5_password_enhanced_key_pair
    (fuel : nat) (r : rng) (k : nat) (now : Z) (pw : text)
    (libPrivate : N) (c : ascii) (pwb : text) :
  (k < fuel)%nat -> first_accepted r k = true ->
  (exists privateKeyBytes,
      Frontend._hexToBytes (Frontend._bigIntToHex (candidate r k))
      = Ok privateKeyBytes
      /\ Z_of_bytes privateKeyBytes = candidate r k
      /\ let passwordHash := sha256 (pw ++ decimal now) in
         let enhancedPrivateKey :=
           (Z_of_bytes (sha256 (privateKeyBytes ++ passwordHash))
              mod (prime - 1) + 1)%Z in
         Frontend.generateDHKeyPair fuel r now (Some pw)
         = Some (Ok {| privateKey := Frontend._bigIntToHex enhancedPrivateKey;
                       publicKey :=
                         Frontend._bigIntToHex
                           (GENERATOR ^ enhancedPrivateKey mod prime) |}))
  /\ (let passwordHash := sha256 ((c :: pwb) ++ decimal now) in
      let digest := sha256 (be_bytes libPrivate ++ passwordHash) in
      Backend.generateDHKeyPair libPrivate now (Some (c :: pwb))
      = Ok {| privateKey := hex_of_bytes digest;
              publicKey :=
                hex_of_bytes
                  (be_bytes (Z.to_N (GENERATOR ^ Z_of_bytes digest mod prime))) |}
      /\ parse_radix16 (hex_of_bytes digest) = Some (Z_of_bytes digest)
      /\ Z_of_bytes digest <> (Z_of_bytes digest mod (prime - 1) + 1)%Z).
Proof.
  intros Hk Hfa. split.
  - pose proof (sample_private_first fuel r k Hk Hfa) as Hs.
    assert (Hrange : (1 < candidate r k < prime)%Z).
    { apply accepted_range. apply andb_true_iff in Hfa. exact (proj2 Hfa). }
    clear Hfa.
    destruct (hexToBytes_bigIntToHex (candidate r k)) as (bs & Hbs & Hv); [lia|].
    exists bs. split; [assumption|]. split; [assumption|]. cbv zeta.
    unfold Frontend.generateDHKeyPair. rewrite hexToBigInt_prime, Hs.
    pose proof prime_positive as Hp.
    cbn [bind]. rewrite modPow_spec by lia. cbn [bind].
    rewrite Hbs. cbn [bind]. rewrite dart_substring_digest. cbn [bind].
    rewrite parse_radix16_bytes by apply sha256_nonempty.
    cbn [of_option bind]. rewrite modPow_spec; [reflexivity | | lia].
    pose proof (Z.mod_pos_bound
      (Z_of_bytes (sha256 (bs ++ sha256 (pw ++ decimal now)))) (prime - 1)).
    lia.
  - cbv zeta. split; [apply backend_enhanced_pair|]. split.
    + apply parse_radix16_bytes, sha256_nonempty.
    + apply digest_not_incremented.
Qed.
End DHProperties.

(** * Public key validation *)

Lemma skip_space_keeps (c : ascii) (s : text) :
  In c s -> is_space c = true \/ In c (skip_space s).
Proof.
  induction s as [|a s IH]; [contradiction|]. intros [<-|Hin]; cbn [skip_space].
  - destruct (is_space a) eqn:Ha; [now left | right; now left].
  - destruct (is_space a) eqn:Ha; [now apply IH | right; now right].
Qed.

Lemma trim_keeps (c : ascii) (s : text) :
  In c s -> is_space c = true \/ In c (trim s).
Proof.
  intros Hin. unfold trim.
  destruct (skip_space_keeps c s Hin) as [Hs|Hin1]; [now left|].
  apply in_rev in Hin1.
  destruct (skip_space_keeps c _ Hin1) as [Hs|Hin2]; [now left|].
  right. now apply -> in_rev.
Qed.

Lemma hex_value_aux_chars (a : N) (s : text) (v : N) :
  hex_value_aux a s = Some v -> Forall (fun c => is_hex c = true) s.
Proof.
  revert a. induction s as [|c s IH]; intros a; [constructor|].
  cbn [hex_value_aux]. destruct (hexValue c) eqn:Hc; [|discriminate].
  intros Hv. constructor; [unfold is_hex; now rewrite Hc | eapply IH, Hv].
Qed.

Lemma hex_value_chars (s : text) (v : N) :
  hex_value s = Some v -> Forall (fun c => is_hex c = true) s.
Proof. destruct s; [discriminate|]. apply hex_value_aux_chars. Qed.

(** Every character of a text that [parse_radix16] accepts is a digit, a sign
    or white space. *)
Lemma parse_radix16_chars (s : text) (v : Z) :
  parse_radix16 s = Some v -> Forall (fun c => is_foreign c = false) s.
Proof.
  intros Hp. apply Forall_forall. intros c Hin. unfold is_foreign.
  apply andb_false_iff. right. apply negb_false_iff.
  destruct (trim_keeps c s Hin) as [Hs|Hin'].
  { rewrite Hs. now rewrite orb_true_r. }
  unfold parse_radix16 in Hp. destruct (trim s) as [|c0 r]; [contradiction|].
  assert (Hhex : forall t w, hex_value t = Some w -> In c t -> is_hex c = true).
  { intros t w Ht Hc. pose proof (hex_value_chars t w Ht) as Hall.
    rewrite Forall_forall in Hall. now apply Hall. }
  destruct (Ascii.eqb c0 "-") eqn:Hm.
  - destruct Hin' as [<-|Hr]; [now rewrite Hm, !orb_true_r|].
    destruct (hex_value r) eqn:Hv; [|discriminate]. now rewrite (Hhex r n).
  - destruct (Ascii.eqb c0 "+") eqn:Hpl.
    + destruct Hin' as [<-|Hr]; [now rewrite Hpl, !orb_true_r|].
      destruct (hex_value r) eqn:Hv; [|discriminate]. now rewrite (Hhex r n).
    + destruct (hex_value (c0 :: r)) eqn:Hv; [|discriminate].
      now rewrite (Hhex (c0 :: r) n).
Qed.

Lemma parse_hex_pairs_chars (s : text) (bs : bytes) :
  Nat.even (length s) = true -> parse_hex_pairs s = Ok bs ->
  Forall (fun c => is_foreign c = false) s.
Proof.
  revert bs. induction s as [|a|a b r IH] using list_ind2; intros bs Hev Hp.
  - constructor.
  - discriminate.
  - cbn [parse_hex_pairs] in Hp.
    destruct (parse_radix16 [a; b]) as [v|] eqn:Hv; [|discriminate].
    cbn [of_option bind] in Hp.
    destruct (parse_hex_pairs r) as [rest|] eqn:Hr; [|discriminate].
    apply parse_radix16_chars in Hv.
    inversion Hv as [|? ? Ha Hv1]; subst. inversion Hv1 as [|? ? Hb _]; subst.
    constructor; [assumption|]. constructor; [assumption|]. now apply (IH rest).
Qed.

Lemma hexToBytes_chars (k : text) (bs : bytes) :
  Frontend._hexToBytes k = Ok bs -> Forall (fun c => is_foreign c = false) k.
Proof.
  unfold Frontend._hexToBytes. intros Hp.
  apply parse_hex_pairs_chars in Hp; [|apply Forall_lengths_even].
  destruct (Nat.odd (length k)); [now inversion Hp | assumption].
Qed.

Lemma hexToBytes_hex_of_bytes (bs : bytes) :
  Frontend._hexToBytes (hex_of_bytes bs) = Ok bs.
Proof.
  unfold Frontend._hexToBytes. rewrite hex_of_bytes_length.
  replace (Nat.odd (2 * length bs)) with false.
  - apply parse_hex_pairs_bytes.
  - symmetry. rewrite <- Nat.negb_even, Nat.even_mul. reflexivity.
Qed.

(** Node's decoder stops at the first pair that holds a character that is
    not a hexadecimal digit. *)
Lemma node_hex_decode_stops (k1 k2 : text) (c : ascii) :
  is_hex c = false ->
  (2 * length (node_hex_decode (k1 ++ c :: k2)) <= length k1)%nat.
Proof.
  intros Hc. unfold is_hex in Hc.
  induction k1 as [|a|a b r IH] using list_ind2.
  - cbn [app node_hex_decode]. destruct k2 as [|d k2]; [cbn; lia|].
    destruct (hexValue c); [discriminate|]. cbn. lia.
  - cbn [app node_hex_decode]. destruct (hexValue a); [|cbn; lia].
    destruct (hexValue c); [discriminate|]. cbn. lia.
  - cbn [app node_hex_decode].
    destruct (hexValue a); [|cbn; lia]. destruct (hexValue b); [|cbn; lia].
    cbn [length]. lia.
Qed.

(** Node's decoder returns the bytes it has read when it meets a character
    that is not a hexadecimal digit. *)
Lemma node_hex_decode_junk (bs : bytes) (d : ascii) (rest : text) :
  is_hex d = false -> node_hex_decode (hex_of_bytes bs ++ d :: rest) = bs.
Proof.
  intros Hd. unfold is_hex in Hd. induction bs as [|b bs IH].
  - cbn [hex_of_bytes flat_map app node_hex_decode].
    destruct rest; [reflexivity|]. now destruct (hexValue d).
  - pose proof (code_lt b).
    cbn [hex_of_bytes flat_map hex_of_byte app node_hex_decode].
    rewrite !hexValue_digit by lia. fold (hex_of_bytes bs). rewrite IH.
    replace (16 * (code b / 16) + code b mod 16)%N with (code b) by lia.
    now rewrite chr_code.
Qed.

(** [int.parse] reads a sign and a digit as a number. *)
Lemma parse_radix16_signed (x : ascii) :
  is_hex x = true -> exists v, parse_radix16 ["+"%char; x] = Some v.
Proof.
  all_bytes x; intros Hx; try discriminate Hx; eexists; vm_compute; reflexivity.
Qed.

Lemma hexToBytes_signed_pairs (ds : text) :
  forallb is_hex ds = true ->
  exists bs, Frontend._hexToBytes (signed_pairs ds) = Ok bs
             /\ length bs = length ds.
Proof.
  intros Hds. unfold Frontend._hexToBytes.
  assert (Hev : Nat.odd (length (signed_pairs ds)) = false).
  { clear Hds. unfold signed_pairs.
    induction ds as [|x ds IH]; [reflexivity|].
    cbn [flat_map app length]. now rewrite Nat.odd_succ, Nat.even_succ. }
  rewrite Hev. clear Hev.
  induction ds as [|x ds IH]; [now exists []|].
  cbn [forallb] in Hds. apply andb_true_iff in Hds as [Hx Hds].
  destruct (IH Hds) as (bs & Hbs & Hl).
  destruct (parse_radix16_signed x Hx) as (v & Hv).
  exists (uint8_of_Z v :: bs). unfold signed_pairs in *.
  cbn [flat_map app parse_hex_pairs]. rewrite Hv. cbn [of_option bind].
  rewrite Hbs. cbn [bind length]. now rewrite Hl.
Qed.

(** C9, where the code departs from the specification: [validatePublicKey]
    returns a boolean on every input, and on the hexadecimal text of a byte
    sequence both implementations return true exactly when the sequence has
    more than 100 and fewer than 1000 bytes; both return false on the empty
    text; the frontend returns false on every text that holds an ASCII
    character that is neither a hexadecimal digit, a sign nor white space,
    and the backend on every text with a character that is not a hexadecimal
    digit among its first 202 characters. But neither returns false on every
    text that is not hexadecimal. [Buffer.from(_, 'hex')] in the backend
    does not throw: it returns the bytes before the first pair that is not
    hexadecimal, so the backend judges such a text by the bytes in front of
    that pair. [int.parse] in the frontend accepts a sign in each pair of
    characters, so the frontend judges a text of pairs of a [+] and a digit
    by the number of its pairs. *)
Theorem C9_validatePublicKey
    (k0 k1 k2 rest ds : text) (c d : ascii) (bs : bytes) :
  is_foreign c = true -> is_hex d = false -> (length k1 <= 201)%nat ->
  forallb is_hex ds = true ->
  Frontend.validatePublicKey (hex_of_bytes bs)
  = ((100 <? length bs) && (length bs <? 1000))%nat
  /\ Backend.validatePublicKey (hex_of_bytes bs)
     = ((100 <? length bs) && (length bs <? 1000))%nat
  /\ Frontend.validatePublicKey [] = false
  /\ Backend.validatePublicKey [] = false
  /\ Frontend.validatePublicKey (k0 ++ c :: k2) = false
  /\ Backend.validatePublicKey (k1 ++ d :: k2) = false
  /\ Backend.validatePublicKey (hex_of_bytes bs ++ d :: rest)
     = ((100 <? length bs) && (length bs <? 1000))%nat
  /\ Frontend.validatePublicKey (signed_pairs ds)
     = ((100 <? length ds) && (length ds <? 1000))%nat.
Proof.
  intros Hc Hd Hk1 Hds. repeat split.
  - unfold Frontend.validatePublicKey. now rewrite hexToBytes_hex_of_bytes.
  - unfold Backend.validatePublicKey. now rewrite node_hex_decode_bytes.
  - unfold Frontend.validatePublicKey.
    destruct (Frontend._hexToBytes (k0 ++ c :: k2)) as [decoded|e] eqn:Hdec;
      [|reflexivity].
    apply hexToBytes_chars in Hdec. rewrite Forall_forall in Hdec.
    rewrite (Hdec c) in Hc; [discriminate|]. apply in_elt.
  - unfold Backend.validatePublicKey.
    pose proof (node_hex_decode_stops k1 k2 d Hd) as Hl.
    apply andb_false_iff. left. apply Nat.ltb_ge. lia.
  - unfold Backend.validatePublicKey. now rewrite node_hex_decode_junk.
  - unfold Frontend.validatePublicKey.
    destruct (hexToBytes_signed_pairs ds Hds) as (decoded & -> & ->).
    reflexivity.
Qed.

(** * Concrete inputs

    What the two implementations do where they part from the specification,
    and the theorems above at inputs that meet their hypotheses. *)

(** The backend returns [JSON.parse("Hello World!")], a syntax error, where
    C1 promises the plaintext. *)
Lemma C1_counterexample :
  exists c,
    Backend.encrypt (H := sample_crypto) sample_rng
      {| plainText := sample_text; password := sample_password |} = Ok c
    /\ Backend.decrypt (H := sample_crypto)
         {| encryptedText := c; dec_password := sample_password |} = Err JsonError
    /\ Backend.decrypt (H := sample_crypto)
         {| encryptedText := c; dec_password := sample_password |}
       <> Ok (JString sample_text).
Proof.
  eexists. split; [vm_compute; reflexivity|].
  split; [vm_compute; reflexivity | vm_compute; discriminate].
Qed.

(** The stream that the backend encrypts for the plaintext [Hello World!] is
    that text itself, which is not a JSON value. *)
Lemma C6_counterexample :
  exists ct iv tag,
    Backend.encrypt (H := sample_crypto) sample_rng
      {| plainText := sample_text; password := sample_password |}
    = Ok (wire ct iv tag)
    /\ gcm_ctr (H := sample_crypto)
         (deriveKey (H := sample_crypto) sample_password) iv ct = sample_text
    /\ sample_text <> jsonEncode sample_text
    /\ jsonDecode sample_text = Err JsonError.
Proof.
  do 3 eexists. split.
  - rewrite backend_encrypt_seal. apply node_seal_ok, deriveKey_length.
  - split; [apply gcm_ctr_involutive|].
    split; [discriminate | vm_compute; reflexivity].
Qed.

(** The backend's CipherText of the empty plaintext starts with ':': its
    first segment is empty. *)
Lemma C8_counterexample :
  exists c s1 s2,
    Backend.encrypt (H := sample_crypto) sample_rng
      {| plainText := []; password := sample_password |} = Ok c
    /\ split_colon c = [[]; s1; s2].
Proof. do 3 eexists. split; vm_compute; reflexivity. Qed.

(** The frontend returns a secret for the public key 1, which is not
    strictly between 1 and the prime; the backend raises InvalidKey for the
    public key [prime - 1], which is. *)
Lemma C4_counterexample :
  (exists secret,
      parse_radix16 "1" = Some 1%Z
      /\ ~ (1 < 1 < prime)%Z
      /\ Frontend.computeSharedSecret (H := sample_crypto)
           {| ss_privateKey := "5"; ss_otherPublicKey := "1"; ss_password := None |}
         = Ok secret)
  /\ (let pub := hex_of_bytes (be_bytes (Z.to_N (prime - 1))) in
      Z_of_bytes (node_hex_decode pub) = (prime - 1)%Z
      /\ (1 < prime - 1 < prime)%Z
      /\ Backend.computeSharedSecret (H := sample_crypto)
           {| ss_privateKey := "05"; ss_otherPublicKey := pub; ss_password := None |}
         = Err InvalidKey).
Proof.
  split.
  - eexists. split; [reflexivity|]. split; [lia|]. vm_compute. reflexivity.
  - cbv zeta. split; [vm_compute; reflexivity|].
    split; [split; vm_compute; reflexivity | vm_compute; reflexivity].
Qed.


(** With the low bit of the last character of its auth-tag segment flipped,
    a CipherText of the backend still decrypts to the plaintext, and the
    frontend fails on its own before it compares a tag. *)
Lemma C7_counterexample :
  exists c c',
    Backend.encrypt (H := sample_crypto) sample_rng
      {| plainText := jsonEncode sample_text; password := sample_password |} = Ok c
    /\ tamper_tag_text 184 c <> c
    /\ Backend.decrypt (H := sample_crypto)
         {| encryptedText := tamper_tag_text 184 c; dec_password := sample_password |}
       = Ok (JString sample_text)
    /\ Frontend.encrypt (H := sample_crypto) sample_rng
         {| plainText := sample_text; password := sample_password |} = Ok c'
    /\ Frontend.decrypt (H := sample_crypto)
         {| encryptedText := tamper_tag_text 184 c'; dec_password := sample_password |}
       = Err DecodeError.
Proof.
  do 2 eexists.
  split; [vm_compute; reflexivity|]. split; [vm_compute; discriminate|].
  split; [vm_compute; reflexivity|]. split; [vm_compute; reflexivity|].
  vm_compute. reflexivity.
Qed.

(** The backend's enhanced private key is the digest itself. *)
Lemma C5_counterexample :
  exists kp digest,
    Backend.generateDHKeyPair (H := sample_crypto) 5 sample_now (Some ("pw" : text))
    = Ok kp
    /\ digest = Z_of_bytes
                  (sha256 (Crypto := sample_crypto)
                     (be_bytes 5
                      ++ sha256 (Crypto := sample_crypto)
                           (("pw" : text) ++ decimal sample_now)))
    /\ parse_radix16 (privateKey kp) = Some digest
    /\ digest <> (digest mod (prime - 1) + 1)%Z.
Proof.
  do 2 eexists. split.
  - apply (backend_enhanced_pair (H := sample_crypto) 5 sample_now "p" "w").
  - split; [reflexivity|]. split.
    + apply parse_radix16_bytes, sha256_nonempty.
    + apply digest_not_incremented.
Qed.

(** Each implementation accepts a text that is not hexadecimal: the backend
    101 pairs of digits followed by [zz], the frontend 101 pairs [+a]. *)
Lemma C9_counterexample :
  Backend.validatePublicKey hex_then_junk = true
  /\ forallb is_hex hex_then_junk = false
  /\ Frontend.validatePublicKey signed_hex = true
  /\ forallb is_hex signed_hex = false.
Proof. repeat split; vm_compute; reflexivity. Qed.

(** ** Instances of the theorems *)

Lemma C10_witness :
  length (split_colon "invalid-format") <> 3%nat
  /\ Backend.decrypt (H := sample_crypto)
       {| encryptedText := "invalid-format"; dec_password := "password" |}
     = Err FormatError
  /\ Backend.dhDecrypt (H := sample_crypto)
       {| dh_encryptedText := "invalid-format"; dh_sharedSecret := "secret" |}
     = Err FormatError
  /\ Frontend.decrypt (H := sample_crypto)
       {| encryptedText := "invalid-format"; dec_password := "password" |}
     = Err FormatError
  /\ Frontend.dhDecrypt (H := sample_crypto)
       {| dh_encryptedText := "invalid-format"; dh_sharedSecret := "secret" |}
     = Err FormatError.
Proof.
  assert (Hn : length (split_colon "invalid-format") <> 3%nat)
    by (vm_compute; discriminate).
  split; [exact Hn|].
  exact (C10_wrong_part_count_is_format_error (H := sample_crypto)
           "invalid-format" "password" "secret" Hn).
Defined.



Lemma C4_witness :
  parse_radix16 "5" = Some 5%Z /\ parse_radix16 "0" = Some 0%Z /\ (0 <= 5)%Z
  /\ (exists bs,
        Z_of_bytes bs = (0 ^ 5 mod prime)%Z
        /\ Frontend.computeSharedSecret (H := sample_crypto)
             {| ss_privateKey := "5"; ss_otherPublicKey := "0"; ss_password := None |}
           = Ok (hex_of_bytes (sha256 (Crypto := sample_crypto) bs)))
  /\ Backend.computeSharedSecret (H := sample_crypto)
       {| ss_privateKey := "05"; ss_otherPublicKey := "01"; ss_password := None |}
     = Err InvalidKey
  /\ (exists secret,
        Backend.computeSharedSecret (H := sample_crypto)
          {| ss_privateKey := "05"; ss_otherPublicKey := "80"; ss_password := None |}
        = Ok secret).
Proof.
  assert (H5 : parse_radix16 "5" = Some 5%Z) by (vm_compute; reflexivity).
  assert (H0 : parse_radix16 "0" = Some 0%Z) by (vm_compute; reflexivity).
  assert (Hx : (0 <= 5)%Z) by (vm_compute; discriminate).
  split; [exact H5|]. split; [exact H0|]. split; [exact Hx|].
  destruct (C4_no_range_validation (H := sample_crypto) "5" "0" None 5 0 H5 H0 Hx)
    as (Hf & Hr & Ha).
  split; [exact Hf|]. split.
  - apply Hr. left. vm_compute. discriminate.
  - eexists. apply (Ha "05" "80" None 7%Z).
    + vm_compute. discriminate.
    + vm_compute. reflexivity.
    + split; vm_compute; reflexivity.
    + vm_compute. discriminate.
Defined.

Lemma C5_witness :
  (0 < 1)%nat /\ first_accepted rng_five 0 = true
  /\ exists privateKeyBytes,
      Frontend._hexToBytes (Frontend._bigIntToHex (candidate rng_five 0))
      = Ok privateKeyBytes
      /\ Z_of_bytes privateKeyBytes = candidate rng_five 0
      /\ let passwordHash :=
           sha256 (Crypto := sample_crypto) (("pw" : text) ++ decimal sample_now) in
         let enhancedPrivateKey :=
           (Z_of_bytes (sha256 (Crypto := sample_crypto)
                          (privateKeyBytes ++ passwordHash))
              mod (prime - 1) + 1)%Z in
         Frontend.generateDHKeyPair (H := sample_crypto) 1 rng_five sample_now
           (Some ("pw" : text))
         = Some (Ok {| privateKey := Frontend._bigIntToHex enhancedPrivateKey;
                       publicKey :=
                         Frontend._bigIntToHex
                           (GENERATOR ^ enhancedPrivateKey mod prime) |}).
Proof.
  assert (Hk : (0 < 1)%nat) by exact (le_n 1).
  assert (Hfa : first_accepted rng_five 0 = true) by (vm_compute; reflexivity).
  split; [exact Hk|]. split; [exact Hfa|].
  exact (proj1 (C5_password_enhanced_key_pair (H := sample_crypto)
                  1 rng_five 0 sample_now "pw" 5 "p" "w" Hk Hfa)).
Defined.

Lemma C7_witness :
  (5 < 128)%nat /\ (3 < 7)%nat
  /\ Frontend._hexToBytes "0a0b" = Ok [chr 10; chr 11]
  /\ Nat.even (js_length "0a0b") = true
  /\ (exists c,
        Frontend.encrypt (H := sample_crypto) sample_rng
          {| plainText := sample_text; password := sample_password |} = Ok c
        /\ Frontend.decrypt (H := sample_crypto)
             {| encryptedText := tamper_tag 5 c; dec_password := sample_password |}
           = Err AuthenticationError)
  /\ (exists c,
        Backend.encrypt (H := sample_crypto) sample_rng
          {| plainText := jsonEncode sample_text; password := sample_password |}
        = Ok c
        /\ tamper_tag_text (184 + 3) c <> c
        /\ Backend.decrypt (H := sample_crypto)
             {| encryptedText := tamper_tag_text (184 + 3) c;
                dec_password := sample_password |}
           = Ok (JString sample_text)).
Proof.
  assert (Hi : (5 < 128)%nat) by (apply Nat.ltb_lt; vm_compute; reflexivity).
  assert (Hk : (3 < 7)%nat) by (apply Nat.ltb_lt; vm_compute; reflexivity).
  assert (Hm : Frontend._hexToBytes "0a0b" = Ok [chr 10; chr 11])
    by (vm_compute; reflexivity).
  assert (Hev : Nat.even (js_length "0a0b") = true) by (vm_compute; reflexivity).
  split; [exact Hi|]. split; [exact Hk|]. split; [exact Hm|]. split; [exact Hev|].
  destruct (C7_flipped_tag_bit_is_rejected (H := sample_crypto) sample_rng
              sample_text sample_password "0a0b" "0a0b" _ 5 3 Hi Hk Hm Hev)
    as (_ & _ & Hf & _ & Hb & _).
  split; [exact Hf | exact Hb].
Defined.

Lemma C8_witness :
  Frontend._hexToBytes "0a0b" = Ok [chr 10; chr 11]
  /\ Nat.even (js_length "0a0b") = true
  /\ (exists c ct iv tag,
        Frontend.encrypt (H := sample_crypto) sample_rng
          {| plainText := sample_text; password := sample_password |} = Ok c
        /\ is_ciphertext c ct iv tag /\ ~ first_segment_empty c)
  /\ (exists c ct iv tag,
        Backend.dhEncrypt (H := sample_crypto) sample_rng
          {| dh_plainText := sample_text; sharedSecret := "0a0b" |} = Ok c
        /\ is_ciphertext c ct iv tag
        /\ (first_segment_empty c <-> sample_text = [])).
Proof.
  assert (Hm : Frontend._hexToBytes "0a0b" = Ok [chr 10; chr 11])
    by (vm_compute; reflexivity).
  assert (Hev : Nat.even (js_length "0a0b") = true) by (vm_compute; reflexivity).
  split; [exact Hm|]. split; [exact Hev|].
  destruct (C8_ciphertext_shape (H := sample_crypto) sample_rng sample_text
              sample_password "0a0b" "0a0b" _ Hm Hev) as (Hf & _ & _ & Hb).
  split; [exact Hf | exact Hb].
Defined.

Lemma C9_witness :
  is_foreign "i" = true /\ is_hex "i" = false /\ (length ([] : text) <= 201)%nat
  /\ forallb is_hex (repeat "a"%char 101) = true
  /\ Frontend.validatePublicKey "invalid-key" = false
  /\ Backend.validatePublicKey "invalid-key" = false
  /\ Backend.validatePublicKey
       (hex_of_bytes (repeat (chr 171) 101) ++ "i"%char :: ("nvalid" : text))
     = true
  /\ Frontend.validatePublicKey signed_hex = true.
Proof.
  assert (Hc : is_foreign "i" = true) by (vm_compute; reflexivity).
  assert (Hd : is_hex "i" = false) by (vm_compute; reflexivity).
  assert (Hl : (length ([] : text) <= 201)%nat) by (apply Nat.le_0_l).
  assert (Hds : forallb is_hex (repeat "a"%char 101) = true)
    by (vm_compute; reflexivity).
  split; [exact Hc|]. split; [exact Hd|]. split; [exact Hl|]. split; [exact Hds|].
  destruct (C9_validatePublicKey [] [] "nvalid-key" "nvalid" (repeat "a"%char 101)
              "i" "i" (repeat (chr 171) 101) Hc Hd Hl Hds)
    as (_ & _ & _ & _ & Hf & Hb & Hj & Hs).
  split; [exact Hf|]. split; [exact Hb|]. split; [exact Hj | exact Hs].
Defined.

(** [decrypt] on the authentic encryption of the JSON text [[1,2]]. *)
Lemma C6_witness :
  utf8_valid "[1,2]" = true /\ has_bom "[1,2]" = false
  /\ Frontend.decrypt (H := sample_crypto)
       {| encryptedText :=
            wire
              (gcm_ctr (H := sample_crypto)
                 (deriveKey (H := sample_crypto) sample_password) "0" "[1,2]")
              "0"
              (gcm_mac (Crypto := sample_crypto)
                 (deriveKey (H := sample_crypto) sample_password) "0"
                 (gcm_ctr (H := sample_crypto)
                    (deriveKey (H := sample_crypto) sample_password) "0" "[1,2]"));
          dec_password := sample_password |}
     = jsonDecode "[1,2]"
  /\ jsonDecode "[1,2]" = Ok (JArray [JNumber "1"; JNumber "2"]).
Proof.
  assert (Hv : utf8_valid "[1,2]" = true) by (vm_compute; reflexivity).
  assert (Hb : has_bom "[1,2]" = false) by (vm_compute; reflexivity).
  split; [exact Hv|]. split; [exact Hb|].
  destruct (C6_what_is_encrypted (H := sample_crypto) sample_rng sample_text
              sample_password "0" [] "[1,2]" Hv Hb) as (_ & _ & _ & Hf & _).
  split; [exact Hf | vm_compute; reflexivity].
Defined.

(** * Further properties of the cipher operations *)

Lemma b64decode_strict_junk (bs : bytes) (c : ascii) :
  b64value c = None -> b64decode_strict (b64encode bs ++ [c]) = None.
Proof.
  intros Hc. induction bs as [|a|a b|a b d r IH] using list_ind3.
  - reflexivity.
  - pose proof (code_lt a).
    cbn [b64encode enc1 app b64decode_strict].
    rewrite !b64value_char by sextet_bound. rewrite b64value_pad.
    now rewrite andb_false_r.
  - pose proof (code_lt a). pose proof (code_lt b).
    cbn [b64encode enc2 app b64decode_strict].
    rewrite !b64value_char by sextet_bound. rewrite b64value_pad.
    now rewrite andb_false_r.
  - pose proof (code_lt a). pose proof (code_lt b). pose proof (code_lt d).
    cbn [b64encode enc3 app b64decode_strict].
    rewrite !b64value_char by sextet_bound. now rewrite IH.
Qed.

Lemma b64_sextets_junk (s : text) (c : ascii) :
  b64value c = None -> b64_sextets (s ++ [c]) = b64_sextets s.
Proof.
  intros Hc. induction s as [|a s IH]; cbn [app b64_sextets].
  - rewrite Hc. now destruct (Ascii.eqb c "=").
  - destruct (b64value a); [now rewrite IH|].
    destruct (Ascii.eqb a "="); [reflexivity | exact IH].
Qed.

Lemma b64decode_lenient_junk (s : text) (c : ascii) :
  b64value c = None -> b64decode_lenient (s ++ [c]) = b64decode_lenient s.
Proof. intros Hc. unfold b64decode_lenient. now rewrite b64_sextets_junk. Qed.

Lemma b64encode_length (bs : bytes) :
  length (b64encode bs) = (4 * ((length bs + 2) / 3))%nat.
Proof.
  induction bs as [|a|a b|a b c r IH] using list_ind3; try reflexivity.
  cbn [b64encode enc3 app length]. rewrite IH.
  replace (S (S (S (length r))) + 2)%nat with (1 * 3 + (length r + 2))%nat by lia.
  rewrite Nat.div_add_l by discriminate. lia.
Qed.

Section CipherExtras.
Context `{Crypto}.

Lemma wire_junk (ct iv tag : bytes) (c : ascii) :
  Ascii.eqb c ":" = false ->
  split_colon (wire ct iv tag ++ [c])
  = [b64encode ct; b64encode iv; b64encode tag ++ [c]].
Proof.
  intros Hc. unfold wire. rewrite <- !app_assoc. cbn [list_ascii_of_string app].
  apply split_three; try apply b64encode_colon_free.
  apply Forall_app. split; [apply b64encode_colon_free|]. now repeat constructor.
Qed.

Lemma truncate_tag_wire (n : nat) (ct iv tag : bytes) :
  truncate_tag n (wire ct iv tag) = wire ct iv (firstn n tag).
Proof.
  unfold truncate_tag. rewrite wire_split. now rewrite b64decode_lenient_encode.
Qed.

Lemma move_boundary_wire (n : nat) (ct iv tag : bytes) :
  move_boundary n (wire ct iv tag) = wire (firstn n ct) iv (skipn n ct ++ tag).
Proof.
  unfold move_boundary. rewrite wire_split.
  now rewrite !b64decode_lenient_encode.
Qed.

(** Node accepts the leading [n] bytes of the right tag when [n] is a tag
    length it allows. *)
Lemma node_open_short_tag (key ct iv : bytes) (n : nat) :
  length key = 32%nat -> iv <> [] -> node_tag_length_ok n = true ->
  node_open key (wire ct iv (firstn n (gcm_mac key iv ct)))
  = jsonDecode (gcm_ctr key iv ct).
Proof.
  intros Hk Hiv Hn. unfold node_open. rewrite wire_split.
  rewrite !b64decode_lenient_encode. unfold node_gcm_decrypt.
  rewrite gcm_init_ok by assumption. cbn [bind].
  assert (Hl : length (firstn n (gcm_mac key iv ct)) = n).
  { rewrite length_firstn, gcm_mac_length.
    unfold node_tag_length_ok in Hn. lia. }
  rewrite Hl, Hn. cbn [negb]. now rewrite bytes_eqb_refl.
Qed.

(** A tag segment of more than 16 bytes is refused by Node. *)
Lemma node_open_long_tag (key ct iv tag : bytes) :
  length key = 32%nat -> iv <> [] -> (16 < length tag)%nat ->
  node_open key (wire ct iv tag) = Err CipherError.
Proof.
  intros Hk Hiv Hl. unfold node_open. rewrite wire_split.
  rewrite !b64decode_lenient_encode. unfold node_gcm_decrypt.
  rewrite gcm_init_ok by assumption. cbn [bind].
  replace (node_tag_length_ok (length tag)) with false; [reflexivity|].
  unfold node_tag_length_ok. lia.
Qed.

(** The frontend reads the tag off the end of the two decoded segments put
    together, wherever the boundary between them lies. *)
Lemma dart_open_boundary (key ct1 ct2 iv tag : bytes) :
  dart_open key (wire ct1 iv (ct2 ++ tag)) = dart_open key (wire (ct1 ++ ct2) iv tag).
Proof.
  unfold dart_open. rewrite !wire_split, !b64decode_strict_encode.
  cbn [of_option bind]. now rewrite app_assoc.
Qed.

(** X1: in the frontend, [dhDecrypt] of what [dhEncrypt] returned, under the
    same shared secret, gives the plaintext back, for every plaintext, every
    IV drawn and every shared secret that [_hexToBytes] decodes. *)
Theorem X1_frontend_dh_round_trip (r : rng) (P S : text) (m : bytes) :
  Frontend._hexToBytes S = Ok m ->
  exists c,
    Frontend.dhEncrypt r {| dh_plainText := P; sharedSecret := S |} = Ok c
    /\ Frontend.dhDecrypt {| dh_encryptedText := c; dh_sharedSecret := S |}
       = Ok (JString P).
Proof.
  intros Hm. eexists. split.
  - rewrite frontend_dhEncrypt_seal. cbn [sharedSecret dh_plainText].
    rewrite Hm. cbn [bind]. apply dart_seal_ok, deriveKey_length.
  - rewrite (frontend_dhDecrypt_open _ m) by exact Hm.
    cbn [dh_encryptedText].
    rewrite dart_open_wire by (apply deriveKey_length || apply iv_nonempty).
    now rewrite gcm_ctr_involutive, jsonDecode_jsonEncode.
Qed.

(** X2: in the backend, [dhDecrypt] of what [dhEncrypt] returned, under the
    same shared secret, is [JSON.parse] of the plaintext: the string [P] when
    the caller passed [JSON.stringify(P)]. This holds for every text of even
    length given as the shared secret, hexadecimal or not. A shared secret
    of odd length is refused by [hash.update(_, 'hex')]: [dhEncrypt] raises
    an error, and so does [dhDecrypt] once the text has its three parts. *)
Theorem X2_backend_dh_round_trip (r : rng) (P S So : text) :
  Nat.even (js_length S) = true -> Nat.odd (js_length So) = true ->
  (exists c,
      Backend.dhEncrypt r {| dh_plainText := jsonEncode P; sharedSecret := S |} = Ok c
      /\ Backend.dhDecrypt {| dh_encryptedText := c; dh_sharedSecret := S |}
         = Ok (JString P))
  /\ (exists c,
      Backend.dhEncrypt r {| dh_plainText := P; sharedSecret := S |} = Ok c
      /\ Backend.dhDecrypt {| dh_encryptedText := c; dh_sharedSecret := S |}
         = jsonDecode P)
  /\ Backend.dhEncrypt r {| dh_plainText := P; sharedSecret := So |}
     = Err EncodingError
  /\ (forall c, length (split_colon c) = 3%nat ->
                Backend.dhDecrypt {| dh_encryptedText := c; dh_sharedSecret := So |}
                = Err EncodingError).
Proof.
  intros Hev Hodd. apply hash_update_hex_even in Hev.
  apply hash_update_hex_odd in Hodd.
  split; [|split; [|split]].
  1, 2: eexists; (split;
    [ rewrite backend_dhEncrypt_seal; cbn [sharedSecret dh_plainText];
      rewrite Hev; cbn [bind]; apply node_seal_ok, deriveKey_length
    | rewrite (backend_dhDecrypt_open _ (node_hex_decode S)) by exact Hev;
      cbn [dh_encryptedText dh_sharedSecret sharedSecret];
      rewrite node_open_wire by (apply deriveKey_length || apply iv_nonempty);
      cbn [dh_plainText]; rewrite gcm_ctr_involutive ]).
  - apply jsonDecode_jsonEncode.
  - reflexivity.
  - rewrite backend_dhEncrypt_seal. cbn [sharedSecret dh_plainText].
    now rewrite Hodd.
  - intros c Hc. unfold Backend.dhDecrypt. cbv zeta.
    cbn [dh_encryptedText dh_sharedSecret]. rewrite Hc, Hodd. reflexivity.
Qed.

(** X3: the password ciphers of the two implementations open each other's
    CipherTexts. What the frontend's [encrypt] returned, the backend's
    [decrypt] turns into the plaintext string; what the backend's [encrypt]
    returned for [JSON.stringify(P)], the frontend's [decrypt] turns into
    the string [P]. *)
Theorem X3_password_cipher_interoperates (r : rng) (P W : text) :
  (exists c,
      Frontend.encrypt r {| plainText := P; password := W |} = Ok c
      /\ Backend.decrypt {| encryptedText := c; dec_password := W |}
         = Ok (JString P))
  /\ (exists c,
      Backend.encrypt r {| plainText := jsonEncode P; password := W |} = Ok c
      /\ Frontend.decrypt {| encryptedText := c; dec_password := W |}
         = Ok (JString P)).
Proof.
  pose proof (deriveKey_length W) as Hk. pose proof (iv_nonempty r) as Hiv.
  split; eexists.
  - split.
    + rewrite frontend_encrypt_seal. apply dart_seal_ok, Hk.
    + rewrite backend_decrypt_open. cbn [encryptedText dec_password plainText password].
      rewrite node_open_wire by assumption.
      now rewrite gcm_ctr_involutive, jsonDecode_jsonEncode.
  - split.
    + rewrite backend_encrypt_seal. apply node_seal_ok, Hk.
    + rewrite frontend_decrypt_open. cbn [encryptedText dec_password plainText password].
      rewrite dart_open_wire by assumption.
      now rewrite gcm_ctr_involutive, jsonDecode_jsonEncode.
Qed.

(** X4: under a shared secret that is the lowercase hexadecimal text of a
    byte string, as [computeSharedSecret] returns it, the shared-secret
    ciphers of the two implementations open each other's CipherTexts: from
    the frontend to the backend, and from the backend (given
    [JSON.stringify(P)]) to the frontend. *)
Theorem X4_dh_cipher_interoperates (r : rng) (P : text) (d : bytes) :
  let S := hex_of_bytes d in
  (exists c,
      Frontend.dhEncrypt r {| dh_plainText := P; sharedSecret := S |} = Ok c
      /\ Backend.dhDecrypt {| dh_encryptedText := c; dh_sharedSecret := S |}
         = Ok (JString P))
  /\ (exists c,
      Backend.dhEncrypt r {| dh_plainText := jsonEncode P; sharedSecret := S |} = Ok c
      /\ Frontend.dhDecrypt {| dh_encryptedText := c; dh_sharedSecret := S |}
         = Ok (JString P)).
Proof.
  intros S. pose proof (deriveKey_length d) as Hk. pose proof (iv_nonempty r) as Hiv.
  pose proof (hexToBytes_hex_of_bytes d) as Hm. fold S in Hm.
  split; eexists.
  - split.
    + rewrite frontend_dhEncrypt_seal. cbn [sharedSecret dh_plainText].
      rewrite Hm. cbn [bind]. apply dart_seal_ok, Hk.
    + rewrite (backend_dhDecrypt_open _ d) by apply hash_update_hex_bytes.
      cbn [dh_encryptedText dh_sharedSecret].
      rewrite node_open_wire by assumption.
      now rewrite gcm_ctr_involutive, jsonDecode_jsonEncode.
  - split.
    + rewrite backend_dhEncrypt_seal. cbn [sharedSecret dh_plainText].
      subst S. rewrite hash_update_hex_bytes. cbn [bind].
      apply node_seal_ok, Hk.
    + rewrite (frontend_dhDecrypt_open _ d) by exact Hm.
      cbn [dh_encryptedText].
      rewrite dart_open_wire by assumption.
      now rewrite gcm_ctr_involutive, jsonDecode_jsonEncode.
Qed.

(** X5: decryption under another password. When the GCM tag that the key of
    the password [W'] gives to the ciphertext is not the tag it carries,
    [decrypt] of both implementations raises AuthenticationError on what
    [encrypt] returned under [W]; no plaintext, right or wrong, comes back. *)
Theorem X5_other_password_is_refused (r : rng) (P W W' : text) :
  let iv := randomBytes r 0 16 in
  let ct := gcm_ctr (deriveKey W) iv (jsonEncode P) in
  gcm_mac (deriveKey W') iv ct <> gcm_mac (deriveKey W) iv ct ->
  exists c,
    Frontend.encrypt r {| plainText := P; password := W |} = Ok c
    /\ Frontend.decrypt {| encryptedText := c; dec_password := W' |}
       = Err AuthenticationError
    /\ Backend.decrypt {| encryptedText := c; dec_password := W' |}
       = Err AuthenticationError.
Proof.
  intros iv ct Hne. eexists. split; [|split].
  - rewrite frontend_encrypt_seal. apply dart_seal_ok, deriveKey_length.
  - rewrite frontend_decrypt_open. cbn [encryptedText dec_password plainText password].
    apply dart_open_bad_tag;
      [apply deriveKey_length | apply iv_nonempty | apply gcm_mac_length|].
    intros He. apply Hne. symmetry. exact He.
  - rewrite backend_decrypt_open. cbn [encryptedText dec_password plainText password].
    apply node_open_bad_tag;
      [apply deriveKey_length | apply iv_nonempty | apply gcm_mac_length|].
    intros He. apply Hne. symmetry. exact He.
Qed.

(** X6: the backend does not insist on a 16-byte tag. [createDecipheriv] is
    called without [authTagLength], so Node.js takes a tag of 4, 8 or 12 to
    16 bytes and compares only that many: a CipherText whose auth-tag segment
    holds just the first [n] bytes of the tag still decrypts, in [decrypt]
    and, under a shared secret of even length, in [dhDecrypt]. *)
Theorem X6_backend_accepts_truncated_tag (r : rng) (P W S : text) (n : nat) :
  node_tag_length_ok n = true ->
  Nat.even (js_length S) = true ->
  (exists c,
      Backend.encrypt r {| plainText := jsonEncode P; password := W |} = Ok c
      /\ Backend.decrypt {| encryptedText := truncate_tag n c; dec_password := W |}
         = Ok (JString P))
  /\ (exists c,
      Backend.dhEncrypt r {| dh_plainText := jsonEncode P; sharedSecret := S |} = Ok c
      /\ Backend.dhDecrypt
           {| dh_encryptedText := truncate_tag n c; dh_sharedSecret := S |}
         = Ok (JString P)).
Proof.
  intros Hn Hev. apply hash_update_hex_even in Hev. split; eexists.
  - split.
    + rewrite backend_encrypt_seal. apply node_seal_ok, deriveKey_length.
    + rewrite backend_decrypt_open. cbn [encryptedText dec_password plainText password].
      rewrite truncate_tag_wire.
      rewrite node_open_short_tag
        by (apply deriveKey_length || apply iv_nonempty || exact Hn).
      now rewrite gcm_ctr_involutive, jsonDecode_jsonEncode.
  - split.
    + rewrite backend_dhEncrypt_seal. cbn [sharedSecret dh_plainText].
      rewrite Hev. cbn [bind]. apply node_seal_ok, deriveKey_length.
    + rewrite (backend_dhDecrypt_open _ (node_hex_decode S)) by exact Hev.
      cbn [dh_encryptedText dh_sharedSecret dh_plainText sharedSecret].
      rewrite truncate_tag_wire.
      rewrite node_open_short_tag
        by (apply deriveKey_length || apply iv_nonempty || exact Hn).
      now rewrite gcm_ctr_involutive, jsonDecode_jsonEncode.
Qed.

(** X7: the frontend does not look at where the ciphertext segment ends and
    the auth-tag segment begins: it joins the two decoded segments and takes
    the last 16 bytes as the tag. Moving any number of trailing ciphertext
    bytes of a CipherText from [encrypt] into its auth-tag segment leaves the
    result of the frontend's [decrypt] the plaintext; the backend's [decrypt]
    refuses such a CipherText as soon as one byte was moved, because its tag
    is then longer than 16 bytes. *)
Theorem X7_frontend_ignores_segment_boundary (r : rng) (P W : text) (n : nat) :
  exists c,
    Frontend.encrypt r {| plainText := P; password := W |} = Ok c
    /\ Frontend.decrypt {| encryptedText := move_boundary n c; dec_password := W |}
       = Ok (JString P)
    /\ Backend.decrypt {| encryptedText := move_boundary n c; dec_password := W |}
       = if (length (jsonEncode P) <=? n)%nat then Ok (JString P)
         else Err CipherError.
Proof.
  pose proof (deriveKey_length W) as Hk. pose proof (iv_nonempty r) as Hiv.
  eexists. split; [|split].
  - rewrite frontend_encrypt_seal. apply dart_seal_ok, Hk.
  - rewrite frontend_decrypt_open. cbn [encryptedText dec_password plainText password].
    rewrite move_boundary_wire, dart_open_boundary, firstn_skipn.
    rewrite dart_open_wire by assumption.
    now rewrite gcm_ctr_involutive, jsonDecode_jsonEncode.
  - rewrite backend_decrypt_open. cbn [encryptedText dec_password plainText password].
    rewrite move_boundary_wire.
    set (ct := gcm_ctr (deriveKey W) (randomBytes r 0 16) (jsonEncode P)).
    assert (Hl : length ct = length (jsonEncode P)) by apply gcm_ctr_length.
    destruct (length (jsonEncode P) <=? n)%nat eqn:Hle.
    + apply Nat.leb_le in Hle.
      rewrite firstn_all2, skipn_all2 by lia. cbn [app].
      rewrite node_open_wire by assumption. subst ct.
      now rewrite gcm_ctr_involutive, jsonDecode_jsonEncode.
    + apply Nat.leb_gt in Hle. apply node_open_long_tag; try assumption.
      rewrite length_app, length_skipn, gcm_mac_length. lia.
Qed.

(** X8: a line break after a CipherText. Node's base64 decoder skips
    characters outside its alphabet, so the backend's [decrypt] returns on
    the CipherText followed by a newline what it returns on the CipherText;
    Dart's [base64.decode] does not, so the frontend's [decrypt] raises on
    it. *)
Theorem X8_trailing_newline (r : rng) (P W : text) :
  exists c,
    Frontend.encrypt r {| plainText := P; password := W |} = Ok c
    /\ Backend.decrypt {| encryptedText := c ++ [newline]; dec_password := W |}
       = Ok (JString P)
    /\ Frontend.decrypt {| encryptedText := c ++ [newline]; dec_password := W |}
       = Err DecodeError.
Proof.
  pose proof (deriveKey_length W) as Hk. pose proof (iv_nonempty r) as Hiv.
  eexists. split; [|split].
  - rewrite frontend_encrypt_seal. apply dart_seal_ok, Hk.
  - rewrite backend_decrypt_open. cbn [encryptedText dec_password plainText password].
    unfold node_open. rewrite wire_junk by reflexivity.
    rewrite b64decode_lenient_junk by reflexivity.
    rewrite !b64decode_lenient_encode, node_gcm_decrypt_ok by assumption.
    cbn [bind]. now rewrite gcm_ctr_involutive, jsonDecode_jsonEncode.
  - rewrite frontend_decrypt_open. cbn [encryptedText dec_password plainText password].
    unfold dart_open. rewrite wire_junk by reflexivity.
    rewrite !b64decode_strict_encode, b64decode_strict_junk by reflexivity.
    reflexivity.
Qed.

Lemma wire_length (ct iv tag : bytes) :
  length iv = 16%nat -> length tag = 16%nat ->
  length (wire ct iv tag) = (4 * ((length ct + 2) / 3) + 50)%nat.
Proof.
  intros Hiv Htag. unfold wire.
  rewrite !length_app, !b64encode_length, Hiv, Htag.
  change (length (list_ascii_of_string ":")) with 1%nat.
  change ((16 + 2) / 3)%nat with 6%nat. lia.
Qed.

(** X20: the length of a CipherText is fixed by the length of the text
    that was encrypted: [4 * ceil(n / 3) + 50] characters for [n] bytes,
    where [n] is the length of the plaintext in the backend and the length of
    its JSON text, at least two more, in the frontend. Nothing pads or hides
    the length. *)
Theorem X20_ciphertext_length (r : rng) (P W : text) :
  (exists c,
      Backend.encrypt r {| plainText := P; password := W |} = Ok c
      /\ length c = (4 * ((length P + 2) / 3) + 50)%nat)
  /\ (exists c,
      Frontend.encrypt r {| plainText := P; password := W |} = Ok c
      /\ length c = (4 * ((length (jsonEncode P) + 2) / 3) + 50)%nat
      /\ (length P + 2 <= length (jsonEncode P))%nat).
Proof.
  pose proof (deriveKey_length W) as Hk.
  split; eexists.
  - split.
    + rewrite backend_encrypt_seal. apply node_seal_ok, Hk.
    + cbn [plainText password].
      rewrite wire_length by (apply randomBytes_length || apply gcm_mac_length).
      now rewrite gcm_ctr_length.
  - split; [|split].
    + rewrite frontend_encrypt_seal. apply dart_seal_ok, Hk.
    + cbn [plainText password].
      rewrite wire_length by (apply randomBytes_length || apply gcm_mac_length).
      now rewrite gcm_ctr_length.
    + unfold jsonEncode. cbn [length]. rewrite length_app. cbn [length].
      assert (Hl : (length P <= length (flat_map json_escape P))%nat).
      { induction P as [|ch P IH]; [apply Nat.le_refl|].
        cbn [flat_map]. rewrite length_app. cbn [length].
        assert (1 <= length (json_escape ch))%nat
          by (all_bytes ch; cbn; lia).
        lia. }
      lia.
Qed.

End CipherExtras.

(** * Big-endian byte strings *)

#[local] Transparent toRadixString16.

(** A byte string without a leading zero byte. *)
Lemma N_of_bytes_from_lower (a : N) (bs : bytes) :
  (a * 256 ^ N.of_nat (length bs) <= N_of_bytes_from a bs)%N.
Proof.
  revert a. induction bs as [|b bs IH]; intros a.
  - cbn. rewrite N.mul_1_r. apply N.le_refl.
  - unfold N_of_bytes_from in *. cbn [fold_left length].
    rewrite Nat2N.inj_succ, N.pow_succ_r'.
    eapply N.le_trans; [|apply IH].
    rewrite N.mul_assoc. apply N.mul_le_mono_r.
    apply N.le_add_r.
Qed.

Lemma N_of_bytes_from_inj (a a' : N) (bs bs' : bytes) :
  length bs = length bs' ->
  N_of_bytes_from a bs = N_of_bytes_from a' bs' -> a = a' /\ bs = bs'.
Proof.
  revert a a' bs'. induction bs as [|b bs IH]; intros a a' [|b' bs'] Hl Hv;
    try discriminate.
  - now split.
  - unfold N_of_bytes_from in *. cbn [fold_left] in Hv.
    injection Hl as Hl. destruct (IH _ _ _ Hl Hv) as [Ha ->].
    pose proof (code_lt b). pose proof (code_lt b').
    assert (Hc : code b = code b').
    { apply (f_equal (fun x => x mod 256)%N) in Ha.
      rewrite !(N.add_comm (_ * 256)), !N.Div0.mod_add in Ha.
      now rewrite !N.mod_small in Ha by assumption. }
    split.
    + rewrite Hc in Ha. apply N.add_cancel_r in Ha.
      now apply N.mul_cancel_r in Ha.
    + f_equal. rewrite <- (chr_code b), <- (chr_code b'). now rewrite Hc.
Qed.

(** Two byte strings without leading zero that denote the same number are
    the same. *)
Lemma canonical_bytes_unique (b b' : ascii) (r r' : bytes) :
  code b <> 0%N -> code b' <> 0%N ->
  N_of_bytes (b :: r) = N_of_bytes (b' :: r') -> b :: r = b' :: r'.
Proof.
  intros Hb Hb' Hv.
  assert (Hlen : forall (c c' : ascii) (s s' : bytes),
             code c <> 0%N -> N_of_bytes (c :: s) = N_of_bytes (c' :: s') ->
             (length s <= length s')%nat).
  { intros c c' s s' Hc He.
    pose proof (N_of_bytes_from_lower (0 * 256 + code c) s) as Hlo.
    pose proof (N_of_bytes_from_bound (0 * 256 + code c') s') as Hhi.
    unfold N_of_bytes, N_of_bytes_from in He, Hlo, Hhi.
    cbn [fold_left] in He. rewrite He in Hlo.
    pose proof (code_lt c').
    assert (Hlt : (256 ^ N.of_nat (length s) < 256 * 256 ^ N.of_nat (length s'))%N).
    { eapply N.le_lt_trans; [|eapply N.lt_le_trans; [exact Hhi|]].
      - eapply N.le_trans; [|exact Hlo].
        rewrite <- (N.mul_1_l (256 ^ _)) at 1. apply N.mul_le_mono_r.
        lia.
      - apply N.mul_le_mono_r. lia. }
    rewrite <- N.pow_succ_r' in Hlt.
    apply N.pow_lt_mono_r_iff in Hlt; [|reflexivity]. lia. }
  pose proof (Hlen _ _ _ _ Hb Hv) as H1.
  pose proof (Hlen _ _ _ _ Hb' (eq_sym Hv)) as H2.
  assert (Hl : length (b :: r) = length (b' :: r')) by (cbn [length]; lia).
  exact (proj2 (N_of_bytes_from_inj 0 0 _ _ Hl Hv)).
Qed.

Lemma be_bytes_aux_zero (fuel : nat) (acc : bytes) : be_bytes_aux fuel 0 acc = acc.
Proof. now destruct fuel. Qed.

Lemma be_bytes_aux_head (fuel : nat) (n : N) :
  n <> 0%N -> (n < 2 ^ N.of_nat fuel)%N ->
  exists b r, be_bytes_aux fuel n [] = b :: r /\ code b <> 0%N.
Proof.
  revert n. induction fuel as [|f IH]; intros n Hn Hlt.
  - cbn in Hlt. lia.
  - cbn [be_bytes_aux]. destruct (n =? 0)%N eqn:Hz; [apply N.eqb_eq in Hz; contradiction|].
    rewrite be_bytes_aux_acc.
    destruct (N.eq_dec (n / 256) 0) as [Hq|Hq].
    + rewrite Hq, be_bytes_aux_zero. cbn [app]. do 2 eexists. split; [reflexivity|].
      rewrite code_chr by (apply N.mod_lt; discriminate).
      apply N.div_small_iff in Hq; [|discriminate].
      now rewrite N.mod_small.
    + destruct (IH (n / 256)%N Hq) as (b & r & -> & Hb).
      * rewrite Nat2N.inj_succ, N.pow_succ_r' in Hlt.
        apply N.Div0.div_lt_upper_bound.
        assert (0 < 2 ^ N.of_nat f)%N by (apply N.neq_0_lt_0, N.pow_nonzero; discriminate).
        lia.
      * cbn [app]. now do 2 eexists.
Qed.

Lemma hex_digits_zero (fuel : nat) (acc : text) : hex_digits fuel 0 acc = acc.
Proof. now destruct fuel. Qed.

Lemma hex_digits_head (fuel : nat) (n : N) :
  n <> 0%N -> (n < 2 ^ N.of_nat fuel)%N ->
  exists d r, hex_digits fuel n [] = hexDigit d :: r /\ d <> 0%N /\ (d < 16)%N.
Proof.
  revert n. induction fuel as [|f IH]; intros n Hn Hlt.
  - cbn in Hlt. lia.
  - cbn [hex_digits]. destruct (n =? 0)%N eqn:Hz; [apply N.eqb_eq in Hz; contradiction|].
    rewrite hex_digits_acc.
    destruct (N.eq_dec (n / 16) 0) as [Hq|Hq].
    + rewrite Hq, hex_digits_zero. cbn [app]. do 2 eexists. split; [reflexivity|].
      apply N.div_small_iff in Hq; [|discriminate].
      rewrite N.mod_small by assumption. now split.
    + destruct (IH (n / 16)%N Hq) as (d & r & -> & Hd).
      * rewrite Nat2N.inj_succ, N.pow_succ_r' in Hlt.
        apply N.Div0.div_lt_upper_bound.
        assert (0 < 2 ^ N.of_nat f)%N by (apply N.neq_0_lt_0, N.pow_nonzero; discriminate).
        lia.
      * cbn [app]. now do 2 eexists.
Qed.

(** The first byte that [parse_hex_pairs] reads off a run of digits whose
    first digit, or second digit after a leading zero, is not zero. *)
Lemma parse_hex_pairs_head (a b : ascii) (r : text) (ha hb : N) (bs : bytes) :
  hexValue a = Some ha -> hexValue b = Some hb -> (ha * 16 + hb <> 0)%N ->
  parse_hex_pairs (a :: b :: r) = Ok bs ->
  exists c rest, bs = c :: rest /\ code c <> 0%N.
Proof.
  intros Ha Hb Hne Hp. cbn [parse_hex_pairs] in Hp.
  rewrite (parse_radix16_pair _ _ _ _ Ha Hb) in Hp. cbn [of_option bind] in Hp.
  destruct (parse_hex_pairs r) as [rest|]; [|discriminate].
  cbn [bind] in Hp. injection Hp as <-.
  pose proof (hexValue_lt _ _ Ha). pose proof (hexValue_lt _ _ Hb).
  do 2 eexists. split; [reflexivity|].
  rewrite uint8_of_N by lia. now rewrite code_chr by lia.
Qed.

(** [_hexToBytes(_bigIntToHex(v))] is the big-endian byte string of [v]
    without leading zero bytes, for every positive [v]. *)
Lemma hexToBytes_bigIntToHex_be (p : positive) :
  Frontend._hexToBytes (Frontend._bigIntToHex (Zpos p)) = Ok (be_bytes (Npos p)).
Proof.
  destruct (hexToBytes_bigIntToHex (Zpos p)) as (bs & Hp & Hv); [lia|].
  rewrite Hp. f_equal.
  assert (Hbe : exists b r, be_bytes (Npos p) = b :: r /\ code b <> 0%N).
  { unfold be_bytes. apply be_bytes_aux_head; [discriminate|].
    rewrite N2Nat.id. apply N.size_gt. }
  destruct Hbe as (b & r & Hbe & Hb).
  assert (Hhd : exists c rest, bs = c :: rest /\ code c <> 0%N).
  { unfold Frontend._hexToBytes, Frontend._bigIntToHex in Hp.
    cbn [toRadixString16] in Hp. unfold hex_of_pos in Hp.
    pose proof (hex_digits_is_hex (Pos.size_nat p) (Npos p) [] (Forall_nil _)) as Hall.
    destruct (hex_digits_head (Pos.size_nat p) (Npos p)) as (d & s & Hs & Hd0 & Hd);
      [discriminate | apply pos_lt_size|].
    rewrite Hs in Hp, Hall.
    destruct (Nat.odd (length (hexDigit d :: s))) eqn:Hodd.
    - apply (parse_hex_pairs_head _ _ _ 0 d) with (1 := eq_refl) (4 := Hp).
      + now apply hexValue_digit.
      + lia.
    - destruct s as [|c2 s]; [discriminate|].
      inversion Hall as [|? ? _ Hall1]; subst. inversion Hall1 as [|? ? Hc2 _]; subst.
      unfold is_hex in Hc2. destruct (hexValue c2) as [d2|] eqn:E2; [|discriminate].
      apply (parse_hex_pairs_head _ _ _ d d2) with (2 := E2) (4 := Hp).
      + now apply hexValue_digit.
      + lia. }
  destruct Hhd as (c & rest & -> & Hc).
  rewrite Hbe. apply canonical_bytes_unique; try assumption.
  rewrite <- Hbe. apply N2Z.inj. fold (Z_of_bytes (c :: rest)).
  fold (Z_of_bytes (be_bytes (Npos p))). now rewrite Z_of_be_bytes, Hv.
Qed.

(** The number of bytes of a positive number. *)
Lemma be_bytes_length (n : N) (k : nat) :
  n <> 0%N ->
  ((k < length (be_bytes n))%nat <-> (256 ^ N.of_nat k <= n)%N).
Proof.
  intros Hn.
  assert (Hbe : exists b r, be_bytes n = b :: r /\ code b <> 0%N).
  { unfold be_bytes. apply be_bytes_aux_head; [assumption|].
    rewrite N2Nat.id. apply N.size_gt. }
  destruct Hbe as (b & r & Hbe & Hb).
  pose proof (Z_of_be_bytes n) as Hv. unfold Z_of_bytes in Hv. apply N2Z.inj in Hv.
  rewrite Hbe in *. clear Hbe.
  pose proof (N_of_bytes_from_lower (0 * 256 + code b) r) as Hlo.
  pose proof (N_of_bytes_from_bound 0 (b :: r)) as Hhi.
  change (N_of_bytes_from (0 * 256 + code b) r) with (N_of_bytes (b :: r)) in Hlo.
  change (N_of_bytes_from 0 (b :: r)) with (N_of_bytes (b :: r)) in Hhi.
  rewrite Hv in Hlo, Hhi. change (0 + 1)%N with 1%N in Hhi.
  rewrite N.mul_1_l in Hhi.
  assert (Hlo' : (256 ^ N.of_nat (length r) <= n)%N).
  { eapply N.le_trans; [|exact Hlo].
    rewrite <- (N.mul_1_l (256 ^ _)) at 1. apply N.mul_le_mono_r. lia. }
  cbn [length]. split.
  - intros Hk. eapply N.le_trans; [|exact Hlo'].
    apply N.pow_le_mono_r; [discriminate | lia].
  - intros Hk.
    assert (Hlt : (256 ^ N.of_nat k < 256 ^ N.of_nat (length (b :: r)))%N)
      by (eapply N.le_lt_trans; eassumption).
    apply N.pow_lt_mono_r_iff in Hlt; [cbn [length] in Hlt; lia | reflexivity].
Qed.

#[local] Opaque toRadixString16.

(** * Further properties of the key agreement *)

Lemma prime_below : (prime < 256 ^ 256)%Z.
Proof. vm_compute. reflexivity. Qed.

Lemma pow256_N_Z (k : nat) (n : N) :
  (256 ^ N.of_nat k <= n)%N <-> (256 ^ Z.of_nat k <= Z.of_N n)%Z.
Proof. now rewrite N2Z.inj_le, N2Z.inj_pow, nat_N_Z. Qed.

Lemma sample_private_none_iff (fuel : nat) (r : rng) (k0 : nat) :
  Frontend.sample_private fuel r k0 prime = None
  <-> forallb (fun j => negb (accepted (candidate r j))) (seq k0 fuel) = true.
Proof.
  revert k0. induction fuel as [|f IH]; intros k0.
  - cbn [Frontend.sample_private seq forallb]. split; reflexivity.
  - rewrite sample_private_step, forallb_seq_succ.
    destruct (accepted (candidate r k0)); cbn [negb andb].
    + split; discriminate.
    + apply IH.
Qed.

Section DHExtras.
Context `{Crypto}.

Lemma hexToBytes_magnitude (v : Z) :
  (0 <= v)%Z ->
  Frontend._hexToBytes (Frontend._bigIntToHex v) = Ok (magnitude_bytes v).
Proof.
  intros Hv. destruct v as [|p|p].
  - vm_compute. reflexivity.
  - apply hexToBytes_bigIntToHex_be.
  - exfalso. apply Hv. reflexivity.
Qed.

(** The padded secret of Node and the byte string of Dart. *)
Lemma pad_left_magnitude (s : Z) :
  (0 <= s < prime)%Z ->
  pad_left 256 (be_bytes (Z.to_N s)) = magnitude_bytes s <-> (256 ^ 255 <= s)%Z.
Proof.
  intros [Hs0 Hsp]. pose proof prime_below as Hpb.
  assert (Hpos : (0 < 256 ^ 255)%Z) by (apply Z.pow_pos_nonneg; lia).
  destruct s as [|p|p]; [| |exfalso; apply Hs0; reflexivity].
  - split; [|lia]. intros He. apply (f_equal (@length ascii)) in He.
    vm_compute in He. discriminate.
  - cbn [magnitude_bytes Z.to_N].
    pose proof (be_bytes_length (Npos p) 255 ltac:(discriminate)) as H255.
    pose proof (be_bytes_length (Npos p) 256 ltac:(discriminate)) as H256.
    rewrite pow256_N_Z in H255, H256.
    change (Z.of_nat 255) with 255%Z in H255.
    change (Z.of_nat 256) with 256%Z in H256.
    change (Z.of_N (Npos p)) with (Zpos p) in H255, H256.
    assert (Hle : (length (be_bytes (Npos p)) <= 256)%nat).
    { apply Nat.nlt_ge. intros Hgt. apply H256 in Hgt. lia. }
    unfold pad_left. split.
    + intros He. apply H255. apply (f_equal (@length ascii)) in He.
      rewrite length_app, repeat_length in He. lia.
    + intros Hge. apply H255 in Hge.
      replace (256 - length (be_bytes (Npos p)))%nat with 0%nat by lia.
      reflexivity.
Qed.

(** Every key pair of the backend is a private byte string and the bytes
    of the public value that belongs to it. *)
Lemma backend_keypair_shape (libPrivate : N) (now : Z) (pw : option text) :
  exists pa,
    Backend.generateDHKeyPair libPrivate now pw
    = Ok {| privateKey := hex_of_bytes pa;
            publicKey :=
              hex_of_bytes
                (be_bytes (Z.to_N (GENERATOR ^ Z_of_bytes pa mod prime))) |}.
Proof.
  unfold Backend.generateDHKeyPair. rewrite node_prime.
  pose proof prime_positive as Hp. rewrite modPow_spec by lia. cbn [bind].
  destruct (Backend.truthy pw).
  - eexists. rewrite modPow_spec; [reflexivity | apply Z_of_bytes_bound | lia].
  - exists (be_bytes libPrivate). now rewrite Z_of_be_bytes.
Qed.

(** X9: what [computeSharedSecret] of the frontend returns on key texts of
    ASCII characters. It raises a FormatException when one of the two texts
    is not a hexadecimal integer and an ArgumentError (from [modPow]) when the
    private key is negative; otherwise it returns the hexadecimal digest of
    the big-endian bytes of [otherPublicKey ^ privateKey mod prime], SHA-512
    with the password bytes appended when a password is given and SHA-256
    without. *)
Theorem X9_frontend_computeSharedSecret (priv pub : text) (pw : option text) :
  all_ascii priv = true -> all_ascii pub = true ->
  Frontend.computeSharedSecret
    {| ss_privateKey := priv; ss_otherPublicKey := pub; ss_password := pw |}
  = match parse_radix16 priv, parse_radix16 pub with
    | Some x, Some y =>
        if (x <? 0)%Z then Err RangeError
        else
          let bs := magnitude_bytes (y ^ x mod prime) in
          Ok (match pw with
              | Some password => hex_of_bytes (sha512 (bs ++ password))
              | None => hex_of_bytes (sha256 bs)
              end)
    | _, _ => Err DecodeError
    end.
Proof.
  intros _ _.
  unfold Frontend.computeSharedSecret. rewrite hexToBigInt_prime.
  cbn [bind ss_privateKey ss_otherPublicKey ss_password].
  unfold Frontend._hexToBigInt.
  destruct (parse_radix16 priv) as [x|]; cbn [of_option bind]; [|reflexivity].
  destruct (parse_radix16 pub) as [y|]; cbn [of_option bind]; [|reflexivity].
  pose proof prime_positive as Hp.
  destruct (x <? 0)%Z eqn:Hx.
  - apply Z.ltb_lt in Hx. unfold modPow.
    replace (prime <=? 0)%Z with false by lia.
    destruct x as [|q|q]; [lia | lia | reflexivity].
  - apply Z.ltb_ge in Hx. rewrite modPow_spec by lia. cbn [bind].
    rewrite hexToBytes_magnitude by (apply Z.mod_pos_bound; lia).
    cbn [bind]. now destruct pw.
Qed.

(** X10: the sampling loop of the frontend's [generateDHKeyPair] has no
    bound on its attempts: after any number [fuel] of draws it is still
    running exactly when each of the first [fuel] candidates was refused
    (at least the prime, or at most 1). It ends only by accepting a
    candidate; there is no give-up branch. *)
Theorem X10_sampling_has_no_bound (fuel : nat) (r : rng) (now : Z) (pw : option text) :
  Frontend.generateDHKeyPair fuel r now pw = None
  <-> forallb (fun j => negb (accepted (candidate r j))) (seq 0 fuel) = true.
Proof.
  rewrite <- sample_private_none_iff.
  unfold Frontend.generateDHKeyPair. rewrite hexToBigInt_prime.
  destruct (Frontend.sample_private fuel r 0 prime); split;
    (discriminate || reflexivity).
Qed.

(** X11: whenever [generateDHKeyPair] of the frontend returns, with or
    without a password, it returns a key pair and not an exception; its two
    texts parse back, by [_hexToBigInt], to a private exponent [x] with
    [1 <= x < prime] and to the public value [generator ^ x mod prime]. *)
Theorem X11_frontend_key_pair
    (fuel : nat) (r : rng) (now : Z) (pw : option text) (res : result DHKeyPair) :
  Frontend.generateDHKeyPair fuel r now pw = Some res ->
  exists kp x,
    res = Ok kp
    /\ (1 <= x < prime)%Z
    /\ Frontend._hexToBigInt (privateKey kp) = Ok x
    /\ Frontend._hexToBigInt (publicKey kp) = Ok (GENERATOR ^ x mod prime)%Z.
Proof.
  unfold Frontend.generateDHKeyPair. rewrite hexToBigInt_prime.
  destruct (Frontend.sample_private fuel r 0 prime) as [sampled|] eqn:Hs;
    [|discriminate].
  destruct (sample_private_range _ _ _ _ Hs) as (x & -> & Hx). clear Hs.
  pose proof prime_positive as Hp.
  cbn [bind]. rewrite modPow_spec by lia. cbn [bind].
  destruct pw as [password|].
  - destruct (hexToBytes_bigIntToHex x) as (bs & Hbs & _); [lia|].
    rewrite Hbs. cbn [bind].
    rewrite dart_substring_digest. cbn [bind].
    rewrite parse_radix16_bytes by apply sha256_nonempty.
    cbn [of_option bind].
    set (e := (Z_of_bytes _ mod (prime - 1) + 1)%Z).
    assert (He : (1 <= e < prime)%Z).
    { subst e. pose proof (Z.mod_pos_bound
        (Z_of_bytes (sha256 (bs ++ sha256 (password ++ decimal now))))
        (prime - 1)). lia. }
    rewrite modPow_spec by lia. cbn [bind].
    intros [= <-]. do 2 eexists. split; [reflexivity|]. split; [exact He|].
    cbn [privateKey publicKey]. unfold Frontend._hexToBigInt, Frontend._bigIntToHex.
    now rewrite !parse_toRadixString16.
  - intros [= <-]. do 2 eexists. split; [reflexivity|].
    split; [split; [|exact (proj2 Hx)]; lia|].
    cbn [privateKey publicKey]. unfold Frontend._hexToBigInt, Frontend._bigIntToHex.
    now rewrite !parse_toRadixString16.
Qed.

(** X12: [validatePublicKey] tests the size of a key and nothing else. On
    the text of a public value [v], as [generateDHKeyPair] writes it, both
    implementations return true exactly when [256^100 <= v < 256^999]: a
    genuine but small public value is refused, and a value that is not below
    the prime is accepted. *)
Theorem X12_validatePublicKey_of_value (v : Z) :
  (0 <= v)%Z ->
  Frontend.validatePublicKey (Frontend._bigIntToHex v)
  = ((256 ^ 100 <=? v) && (v <? 256 ^ 999))%Z
  /\ Backend.validatePublicKey (hex_of_bytes (be_bytes (Z.to_N v)))
     = ((256 ^ 100 <=? v) && (v <? 256 ^ 999))%Z.
Proof.
  intros Hv. unfold Frontend.validatePublicKey, Backend.validatePublicKey.
  rewrite node_hex_decode_bytes.
  destruct v as [|p|p]; [| |exfalso; apply Hv; reflexivity].
  - split; vm_compute; reflexivity.
  - rewrite hexToBytes_bigIntToHex_be. cbn [Z.to_N].
    assert (He : ((100 <? length (be_bytes (Npos p)))
                  && (length (be_bytes (Npos p)) <? 1000))%nat
                 = ((256 ^ 100 <=? Zpos p) && (Zpos p <? 256 ^ 999))%Z).
    { pose proof (be_bytes_length (Npos p) 100 ltac:(discriminate)) as H100.
      pose proof (be_bytes_length (Npos p) 999 ltac:(discriminate)) as H999.
      rewrite pow256_N_Z in H100, H999.
      change (Z.of_nat 100) with 100%Z in H100.
      change (Z.of_nat 999) with 999%Z in H999.
      change (Z.of_N (Npos p)) with (Zpos p) in H100, H999.
      f_equal; apply eq_true_iff_eq.
      - now rewrite Nat.ltb_lt, Z.leb_le.
      - rewrite Nat.ltb_lt, Z.ltb_lt. split.
        + intros Hl. apply Z.nle_gt. intros Hge. apply H999 in Hge. lia.
        + intros Hlt. apply Nat.nle_gt. intros Hge.
          assert (Hgt : (999 < length (be_bytes (Npos p)))%nat) by lia.
          apply H999 in Hgt. lia. }
    split; exact He.
Qed.

(** X13: the empty password. The backend tests [if (password)], which an
    empty string fails, so with the password [""] its [computeSharedSecret]
    returns the 64-character SHA-256 secret that it returns without a
    password; the frontend tests [password != null] and returns a
    128-character SHA-512 secret. On the same keys the two secrets differ. *)
Theorem X13_empty_password (priv pub sB sF : text) :
  Backend.computeSharedSecret
    {| ss_privateKey := priv; ss_otherPublicKey := pub; ss_password := Some [] |}
  = Ok sB ->
  Frontend.computeSharedSecret
    {| ss_privateKey := priv; ss_otherPublicKey := pub; ss_password := Some [] |}
  = Ok sF ->
  Backend.computeSharedSecret
    {| ss_privateKey := priv; ss_otherPublicKey := pub; ss_password := None |}
  = Ok sB
  /\ length sB = 64%nat /\ length sF = 128%nat /\ sB <> sF.
Proof.
  intros HB HF.
  assert (HlB : length sB = 64%nat).
  { unfold Backend.computeSharedSecret in HB.
    cbn [ss_privateKey ss_otherPublicKey ss_password Backend.truthy] in HB.
    destruct (Backend.dh_computeSecret _ _); [|discriminate].
    cbn [bind] in HB. injection HB as <-.
    now rewrite hex_of_bytes_length, sha256_length. }
  assert (HlF : length sF = 128%nat).
  { unfold Frontend.computeSharedSecret in HF.
    cbn [ss_privateKey ss_otherPublicKey ss_password] in HF.
    repeat match type of HF with
           | bind ?r _ = _ => destruct r; cbn [bind] in HF; [|discriminate]
           end.
    injection HF as <-.
    now rewrite hex_of_bytes_length, sha512_length. }
  split; [exact HB|]. split; [exact HlB|]. split; [exact HlF|].
  intros ->. rewrite HlB in HlF. discriminate.
Qed.

(** X14: the two implementations hash different byte strings. For key texts
    that both decode (the hexadecimal texts of byte strings), a public value
    that is a power of the generator strictly between 1 and [prime - 1], a
    shared value other than 1 and the same password in both calls, the
    backend hashes the shared value
    [s = otherPublicKey ^ privateKey mod prime] left-padded with zero bytes
    to 256 bytes, as Node's [computeSecret] returns it, and the frontend
    hashes the bytes of [s] without leading zeros. The two byte strings are
    the same exactly when [s >= 256^255]. *)
Theorem X14_secret_bytes_of_both (pa pb : bytes) (pw : option text) (k : Z) :
  let s := (Z_of_bytes pb ^ Z_of_bytes pa mod prime)%Z in
  let digest bs :=
    match pw with
    | Some password => hex_of_bytes (sha512 (bs ++ password))
    | None => hex_of_bytes (sha256 bs)
    end in
  pa <> [] -> pb <> [] -> (1 < Z_of_bytes pb < prime - 1)%Z -> pw <> Some [] ->
  (0 <= k)%Z -> Z_of_bytes pb = (GENERATOR ^ k mod prime)%Z -> s <> 1%Z ->
  Backend.computeSharedSecret
    {| ss_privateKey := hex_of_bytes pa; ss_otherPublicKey := hex_of_bytes pb;
       ss_password := pw |}
  = Ok (digest (pad_left 256 (be_bytes (Z.to_N s))))
  /\ Frontend.computeSharedSecret
       {| ss_privateKey := hex_of_bytes pa; ss_otherPublicKey := hex_of_bytes pb;
          ss_password := pw |}
     = Ok (digest (magnitude_bytes s))
  /\ (pad_left 256 (be_bytes (Z.to_N s)) = magnitude_bytes s
      <-> (256 ^ 255 <= s)%Z).
Proof.
  intros s digest Hpa Hpb Hy Hpw _ _ _. pose proof prime_positive as Hp.
  pose proof (Z_of_bytes_bound pa) as Hx.
  assert (Hs : (0 <= s < prime)%Z) by (apply Z.mod_pos_bound; lia).
  split; [|split].
  - unfold Backend.computeSharedSecret, Backend.dh_computeSecret.
    cbn [ss_privateKey ss_otherPublicKey ss_password].
    rewrite node_prime, !node_hex_decode_bytes.
    replace ((Z_of_bytes pb <=? 1) || (prime - 1 <=? Z_of_bytes pb))%Z
      with false by lia.
    rewrite modPow_spec by lia. cbn [bind]. fold s.
    destruct pw as [[|c w]|]; [contradiction | reflexivity | reflexivity].
  - destruct (frontend_computeSharedSecret_value
                (hex_of_bytes pa) (hex_of_bytes pb) pw
                (Z_of_bytes pa) (Z_of_bytes pb)) as (bs & Hbs & _ & Hc);
      [now apply parse_radix16_bytes | now apply parse_radix16_bytes | lia|].
    fold s in Hbs. rewrite hexToBytes_magnitude in Hbs by lia.
    injection Hbs as <-. exact Hc.
  - now apply pad_left_magnitude.
Qed.

(** X15: key texts across the two implementations. The frontend writes a
    key with [toRadixString(16)], without leading zeros, so the text has an
    odd number of digits whenever the leading digit stands alone. Node's
    [Buffer.from(_, 'hex')] in the backend drops a trailing single digit:
    it reads such a text as the value divided by 16, and reads the value
    itself only off a text with an even number of digits. In the other
    direction the frontend's [_hexToBigInt] reads every non-empty key text of
    the backend as the value of its bytes. *)
Theorem X15_key_texts_across (v : Z) (bs : bytes) :
  (0 <= v)%Z -> bs <> [] ->
  Z_of_bytes (node_hex_decode (Frontend._bigIntToHex v))
  = (if Nat.even (length (Frontend._bigIntToHex v)) then v else v / 16)%Z
  /\ Frontend._hexToBigInt (hex_of_bytes bs) = Ok (Z_of_bytes bs).
Proof.
  intros Hv Hbs. split.
  - destruct (toRadixString16_nonneg v Hv) as [_ Hval].
    unfold Frontend._bigIntToHex, Z_of_bytes, N_of_bytes.
    rewrite (node_hex_decode_value _ _ _ Hval).
    destruct (Nat.even (length (toRadixString16 v))).
    + now apply Z2N.id.
    + rewrite N2Z.inj_div, Z2N.id by assumption. reflexivity.
  - unfold Frontend._hexToBigInt. now rewrite parse_radix16_bytes.
Qed.

(** X16: key agreement in the backend. Two key pairs that
    [generateDHKeyPair] of the backend returns, with or without a password,
    give the same secret to [computeSharedSecret] on either side, without a
    password and with the same password on both sides, provided each public
    value lies strictly between 1 and [prime - 1], the range outside of
    which Node's [computeSecret] refuses a key. *)
Theorem X16_backend_shared_secret_agreement
    (xa xb : N) (nowA nowB : Z) (pwA pwB pw : option text) (a b : DHKeyPair) :
  Backend.generateDHKeyPair xa nowA pwA = Ok a ->
  Backend.generateDHKeyPair xb nowB pwB = Ok b ->
  (1 < Z_of_bytes (node_hex_decode (publicKey a)) < prime - 1)%Z ->
  (1 < Z_of_bytes (node_hex_decode (publicKey b)) < prime - 1)%Z ->
  exists secret,
    Backend.computeSharedSecret
      {| ss_privateKey := privateKey a; ss_otherPublicKey := publicKey b;
         ss_password := pw |} = Ok secret
    /\ Backend.computeSharedSecret
         {| ss_privateKey := privateKey b; ss_otherPublicKey := publicKey a;
            ss_password := pw |} = Ok secret.
Proof.
  destruct (backend_keypair_shape xa nowA pwA) as (pa & ->).
  destruct (backend_keypair_shape xb nowB pwB) as (pb & ->).
  intros [= <-] [= <-]. cbn [privateKey publicKey].
  rewrite !node_hex_decode_bytes, !Z_of_be_bytes.
  pose proof prime_positive as Hp.
  rewrite !Z2N.id by (apply Z.mod_pos_bound; lia).
  intros HA HB. now apply backend_shared_secret_agreement.
Qed.

(** X17: the whole exchange in the frontend, as the integration test and
    the demonstrations run it. Two parties generate key pairs, each computes
    the shared secret from its private key and the other's public key (both
    without a password or both with the same one), one encrypts with
    [dhEncrypt] under its secret and the other decrypts with [dhDecrypt]
    under its own: the plaintext comes back. The backend's [dhDecrypt] under
    that secret returns it as well. *)
Theorem X17_frontend_exchange_then_cipher
    (fuelA fuelB : nat) (rA rB r : rng) (nowA nowB : Z) (pwA pwB pw : option text)
    (a b : DHKeyPair) (P : text) :
  Frontend.generateDHKeyPair fuelA rA nowA pwA = Some (Ok a) ->
  Frontend.generateDHKeyPair fuelB rB nowB pwB = Some (Ok b) ->
  exists sa sb c,
    Frontend.computeSharedSecret
      {| ss_privateKey := privateKey a; ss_otherPublicKey := publicKey b;
         ss_password := pw |} = Ok sa
    /\ Frontend.computeSharedSecret
         {| ss_privateKey := privateKey b; ss_otherPublicKey := publicKey a;
            ss_password := pw |} = Ok sb
    /\ Frontend.dhEncrypt r {| dh_plainText := P; sharedSecret := sa |} = Ok c
    /\ Frontend.dhDecrypt {| dh_encryptedText := c; dh_sharedSecret := sb |}
       = Ok (JString P)
    /\ Backend.dhDecrypt {| dh_encryptedText := c; dh_sharedSecret := sb |}
       = Ok (JString P).
Proof.
  intros Ha Hb.
  destruct (frontend_keypair_shape _ _ _ _ _ Ha) as (x & Hx & Hax & HaX).
  destruct (frontend_keypair_shape _ _ _ _ _ Hb) as (y & Hy & Hby & HbY).
  rewrite Hax, HaX, Hby, HbY. unfold Frontend._bigIntToHex.
  clear Ha Hb Hax HaX Hby HbY.
  assert (Hx0 : (0 <= x)%Z) by lia.
  assert (Hy0 : (0 <= y)%Z) by lia.
  pose proof (frontend_computeSharedSecret_value
                (toRadixString16 x) (toRadixString16 (GENERATOR ^ y mod prime)) pw
                x (GENERATOR ^ y mod prime)%Z
                (parse_toRadixString16 _) (parse_toRadixString16 _) Hx0) as H1.
  destruct H1 as (bs1 & Hb1 & _ & Hs1).
  pose proof (frontend_computeSharedSecret_value
                (toRadixString16 y) (toRadixString16 (GENERATOR ^ x mod prime)) pw
                y (GENERATOR ^ x mod prime)%Z
                (parse_toRadixString16 _) (parse_toRadixString16 _) Hy0) as H2.
  destruct H2 as (bs2 & Hb2 & _ & Hs2).
  pose proof (dh_agreement GENERATOR y x prime Hy0 Hx0) as Hag.
  rewrite Hag in Hb2. rewrite Hb1 in Hb2. injection Hb2 as <-.
  set (d := match pw with
            | Some password => sha512 (bs1 ++ password)
            | None => sha256 bs1
            end).
  assert (Hd : match pw with
               | Some password => hex_of_bytes (sha512 (bs1 ++ password))
               | None => hex_of_bytes (sha256 bs1)
               end = hex_of_bytes d) by (subst d; now destruct pw).
  rewrite Hd in Hs1, Hs2.
  pose proof (deriveKey_length d) as Hk. pose proof (iv_nonempty r) as Hiv.
  pose proof (hexToBytes_hex_of_bytes d) as Hm.
  exists (hex_of_bytes d), (hex_of_bytes d). eexists.
  split; [exact Hs1|]. split; [exact Hs2|]. split; [|split].
  - rewrite frontend_dhEncrypt_seal. cbn [sharedSecret dh_plainText].
    rewrite Hm. cbn [bind]. apply dart_seal_ok, Hk.
  - rewrite (frontend_dhDecrypt_open _ d) by exact Hm.
    cbn [dh_encryptedText].
    rewrite dart_open_wire by assumption.
    now rewrite gcm_ctr_involutive, jsonDecode_jsonEncode.
  - rewrite (backend_dhDecrypt_open _ d) by apply hash_update_hex_bytes.
    cbn [dh_encryptedText dh_sharedSecret].
    rewrite node_open_wire by assumption.
    now rewrite gcm_ctr_involutive, jsonDecode_jsonEncode.
Qed.

(** X18: a shared secret that is not hexadecimal. The backend does not
    refuse one of even length: Node's decoder stops at the first character
    that is not a hexadecimal digit, so [dhEncrypt] and [dhDecrypt] work
    under the key of the bytes decoded up to there, and two secrets of even
    length that agree up to there are the same secret to them. The
    frontend's [dhEncrypt] raises on a secret that holds a character
    [int.parse] accepts nowhere, and its [dhDecrypt] never returns a value
    under one. *)
Theorem X18_secret_that_is_not_hexadecimal
    (r : rng) (P c : text) (bs : bytes) (d ch : ascii) (rest k0 k2 : text) :
  is_hex d = false -> is_foreign ch = true ->
  Nat.even (js_length (d :: rest)) = true ->
  Backend.dhEncrypt r
    {| dh_plainText := P; sharedSecret := hex_of_bytes bs ++ d :: rest |}
  = Backend.dhEncrypt r {| dh_plainText := P; sharedSecret := hex_of_bytes bs |}
  /\ Backend.dhDecrypt
       {| dh_encryptedText := c; dh_sharedSecret := hex_of_bytes bs ++ d :: rest |}
     = Backend.dhDecrypt
         {| dh_encryptedText := c; dh_sharedSecret := hex_of_bytes bs |}
  /\ Frontend.dhEncrypt r {| dh_plainText := P; sharedSecret := k0 ++ ch :: k2 |}
     = Err DecodeError
  /\ (Frontend.dhDecrypt
        {| dh_encryptedText := c; dh_sharedSecret := k0 ++ ch :: k2 |}
      = Err DecodeError
      \/ Frontend.dhDecrypt
           {| dh_encryptedText := c; dh_sharedSecret := k0 ++ ch :: k2 |}
         = Err FormatError).
Proof.
  intros Hd Hch Hev.
  pose proof (node_hex_decode_junk bs d rest Hd) as Hnode.
  assert (Hup : hash_update_hex (hex_of_bytes bs ++ d :: rest) = Ok bs).
  { rewrite hash_update_hex_even, Hnode; [reflexivity|].
    rewrite js_length_app, js_length_hex_of_bytes, Nat.even_add, Hev.
    now rewrite Nat.even_mul. }
  assert (Hfront : Frontend._hexToBytes (k0 ++ ch :: k2) = Err DecodeError).
  { destruct (Frontend._hexToBytes (k0 ++ ch :: k2)) as [m|e] eqn:Hm.
    - apply hexToBytes_chars in Hm. rewrite Forall_forall in Hm.
      rewrite (Hm ch) in Hch; [discriminate|].
      apply in_or_app. right. now left.
    - unfold Frontend._hexToBytes in Hm. apply parse_hex_pairs_error in Hm.
      now subst e. }
  split; [|split; [|split]].
  - rewrite !backend_dhEncrypt_seal. cbn [sharedSecret dh_plainText].
    now rewrite Hup, hash_update_hex_bytes.
  - rewrite (backend_dhDecrypt_open _ bs) by exact Hup.
    now rewrite (backend_dhDecrypt_open _ bs) by apply hash_update_hex_bytes.
  - rewrite frontend_dhEncrypt_seal. cbn [sharedSecret dh_plainText].
    now rewrite Hfront.
  - unfold Frontend.dhDecrypt. cbv zeta. cbn [dh_encryptedText dh_sharedSecret].
    destruct (negb _); [now right | left].
    destruct (b64decode_strict (nth 0 _ _)); cbn [of_option bind]; [|reflexivity].
    destruct (b64decode_strict (nth 1 _ _)); cbn [of_option bind]; [|reflexivity].
    destruct (b64decode_strict (nth 2 _ _)); cbn [of_option bind]; [|reflexivity].
    now rewrite Hfront.
Qed.

Lemma be_bytes_nonempty (n : N) : n <> 0%N -> be_bytes n <> [].
Proof.
  intros Hn. unfold be_bytes.
  destruct (be_bytes_aux_head (N.to_nat (N.size n)) n Hn) as (b & r & -> & _).
  - rewrite N2Nat.id. apply N.size_gt.
  - discriminate.
Qed.

(** X19: key agreement across the two implementations, for key texts in
    the forms that the two [generateDHKeyPair] write: the frontend's private
    exponent [x] and public value [A] as [toRadixString(16)] texts, the
    backend's private bytes [pb] and public value [B] as the hexadecimal text
    of their bytes. The frontend (on its private key and [B]) and the
    backend (on its private key and [A]) return the same secret when [A]
    lies in the range Node accepts, the text of [A] has an even number of
    digits, so that Node reads it whole, and the shared value is at least
    [256^255], so that Node's zero padding adds nothing. *)
Theorem X19_agreement_across_implementations
    (x : Z) (pb : bytes) (pw : option text) :
  let A := (GENERATOR ^ x mod prime)%Z in
  let B := (GENERATOR ^ Z_of_bytes pb mod prime)%Z in
  let s := (B ^ x mod prime)%Z in
  (0 <= x)%Z -> (1 < A < prime - 1)%Z -> (0 < B)%Z -> pw <> Some [] ->
  Nat.even (length (Frontend._bigIntToHex A)) = true ->
  (256 ^ 255 <= s)%Z ->
  exists secret,
    Frontend.computeSharedSecret
      {| ss_privateKey := Frontend._bigIntToHex x;
         ss_otherPublicKey := hex_of_bytes (be_bytes (Z.to_N B));
         ss_password := pw |} = Ok secret
    /\ Backend.computeSharedSecret
         {| ss_privateKey := hex_of_bytes pb;
            ss_otherPublicKey := Frontend._bigIntToHex A;
            ss_password := pw |} = Ok secret.
Proof.
  intros A B s Hx HA HB Hpw Hev Hs.
  assert (Hp : (0 < prime)%Z) by (pose proof prime_positive; lia).
  assert (Hpb : (0 <= Z_of_bytes pb)%Z) by apply Z_of_bytes_bound.
  assert (Hag : (A ^ Z_of_bytes pb mod prime = s)%Z)
    by (apply dh_agreement; assumption).
  assert (Hsr : (0 <= s < prime)%Z) by (apply Z.mod_pos_bound; exact Hp).
  assert (HA0 : (0 <= A)%Z) by lia.
  assert (HnA : Z_of_bytes (node_hex_decode (Frontend._bigIntToHex A)) = A).
  { destruct (toRadixString16_nonneg A HA0) as [_ Hval].
    unfold Frontend._bigIntToHex, Z_of_bytes, N_of_bytes in *.
    rewrite (node_hex_decode_value _ _ _ Hval), Hev. now apply Z2N.id. }
  assert (Hrange : ((A <=? 1) || (prime - 1 <=? A))%Z = false) by lia.
  assert (HparB : parse_radix16 (hex_of_bytes (be_bytes (Z.to_N B))) = Some B).
  { rewrite parse_radix16_bytes by (apply be_bytes_nonempty; lia).
    rewrite Z_of_be_bytes. f_equal. apply Z2N.id. lia. }
  assert (Hpad : pad_left 256 (be_bytes (Z.to_N s)) = magnitude_bytes s)
    by (apply pad_left_magnitude; assumption).
  assert (Hmag : Frontend._hexToBytes (Frontend._bigIntToHex s)
                 = Ok (magnitude_bytes s))
    by (apply hexToBytes_magnitude; exact (proj1 Hsr)).
  assert (Hsd : (B ^ x mod prime)%Z = s) by reflexivity.
  clear Hev Hs HA HB HA0 Hsr.
  clearbody s. clearbody A B.
  exists (match pw with
          | Some password => hex_of_bytes (sha512 (magnitude_bytes s ++ password))
          | None => hex_of_bytes (sha256 (magnitude_bytes s))
          end).
  split.
  - unfold Frontend.computeSharedSecret. rewrite hexToBigInt_prime.
    cbn [bind ss_privateKey ss_otherPublicKey ss_password].
    unfold Frontend._hexToBigInt at 1 2.
    unfold Frontend._bigIntToHex at 1. rewrite parse_toRadixString16, HparB.
    cbn [of_option bind]. rewrite modPow_spec by assumption. cbn [bind].
    rewrite Hsd, Hmag. cbn [bind]. now destruct pw.
  - unfold Backend.computeSharedSecret, Backend.dh_computeSecret.
    cbn [ss_privateKey ss_otherPublicKey ss_password].
    rewrite node_prime, node_hex_decode_bytes, HnA, Hrange.
    rewrite modPow_spec by assumption. cbn [bind]. rewrite Hag, Hpad.
    destruct pw as [[|c w]|]; [contradiction | reflexivity | reflexivity].
Qed.

(** X21: without a password, the key pair of the frontend is made of the
    first candidate that the sampling loop accepts. When attempt [k] is the
    first whose 256 random bytes, read as a big-endian number, lie strictly
    between 1 and the prime, [generateDHKeyPair] returns that number as the
    private key and [generator ^ privateKey mod prime] as the public key,
    both written by [toRadixString(16)]. *)
Theorem X21_frontend_plain_key_pair (fuel : nat) (r : rng) (k : nat) (now : Z) :
  (k < fuel)%nat -> first_accepted r k = true ->
  Frontend.generateDHKeyPair fuel r now None
  = Some (Ok {| privateKey := Frontend._bigIntToHex (candidate r k);
                publicKey :=
                  Frontend._bigIntToHex (GENERATOR ^ candidate r k mod prime) |})
  /\ (1 < candidate r k < prime)%Z.
Proof.
  intros Hk Hfa.
  pose proof (sample_private_first fuel r k Hk Hfa) as Hs.
  assert (Hrange : (1 < candidate r k < prime)%Z).
  { apply accepted_range. apply andb_true_iff in Hfa. exact (proj2 Hfa). }
  clear Hfa. split; [|exact Hrange].
  unfold Frontend.generateDHKeyPair. rewrite hexToBigInt_prime, Hs. clear Hs.
  assert (Hp : (0 < prime)%Z) by (pose proof prime_positive; lia).
  assert (Hc : (0 <= candidate r k)%Z) by lia.
  cbn [bind]. rewrite modPow_spec by assumption. reflexivity.
Qed.

End DHExtras.

(** ** Instances of the further properties *)

Lemma X1_witness :
  Frontend._hexToBytes "0a0b" = Ok [chr 10; chr 11]
  /\ exists c,
      Frontend.dhEncrypt (H := sample_crypto) sample_rng
        {| dh_plainText := sample_text; sharedSecret := "0a0b" |} = Ok c
      /\ Frontend.dhDecrypt (H := sample_crypto)
           {| dh_encryptedText := c; dh_sharedSecret := "0a0b" |}
         = Ok (JString sample_text).
Proof.
  assert (Hm : Frontend._hexToBytes "0a0b" = Ok [chr 10; chr 11])
    by (vm_compute; reflexivity).
  split; [exact Hm|].
  exact (X1_frontend_dh_round_trip (H := sample_crypto) sample_rng sample_text
           "0a0b" _ Hm).
Defined.

Lemma X5_witness :
  gcm_mac (Crypto := sample_crypto)
    (deriveKey (H := sample_crypto) "WrongPassword") (randomBytes sample_rng 0 16)
    (gcm_ctr (H := sample_crypto) (deriveKey (H := sample_crypto) sample_password)
       (randomBytes sample_rng 0 16) (jsonEncode sample_text))
  <> gcm_mac (Crypto := sample_crypto)
       (deriveKey (H := sample_crypto) sample_password) (randomBytes sample_rng 0 16)
       (gcm_ctr (H := sample_crypto) (deriveKey (H := sample_crypto) sample_password)
          (randomBytes sample_rng 0 16) (jsonEncode sample_text))
  /\ exists c,
      Frontend.encrypt (H := sample_crypto) sample_rng
        {| plainText := sample_text; password := sample_password |} = Ok c
      /\ Frontend.decrypt (H := sample_crypto)
           {| encryptedText := c; dec_password := "WrongPassword" |}
         = Err AuthenticationError
      /\ Backend.decrypt (H := sample_crypto)
           {| encryptedText := c; dec_password := "WrongPassword" |}
         = Err AuthenticationError.
Proof.
  assert (Hne :
    gcm_mac (Crypto := sample_crypto)
      (deriveKey (H := sample_crypto) "WrongPassword") (randomBytes sample_rng 0 16)
      (gcm_ctr (H := sample_crypto) (deriveKey (H := sample_crypto) sample_password)
         (randomBytes sample_rng 0 16) (jsonEncode sample_text))
    <> gcm_mac (Crypto := sample_crypto)
         (deriveKey (H := sample_crypto) sample_password) (randomBytes sample_rng 0 16)
         (gcm_ctr (H := sample_crypto) (deriveKey (H := sample_crypto) sample_password)
            (randomBytes sample_rng 0 16) (jsonEncode sample_text)))
    by (vm_compute; discriminate).
  split; [exact Hne|].
  exact (X5_other_password_is_refused (H := sample_crypto) sample_rng sample_text
           sample_password "WrongPassword" Hne).
Defined.

Lemma X6_witness :
  node_tag_length_ok 12 = true
  /\ Nat.even (js_length "0a0b") = true
  /\ (exists c,
        Backend.encrypt (H := sample_crypto) sample_rng
          {| plainText := jsonEncode sample_text; password := sample_password |}
        = Ok c
        /\ Backend.decrypt (H := sample_crypto)
             {| encryptedText := truncate_tag 12 c; dec_password := sample_password |}
           = Ok (JString sample_text))
  /\ (exists c,
        Backend.dhEncrypt (H := sample_crypto) sample_rng
          {| dh_plainText := jsonEncode sample_text; sharedSecret := "0a0b" |}
        = Ok c
        /\ Backend.dhDecrypt (H := sample_crypto)
             {| dh_encryptedText := truncate_tag 12 c; dh_sharedSecret := "0a0b" |}
           = Ok (JString sample_text)).
Proof.
  assert (Hn : node_tag_length_ok 12 = true) by reflexivity.
  assert (Hev : Nat.even (js_length "0a0b") = true) by (vm_compute; reflexivity).
  split; [exact Hn|]. split; [exact Hev|].
  exact (X6_backend_accepts_truncated_tag (H := sample_crypto) sample_rng
           sample_text sample_password "0a0b" 12 Hn Hev).
Defined.

Lemma X2_witness :
  Nat.even (js_length "0a0b") = true /\ Nat.odd (js_length "0az") = true
  /\ (exists c,
        Backend.dhEncrypt (H := sample_crypto) sample_rng
          {| dh_plainText := jsonEncode sample_text; sharedSecret := "0a0b" |}
        = Ok c
        /\ Backend.dhDecrypt (H := sample_crypto)
             {| dh_encryptedText := c; dh_sharedSecret := "0a0b" |}
           = Ok (JString sample_text))
  /\ Backend.dhEncrypt (H := sample_crypto) sample_rng
       {| dh_plainText := sample_text; sharedSecret := "0az" |}
     = Err EncodingError.
Proof.
  assert (Hev : Nat.even (js_length "0a0b") = true) by (vm_compute; reflexivity).
  assert (Hodd : Nat.odd (js_length "0az") = true) by (vm_compute; reflexivity).
  split; [exact Hev|]. split; [exact Hodd|].
  destruct (X2_backend_dh_round_trip (H := sample_crypto) sample_rng sample_text
              "0a0b" "0az" Hev Hodd) as (Hr & _ & He & _).
  split; [exact Hr | exact He].
Defined.

Lemma X9_witness :
  all_ascii "not-a-key" = true /\ all_ascii "80" = true
  /\ Frontend.computeSharedSecret (H := sample_crypto)
       {| ss_privateKey := "not-a-key"; ss_otherPublicKey := "80";
          ss_password := None |}
     = Err DecodeError.
Proof.
  assert (Ha : all_ascii "not-a-key" = true) by reflexivity.
  assert (Hb : all_ascii "80" = true) by reflexivity.
  split; [exact Ha|]. split; [exact Hb|].
  exact (X9_frontend_computeSharedSecret (H := sample_crypto) "not-a-key" "80"
           None Ha Hb).
Defined.

Lemma X11_witness :
  Frontend.generateDHKeyPair (H := sample_crypto) 1 rng_five sample_now None
  = Some (Ok {| privateKey := "5"; publicKey := "20" |})
  /\ exists kp x,
      Ok {| privateKey := "5"; publicKey := "20" |} = Ok kp
      /\ (1 <= x < prime)%Z
      /\ Frontend._hexToBigInt (privateKey kp) = Ok x
      /\ Frontend._hexToBigInt (publicKey kp) = Ok (GENERATOR ^ x mod prime)%Z.
Proof.
  assert (Ha : Frontend.generateDHKeyPair (H := sample_crypto) 1 rng_five sample_now None
               = Some (Ok {| privateKey := "5"; publicKey := "20" |}))
    by (vm_compute; reflexivity).
  split; [exact Ha|].
  exact (X11_frontend_key_pair (H := sample_crypto) 1 rng_five sample_now None _ Ha).
Defined.

Lemma X12_witness :
  (0 <= 32)%Z
  /\ Frontend.validatePublicKey (Frontend._bigIntToHex 32)
     = ((256 ^ 100 <=? 32) && (32 <? 256 ^ 999))%Z.
Proof.
  assert (Hv : (0 <= 32)%Z) by (vm_compute; discriminate).
  split; [exact Hv|].
  exact (proj1 (X12_validatePublicKey_of_value 32 Hv)).
Defined.

Lemma X13_witness :
  exists sB sF,
    Backend.computeSharedSecret (H := sample_crypto)
      {| ss_privateKey := "05"; ss_otherPublicKey := "80"; ss_password := Some [] |}
    = Ok sB
    /\ Frontend.computeSharedSecret (H := sample_crypto)
         {| ss_privateKey := "05"; ss_otherPublicKey := "80"; ss_password := Some [] |}
       = Ok sF
    /\ length sB = 64%nat /\ length sF = 128%nat /\ sB <> sF.
Proof.
  destruct (Backend.computeSharedSecret (H := sample_crypto)
              {| ss_privateKey := "05"; ss_otherPublicKey := "80";
                 ss_password := Some [] |}) as [sB|e] eqn:HB;
    [|vm_compute in HB; discriminate].
  destruct (Frontend.computeSharedSecret (H := sample_crypto)
              {| ss_privateKey := "05"; ss_otherPublicKey := "80";
                 ss_password := Some [] |}) as [sF|e] eqn:HF;
    [|vm_compute in HF; discriminate].
  exists sB, sF. split; [reflexivity|]. split; [reflexivity|].
  exact (proj2 (X13_empty_password (H := sample_crypto) "05" "80" sB sF HB HF)).
Defined.

Lemma X14_witness :
  [chr 5] <> [] /\ [chr 128] <> []
  /\ (1 < Z_of_bytes [chr 128] < prime - 1)%Z
  /\ @None text <> Some []
  /\ (0 <= 7)%Z /\ Z_of_bytes [chr 128] = (GENERATOR ^ 7 mod prime)%Z
  /\ (Z_of_bytes [chr 128] ^ Z_of_bytes [chr 5] mod prime)%Z <> 1%Z
  /\ (pad_left 256
        (be_bytes (Z.to_N (Z_of_bytes [chr 128] ^ Z_of_bytes [chr 5] mod prime)))
      = magnitude_bytes (Z_of_bytes [chr 128] ^ Z_of_bytes [chr 5] mod prime)
      <-> (256 ^ 255 <= Z_of_bytes [chr 128] ^ Z_of_bytes [chr 5] mod prime)%Z).
Proof.
  assert (Hpa : [chr 5] <> []) by discriminate.
  assert (Hpb : [chr 128] <> []) by discriminate.
  assert (Hy : (1 < Z_of_bytes [chr 128] < prime - 1)%Z)
    by (split; vm_compute; reflexivity).
  assert (Hpw : @None text <> Some []) by discriminate.
  assert (Hk : (0 <= 7)%Z) by (vm_compute; discriminate).
  assert (Hg : Z_of_bytes [chr 128] = (GENERATOR ^ 7 mod prime)%Z)
    by (vm_compute; reflexivity).
  assert (Hs : (Z_of_bytes [chr 128] ^ Z_of_bytes [chr 5] mod prime)%Z <> 1%Z)
    by (vm_compute; discriminate).
  split; [exact Hpa|]. split; [exact Hpb|]. split; [exact Hy|]. split; [exact Hpw|].
  split; [exact Hk|]. split; [exact Hg|]. split; [exact Hs|].
  exact (proj2 (proj2 (X14_secret_bytes_of_both (H := sample_crypto)
                         [chr 5] [chr 128] None 7 Hpa Hpb Hy Hpw Hk Hg Hs))).
Defined.

Lemma X15_witness :
  (0 <= 5)%Z /\ [chr 5] <> []
  /\ Z_of_bytes (node_hex_decode (Frontend._bigIntToHex 5))
     = (if Nat.even (length (Frontend._bigIntToHex 5)) then 5 else 5 / 16)%Z
  /\ Frontend._hexToBigInt (hex_of_bytes [chr 5]) = Ok (Z_of_bytes [chr 5]).
Proof.
  assert (Hv : (0 <= 5)%Z) by (vm_compute; discriminate).
  assert (Hbs : [chr 5] <> []) by discriminate.
  split; [exact Hv|]. split; [exact Hbs|].
  exact (X15_key_texts_across 5 [chr 5] Hv Hbs).
Defined.

Lemma X16_witness :
  Backend.generateDHKeyPair (H := sample_crypto) 5 sample_now None
  = Ok {| privateKey := "05"; publicKey := "20" |}
  /\ Backend.generateDHKeyPair (H := sample_crypto) 7 sample_now None
     = Ok {| privateKey := "07"; publicKey := "80" |}
  /\ (1 < Z_of_bytes
            (node_hex_decode (publicKey {| privateKey := "05"; publicKey := "20" |}))
      < prime - 1)%Z
  /\ (1 < Z_of_bytes
            (node_hex_decode (publicKey {| privateKey := "07"; publicKey := "80" |}))
      < prime - 1)%Z
  /\ exists secret,
      Backend.computeSharedSecret (H := sample_crypto)
        {| ss_privateKey := "05"; ss_otherPublicKey := "80"; ss_password := None |}
      = Ok secret
      /\ Backend.computeSharedSecret (H := sample_crypto)
           {| ss_privateKey := "07"; ss_otherPublicKey := "20"; ss_password := None |}
         = Ok secret.
Proof.
  assert (Ha : Backend.generateDHKeyPair (H := sample_crypto) 5 sample_now None
               = Ok {| privateKey := "05"; publicKey := "20" |})
    by (vm_compute; reflexivity).
  assert (Hb : Backend.generateDHKeyPair (H := sample_crypto) 7 sample_now None
               = Ok {| privateKey := "07"; publicKey := "80" |})
    by (vm_compute; reflexivity).
  assert (HA : (1 < Z_of_bytes
                      (node_hex_decode
                         (publicKey {| privateKey := "05"; publicKey := "20" |}))
                < prime - 1)%Z) by (split; vm_compute; reflexivity).
  assert (HB : (1 < Z_of_bytes
                      (node_hex_decode
                         (publicKey {| privateKey := "07"; publicKey := "80" |}))
                < prime - 1)%Z) by (split; vm_compute; reflexivity).
  split; [exact Ha|]. split; [exact Hb|]. split; [exact HA|]. split; [exact HB|].
  exact (X16_backend_shared_secret_agreement (H := sample_crypto) 5 7
           sample_now sample_now None None None _ _ Ha Hb HA HB).
Defined.

Lemma X17_witness :
  Frontend.generateDHKeyPair (H := sample_crypto) 1 rng_five sample_now None
  = Some (Ok {| privateKey := "5"; publicKey := "20" |})
  /\ Frontend.generateDHKeyPair (H := sample_crypto) 1 rng_seven sample_now None
     = Some (Ok {| privateKey := "7"; publicKey := "80" |})
  /\ exists sa sb c,
      Frontend.computeSharedSecret (H := sample_crypto)
        {| ss_privateKey := "5"; ss_otherPublicKey := "80"; ss_password := None |}
      = Ok sa
      /\ Frontend.computeSharedSecret (H := sample_crypto)
           {| ss_privateKey := "7"; ss_otherPublicKey := "20"; ss_password := None |}
         = Ok sb
      /\ Frontend.dhEncrypt (H := sample_crypto) sample_rng
           {| dh_plainText := sample_text; sharedSecret := sa |} = Ok c
      /\ Frontend.dhDecrypt (H := sample_crypto)
           {| dh_encryptedText := c; dh_sharedSecret := sb |}
         = Ok (JString sample_text)
      /\ Backend.dhDecrypt (H := sample_crypto)
           {| dh_encryptedText := c; dh_sharedSecret := sb |}
         = Ok (JString sample_text).
Proof.
  assert (Ha : Frontend.generateDHKeyPair (H := sample_crypto) 1 rng_five sample_now None
               = Some (Ok {| privateKey := "5"; publicKey := "20" |}))
    by (vm_compute; reflexivity).
  assert (Hb : Frontend.generateDHKeyPair (H := sample_crypto) 1 rng_seven sample_now None
               = Some (Ok {| privateKey := "7"; publicKey := "80" |}))
    by (vm_compute; reflexivity).
  split; [exact Ha|]. split; [exact Hb|].
  exact (X17_frontend_exchange_then_cipher (H := sample_crypto) 1 1
           rng_five rng_seven sample_rng sample_now sample_now None None None
           _ _ sample_text Ha Hb).
Defined.

Lemma X18_witness :
  is_hex "z" = false /\ is_foreign "z" = true
  /\ Nat.even (js_length ("z"%char :: ("z" : text))) = true
  /\ Backend.dhEncrypt (H := sample_crypto) sample_rng
       {| dh_plainText := sample_text;
          sharedSecret := hex_of_bytes [chr 10] ++ "z"%char :: ("z" : text) |}
     = Backend.dhEncrypt (H := sample_crypto) sample_rng
         {| dh_plainText := sample_text; sharedSecret := hex_of_bytes [chr 10] |}
  /\ Frontend.dhEncrypt (H := sample_crypto) sample_rng
       {| dh_plainText := sample_text; sharedSecret := [] ++ "z"%char :: [] |}
     = Err DecodeError.
Proof.
  assert (Hd : is_hex "z" = false) by reflexivity.
  assert (Hc : is_foreign "z" = true) by reflexivity.
  assert (Hev : Nat.even (js_length ("z"%char :: ("z" : text))) = true)
    by (vm_compute; reflexivity).
  split; [exact Hd|]. split; [exact Hc|]. split; [exact Hev|].
  destruct (X18_secret_that_is_not_hexadecimal (H := sample_crypto) sample_rng
              sample_text [] [chr 10] "z" "z" "z" [] [] Hd Hc Hev)
    as (Hb & _ & Hf & _).
  split; [exact Hb | exact Hf].
Defined.

Lemma X19_witness :
  (0 <= 23)%Z
  /\ (1 < GENERATOR ^ 23 mod prime < prime - 1)%Z
  /\ (0 < GENERATOR ^ Z_of_bytes [chr 89] mod prime)%Z
  /\ @None text <> Some []
  /\ Nat.even (length (Frontend._bigIntToHex (GENERATOR ^ 23 mod prime))) = true
  /\ (256 ^ 255 <= (GENERATOR ^ Z_of_bytes [chr 89] mod prime) ^ 23 mod prime)%Z
  /\ exists secret,
      Frontend.computeSharedSecret (H := sample_crypto)
        {| ss_privateKey := Frontend._bigIntToHex 23;
           ss_otherPublicKey :=
             hex_of_bytes
               (be_bytes (Z.to_N (GENERATOR ^ Z_of_bytes [chr 89] mod prime)));
           ss_password := None |} = Ok secret
      /\ Backend.computeSharedSecret (H := sample_crypto)
           {| ss_privateKey := hex_of_bytes [chr 89];
              ss_otherPublicKey := Frontend._bigIntToHex (GENERATOR ^ 23 mod prime);
              ss_password := None |} = Ok secret.
Proof.
  assert (Hx : (0 <= 23)%Z) by (vm_compute; discriminate).
  assert (HA : (1 < GENERATOR ^ 23 mod prime < prime - 1)%Z)
    by (split; vm_compute; reflexivity).
  assert (HB : (0 < GENERATOR ^ Z_of_bytes [chr 89] mod prime)%Z)
    by (vm_compute; reflexivity).
  assert (Hpw : @None text <> Some []) by discriminate.
  assert (Hev : Nat.even (length (Frontend._bigIntToHex (GENERATOR ^ 23 mod prime)))
                = true) by (vm_compute; reflexivity).
  assert (Hs : (256 ^ 255
                <= (GENERATOR ^ Z_of_bytes [chr 89] mod prime) ^ 23 mod prime)%Z)
    by (vm_compute; discriminate).
  split; [exact Hx|]. split; [exact HA|]. split; [exact HB|]. split; [exact Hpw|].
  split; [exact Hev|]. split; [exact Hs|].
  exact (X19_agreement_across_implementations (H := sample_crypto) 23 [chr 89] None
           Hx HA HB Hpw Hev Hs).
Defined.

Lemma X21_witness :
  (0 < 1)%nat /\ first_accepted rng_five 0 = true
  /\ Frontend.generateDHKeyPair (H := sample_crypto) 1 rng_five sample_now None
     = Some (Ok {| privateKey := Frontend._bigIntToHex (candidate rng_five 0);
                   publicKey :=
                     Frontend._bigIntToHex
                       (GENERATOR ^ candidate rng_five 0 mod prime) |}).
Proof.
  assert (Hk : (0 < 1)%nat) by exact (le_n 1).
  assert (Hfa : first_accepted rng_five 0 = true) by (vm_compute; reflexivity).
  split; [exact Hk|]. split; [exact Hfa|].
  exact (proj1 (X21_frontend_plain_key_pair (H := sample_crypto) 1 rng_five 0
                  sample_now Hk Hfa)).
Defined.
